(** * The boundary-curve marker tool of Easdentmodelmaker

    A shallow embedding of [app/tools/bezier.py] (the anchor store, the
    segment-path cache, the reversible commands, the pointer and key
    handlers of the interactor, the insertion-index resolution and the
    region extractor) and of the command manager, [MultiCommand] and the
    mesh-deleting commands of [app/core/commands.py], followed by the
    properties established about them.

    Conventions of the embedding.
    - A visual handle (a VTK actor) is an opaque identity; handles are
      numbered in the order the plotter creates them.
    - Coordinates are exact rationals: the float arithmetic of numpy is
      read as arithmetic on the numbers the floats stand for.  The only
      irrational operation of the cache, the Euclidean norm inside
      [int(max(10, dist / 0.5))], is carried out exactly with the integer
      square root (lemma [floor_norm_over_half_spec]).
    - Datasets live in a heap of shared objects: [self.mesh] and the
      dataset of the displayed actor are references into it, so that a
      write through one is seen through the other.
    - A Python exception is an outcome [Raise]; the state reached when it
      was raised is kept, as Python keeps it.
    - Calls that only talk to the renderer (add/remove actor, colours,
      the tube of the curve, render) change nothing modelled here and are
      left out; every other statement of a modelled function is kept in
      source order. *)

From Stdlib Require Import ZArith QArith Qround Qminmax Qabs Lia Lqa.
From stdpp Require Import gmap strings list fin_maps.

Open Scope Z_scope.

(** ** Python lists and numpy indexing *)

Inductive exn := IndexError | ValueError | AttributeError | KeyError.

Inductive res (A : Type) : Type :=
| Ok (a : A)
| Raise (e : exn).
Arguments Ok {A} a.
Arguments Raise {A} e.

(** [l[i]] for a Python list or a numpy array: a negative index counts
    from the end, anything outside [-len, len) is an [IndexError]. *)
Definition py_norm_index (len : nat) (i : Z) : option nat :=
  if (0 <=? i) && (i <? Z.of_nat len) then Some (Z.to_nat i)
  else if (- Z.of_nat len <=? i) && (i <? 0) then Some (Z.to_nat (i + Z.of_nat len))
  else None.

Definition py_getitem {A} (l : list A) (i : Z) : option A :=
  n ← py_norm_index (length l) i; l !! n.

(** [l[i] = x] *)
Definition py_setitem {A} (l : list A) (i : Z) (x : A) : option (list A) :=
  n ← py_norm_index (length l) i; Some (<[n := x]> l).

(** [l.insert(i, x)]: the index is clamped into [0, len]. *)
Definition py_insert {A} (l : list A) (i : Z) (x : A) : list A :=
  let n := Z.of_nat (length l) in
  let j := Z.to_nat (if i <? 0 then Z.max 0 (i + n) else Z.min i n) in
  take j l ++ x :: drop j l.

(** [l.pop(i)] for an index [i >= 0]. *)
Definition py_pop {A} (l : list A) (i : nat) : option (list A) :=
  if decide (i < length l)%nat then Some (delete i l) else None.

(** [l.index(x)]: position of the first occurrence, [None] for
    [ValueError]. *)
Fixpoint py_index (x : nat) (l : list nat) : option nat :=
  match l with
  | [] => None
  | y :: r => if decide (y = x) then Some 0%nat else S <$> py_index x r
  end.

(** ** Vectors *)

Definition point := (Q * Q * Q)%type.

Definition px (p : point) : Q := fst (fst p).
Definition py (p : point) : Q := snd (fst p).
Definition pz (p : point) : Q := snd p.

Definition vadd (a b : point) : point := (px a + px b, py a + py b, pz a + pz b)%Q.
Definition vsub (a b : point) : point := (px a - px b, py a - py b, pz a - pz b)%Q.
Definition vscale (t : Q) (a : point) : point := (t * px a, t * py a, t * pz a)%Q.
Definition vneg (a : point) : point := (- px a, - py a, - pz a)%Q.
Definition dot (a b : point) : Q := (px a * px b + py a * py b + pz a * pz b)%Q.
Definition cross (a b : point) : point :=
  (py a * pz b - pz a * py b, pz a * px b - px a * pz b, px a * py b - py a * px b)%Q.

(** Equality of points as numbers. *)
Definition peq (a b : point) : Prop := (px a == px b /\ py a == py b /\ pz a == pz b)%Q.

Definition Qltb (x y : Q) : bool := negb (Qle_bool y x).

Definition dist_sq (a b : point) : Q := dot (vsub a b) (vsub a b).

(** ** The surface *)

Inductive data_array :=
| IntArray (a : list Z)
| VecArray (a : list point).

Inductive dataset_kind := PolyData | UnstructuredGrid.

Record Dataset := mkDataset {
  kind : dataset_kind;
  points : list point;
  cells : list (list Z);
  point_data : gmap string data_array
}.

Definition set_point_data (d : Dataset) (name : string) (a : data_array) : Dataset :=
  mkDataset (kind d) (points d) (cells d) (<[name := a]> (point_data d)).

Definition n_points (d : Dataset) : Z := Z.of_nat (length (points d)).

(** Nearest vertex: the index of a vertex at least squared distance;
    [best] is the running candidate.  Used for
    [mesh.find_closest_point] and for [cKDTree(points).query]. *)
Fixpoint nearest_from (p : point) (pts : list point) (i : Z) (best : Z) (best_d : Q) : Z :=
  match pts with
  | [] => best
  | v :: r =>
      let d := dist_sq p v in
      if Qltb d best_d then nearest_from p r (i + 1) i d
      else nearest_from p r (i + 1) best best_d
  end.

Definition closest_point_id (pts : list point) (p : point) : Z :=
  match pts with
  | [] => -1
  | v :: r => nearest_from p r 1 0 (dist_sq p v)
  end.

Definition find_closest_point (d : Dataset) (p : point) : Z :=
  closest_point_id (points d) p.

(** ** The state of [BezierMarkerTool] *)

(** Handles and dataset references are numbers. *)
Abbreviation actor := nat.
Abbreviation loc := nat.

Record Tool := mkTool {
  nodes : list actor;                       (* self.nodes *)
  node_ids : list Z;                        (* self.node_ids *)
  path_cache : gmap (Z * Z) (list point);   (* self.path_cache *)
  is_closed : bool;                         (* self.is_closed *)
  node_radius : Q;                          (* self.node_radius *)
  mesh : option loc;                        (* self.mesh *)
  target_dataset : option loc;              (* self.target_actor.mapper.dataset *)
  heap : gmap loc Dataset;                  (* the dataset objects *)
  handle_pos : gmap actor point;            (* actor.GetPosition() *)
  next_actor : actor                        (* handles created so far *)
}.

Definition with_nodes (st : Tool) (v : list actor) : Tool :=
  mkTool v (node_ids st) (path_cache st) (is_closed st) (node_radius st)
         (mesh st) (target_dataset st) (heap st) (handle_pos st) (next_actor st).
Definition with_node_ids (st : Tool) (v : list Z) : Tool :=
  mkTool (nodes st) v (path_cache st) (is_closed st) (node_radius st)
         (mesh st) (target_dataset st) (heap st) (handle_pos st) (next_actor st).
Definition with_path_cache (st : Tool) (v : gmap (Z * Z) (list point)) : Tool :=
  mkTool (nodes st) (node_ids st) v (is_closed st) (node_radius st)
         (mesh st) (target_dataset st) (heap st) (handle_pos st) (next_actor st).
Definition with_is_closed (st : Tool) (v : bool) : Tool :=
  mkTool (nodes st) (node_ids st) (path_cache st) v (node_radius st)
         (mesh st) (target_dataset st) (heap st) (handle_pos st) (next_actor st).
Definition with_mesh (st : Tool) (v : option loc) : Tool :=
  mkTool (nodes st) (node_ids st) (path_cache st) (is_closed st) (node_radius st)
         v (target_dataset st) (heap st) (handle_pos st) (next_actor st).
Definition with_heap (st : Tool) (v : gmap loc Dataset) : Tool :=
  mkTool (nodes st) (node_ids st) (path_cache st) (is_closed st) (node_radius st)
         (mesh st) (target_dataset st) v (handle_pos st) (next_actor st).
Definition with_handle_pos (st : Tool) (v : gmap actor point) : Tool :=
  mkTool (nodes st) (node_ids st) (path_cache st) (is_closed st) (node_radius st)
         (mesh st) (target_dataset st) (heap st) v (next_actor st).
Definition with_next_actor (st : Tool) (v : actor) : Tool :=
  mkTool (nodes st) (node_ids st) (path_cache st) (is_closed st) (node_radius st)
         (mesh st) (target_dataset st) (heap st) (handle_pos st) v.

(** The dataset [self.mesh] refers to. *)
Definition cur_mesh (st : Tool) : option Dataset :=
  l ← mesh st; heap st !! l.

(** [actor.GetPosition()]; a handle never positioned sits at the origin. *)
Definition get_position (st : Tool) (a : actor) : point :=
  default (0, 0, 0)%Q (handle_pos st !! a).

Definition set_position (st : Tool) (a : actor) (p : point) : Tool :=
  with_handle_pos st (<[a := p]> (handle_pos st)).

(** Stateful computations that may raise. *)
Definition M (A : Type) : Type := Tool -> res A * Tool.

Definition ret {A} (a : A) : M A := fun st => (Ok a, st).

Definition bind {A B} (m : M A) (f : A -> M B) : M B :=
  fun st => match m st with
            | (Ok a, st') => f a st'
            | (Raise e, st') => (Raise e, st')
            end.

Notation "'let*' x := m 'in' k" := (bind m (fun x => k))
  (at level 10, x name, m at level 200, k at level 200, only parsing).
Notation "m ;;; k" := (bind m (fun _ => k))
  (at level 100, k at level 200, right associativity, only parsing).

(** ** SegmentPathCache *)

(** [tuple(sorted((pid_a, pid_b)))] *)
Definition sorted_key (pid_a pid_b : Z) : Z * Z :=
  if pid_b <? pid_a then (pid_b, pid_a) else (pid_a, pid_b).

(** [int(np.linalg.norm(v) / 0.5)], exactly: the integer part of twice
    the Euclidean length of [v]. *)
Definition floor_norm_over_half (v : point) : Z :=
  Z.sqrt (Qfloor (4 * dot v v)).

(** [np.linspace(0, 1, num)] *)
Definition linspace01 (num : Z) : list Q :=
  map (fun k : nat => inject_Z (Z.of_nat k) / inject_Z (num - 1))%Q
      (seq 0 (Z.to_nat num)).

(** [points[ids]] *)
Definition np_take (pts : list point) (ids : list Z) : option (list point) :=
  mapM (py_getitem pts) ids.

(** The polyline computed on a cache miss: sample count, linear
    interpolation, indices of the nearest vertices. *)
Definition sample_count (p_a p_b : point) : Z :=
  Z.max 10 (floor_norm_over_half (vsub p_b p_a)).

Definition interpolate (p_a p_b : point) : list point :=
  map (fun t => vadd p_a (vscale t (vsub p_b p_a))) (linspace01 (sample_count p_a p_b)).

Definition snap_ids (pts : list point) (interp : list point) : list Z :=
  map (closest_point_id pts) interp.

Definition _get_segment_points (idx_a idx_b : Z) : M (list point) := fun st =>
  match py_getitem (node_ids st) idx_a, py_getitem (node_ids st) idx_b with
  | Some pid_a, Some pid_b =>
      let key := sorted_key pid_a pid_b in
      match path_cache st !! key with
      | Some pts => (Ok pts, st)
      | None =>
          match cur_mesh st with
          | None => (Raise AttributeError, st)
          | Some m =>
              match py_getitem (points m) pid_a, py_getitem (points m) pid_b with
              | Some p_a, Some p_b =>
                  let interp := interpolate p_a p_b in
                  let ids := snap_ids (points m) interp in
                  match np_take (points m) ids with
                  | Some snapped =>
                      (Ok snapped, with_path_cache st (<[key := snapped]> (path_cache st)))
                  | None => (Raise IndexError, st)
                  end
              | _, _ => (Raise IndexError, st)
              end
          end
      end
  | _, _ => (Raise IndexError, st)
  end.

(** The loop of [_get_full_path_points]; [full] is the list of pieces
    collected so far. *)
Fixpoint full_path_loop (count : Z) (rng : list nat) (full : list (list point))
  : M (list (list point)) :=
  match rng with
  | [] => ret full
  | i :: rest =>
      let* pts := _get_segment_points (Z.of_nat i) ((Z.of_nat i + 1) mod count) in
      full_path_loop count rest
        (full ++ [match full with [] => pts | _ => drop 1 pts end])
  end.

(** [range(count if self.is_closed else count - 1)] *)
Definition segment_range (st : Tool) : list nat :=
  let count := length (nodes st) in
  seq 0 (if is_closed st then count else count - 1)%nat.

Definition _get_full_path_points : M (list point) := fun st =>
  if (length (nodes st) <? 2)%nat then (Ok [], st)
  else
    (let* full := full_path_loop (Z.of_nat (length (nodes st))) (segment_range st) [] in
     ret (concat full)) st.

(** [update_curve]: the path is recomputed (filling the cache); what is
    done with it afterwards is rendering. *)
Definition update_curve : M unit :=
  _get_full_path_points ;;; ret tt.

Definition _invalidate_neighbors (idx : Z) : M unit := fun st =>
  (Ok tt, with_path_cache st ∅).

(** ** AnchorStore: the internal operations *)

Definition is_nil {A} (l : list A) : bool :=
  match l with [] => true | _ => false end.

(** [try: body  except ValueError: pass] *)
Definition except_ValueError (body : M unit) : M unit := fun st =>
  match body st with
  | (Raise ValueError, st') => (Ok tt, st')
  | r => r
  end.

(** [try: body  except: pass] *)
Definition except_all (body : M unit) : M unit := fun st =>
  (Ok tt, snd (body st)).

Definition _internal_add_node (pos : point) (insert_after_idx : Z) : M (actor * Z) := fun st =>
  match cur_mesh st with
  | None => (Raise AttributeError, st)
  | Some m =>
      let pid := find_closest_point m pos in
      if negb (is_nil (node_ids st)) && (insert_after_idx =? -1)
         && bool_decide (last (node_ids st) = Some pid)
      then
        match last (nodes st), last (node_ids st) with
        | Some a, Some p => (Ok (a, p), st)
        | _, _ => (Raise IndexError, st)
        end
      else
        (* plotter.add_mesh creates the handle *)
        let a := next_actor st in
        let st1 := with_next_actor st (S a) in
        match py_getitem (points m) pid with
        | None => (Raise IndexError, st1)
        | Some p =>
            let st2 := set_position st1 a p in
            let st3 :=
              if negb (insert_after_idx =? -1) then
                let idx := insert_after_idx + 1 in
                with_path_cache
                  (with_node_ids (with_nodes st2 (py_insert (nodes st2) idx a))
                                 (py_insert (node_ids st2) idx pid))
                  ∅
              else
                with_node_ids (with_nodes st2 (nodes st2 ++ [a])) (node_ids st2 ++ [pid]) in
            (update_curve ;;; ret (a, pid)) st3
        end
  end.

Definition _internal_remove_node_by_actor (a : actor) : M unit :=
  except_ValueError (fun st =>
    match py_index a (nodes st) with
    | None => (Raise ValueError, st)
    | Some idx =>
        let st1 := with_path_cache st ∅ in
        let st2 := with_nodes st1 (delete idx (nodes st1)) in
        match py_pop (node_ids st2) idx with
        | None => (Raise IndexError, st2)
        | Some ids =>
            let st3 := with_node_ids st2 ids in
            let st4 := if (length (nodes st3) <? 3)%nat then with_is_closed st3 false else st3 in
            update_curve st4
        end
    end).

Definition _internal_restore_node (a : actor) (pid : Z) (idx : Z) (was_closed : bool) : M unit :=
  fun st =>
    let st1 := with_nodes st (py_insert (nodes st) idx a) in
    let st2 := with_node_ids st1 (py_insert (node_ids st1) idx pid) in
    let st3 := with_is_closed st2 was_closed in
    let st4 := with_path_cache st3 ∅ in
    update_curve st4.

Definition _internal_update_node_pos (a : actor) (pos : point) (pid : Z) : M unit := fun st =>
  let st0 := set_position st a pos in
  except_all (fun st =>
    match py_index a (nodes st) with
    | None => (Raise ValueError, st)
    | Some idx =>
        match py_setitem (node_ids st) (Z.of_nat idx) pid with
        | None => (Raise IndexError, st)
        | Some ids =>
            let st1 := with_node_ids st ids in
            let st2 := with_path_cache st1 ∅ in
            update_curve st2
        end
    end) st0.

Definition _internal_hard_reset (keep_actors : bool) : M unit := fun st =>
  (Ok tt, with_is_closed (with_path_cache (with_node_ids (with_nodes st []) []) ∅) false).

(** [for i, actor in enumerate(nodes_list): ...] *)
Fixpoint restore_loop (i : nat) (nodes_list : list actor) (ids_list : list Z) : M unit :=
  match nodes_list with
  | [] => ret tt
  | a :: rest => fun st =>
      let st1 := with_nodes st (nodes st ++ [a]) in
      match py_getitem ids_list (Z.of_nat i) with
      | None => (Raise IndexError, st1)
      | Some pid =>
          restore_loop (S i) rest ids_list (with_node_ids st1 (node_ids st1 ++ [pid]))
      end
  end.

Definition _internal_restore_full_state
    (nodes_list : list actor) (ids_list : list Z) (closed_state : bool) : M unit :=
  _internal_hard_reset true ;;;
  restore_loop 0 nodes_list ids_list ;;;
  (fun st => (Ok tt, with_is_closed st closed_state)) ;;;
  update_curve.

Definition clear_all_markup : M unit := _internal_hard_reset false.

(** ** The reversible commands *)

Inductive Command :=
| BezierCmdAdd (pos : point) (insert_idx : Z)
               (added_actor : option actor) (added_pid : option Z) (final_idx : Z)
| BezierCmdDelete (a : actor) (idx : Z) (pid : Z) (pos : point) (was_closed : bool)
| BezierCmdMove (a : actor) (old_pos new_pos : point) (old_pid new_pid : Z)
| BezierCmdCloseLoop (prev_state : bool)
| BezierCmdClear (saved_nodes : list actor) (saved_ids : list Z) (saved_closed : bool).

(** The constructors ([__init__]) take their snapshot of the tool. *)
Definition new_BezierCmdAdd (position : point) (insert_idx : Z) : Command :=
  BezierCmdAdd position insert_idx None None (-1).

Definition new_BezierCmdDelete (st : Tool) (a : actor) : res Command :=
  let idx := match py_index a (nodes st) with Some i => Z.of_nat i | None => -1 end in
  if idx =? -1 then Ok (BezierCmdDelete a idx (-1) (get_position st a) (is_closed st))
  else match py_getitem (node_ids st) idx with
       | Some pid => Ok (BezierCmdDelete a idx pid (get_position st a) (is_closed st))
       | None => Raise IndexError
       end.

Definition new_BezierCmdCloseLoop (st : Tool) : Command :=
  BezierCmdCloseLoop (is_closed st).

Definition new_BezierCmdClear (st : Tool) : Command :=
  BezierCmdClear (nodes st) (node_ids st) (is_closed st).

(** [execute] returns the command object as it is afterwards
    ([BezierCmdAdd] records the handle it obtained). *)
Module BezierCmd.

Definition execute (c : Command) : M Command :=
  match c with
  | BezierCmdAdd pos insert_idx _ _ _ =>
      let* r := _internal_add_node pos insert_idx in
      fun st =>
        match py_index (fst r) (nodes st) with
        | Some i => (Ok (BezierCmdAdd pos insert_idx (Some (fst r)) (Some (snd r)) (Z.of_nat i)), st)
        | None => (Raise ValueError, st)
        end
  | BezierCmdDelete a _ _ _ _ =>
      _internal_remove_node_by_actor a ;;; ret c
  | BezierCmdMove a _ new_pos _ new_pid =>
      _internal_update_node_pos a new_pos new_pid ;;; ret c
  | BezierCmdCloseLoop _ =>
      (fun st => (Ok tt, with_is_closed st true)) ;;;
      update_curve ;;; ret c
  | BezierCmdClear _ _ _ =>
      _internal_hard_reset false ;;; ret c
  end.

Definition undo (c : Command) : M unit :=
  match c with
  | BezierCmdAdd _ _ added_actor _ _ =>
      match added_actor with
      | Some a => _internal_remove_node_by_actor a
      | None => ret tt
      end
  | BezierCmdDelete a idx pid _ was_closed =>
      if negb (idx =? -1) then _internal_restore_node a pid idx was_closed else ret tt
  | BezierCmdMove a old_pos _ old_pid _ =>
      _internal_update_node_pos a old_pos old_pid
  | BezierCmdCloseLoop prev_state =>
      (fun st => (Ok tt, with_is_closed st prev_state)) ;;; update_curve
  | BezierCmdClear saved_nodes saved_ids saved_closed =>
      _internal_restore_full_state saved_nodes saved_ids saved_closed
  end.

End BezierCmd.

(** ** CommandManager

    The two stacks are Python lists used from their end; here the head
    of the list is the top of the stack. *)

Record App := mkApp {
  tool : Tool;
  undo_stack : list Command;
  redo_stack : list Command
}.

Module CommandManager.

Definition execute (command : Command) (app : App) : res unit * App :=
  match BezierCmd.execute command (tool app) with
  | (Ok c', t') => (Ok tt, mkApp t' (c' :: undo_stack app) [])
  | (Raise e, t') => (Raise e, mkApp t' (undo_stack app) (redo_stack app))
  end.

Definition push_existing (command : Command) (app : App) : res unit * App :=
  (Ok tt, mkApp (tool app) (command :: undo_stack app) []).

Definition undo (app : App) : res unit * App :=
  match undo_stack app with
  | [] => (Ok tt, app)
  | command :: rest =>
      match BezierCmd.undo command (tool app) with
      | (Ok _, t') => (Ok tt, mkApp t' rest (command :: redo_stack app))
      | (Raise e, t') => (Raise e, mkApp t' rest (redo_stack app))
      end
  end.

Definition redo (app : App) : res unit * App :=
  match redo_stack app with
  | [] => (Ok tt, app)
  | command :: rest =>
      match BezierCmd.execute command (tool app) with
      | (Ok c', t') => (Ok tt, mkApp t' (c' :: undo_stack app) rest)
      | (Raise e, t') => (Raise e, mkApp t' (undo_stack app) rest)
      end
  end.

End CommandManager.

(** ** The public API of the tool *)

Definition add_node_at (world_pos : point) (insert_idx : Z) (app : App) : res unit * App :=
  CommandManager.execute (new_BezierCmdAdd world_pos insert_idx) app.

Definition delete_node_cmd (a : actor) (app : App) : res unit * App :=
  match new_BezierCmdDelete (tool app) a with
  | Ok cmd => CommandManager.execute cmd app
  | Raise e => (Raise e, app)
  end.

Definition close_loop (app : App) : res unit * App :=
  if (2 <? length (nodes (tool app)))%nat && negb (is_closed (tool app))
  then CommandManager.execute (new_BezierCmdCloseLoop (tool app)) app
  else (Ok tt, app).

Definition clear_markup_cmd (st : Tool) : Command := new_BezierCmdClear st.

(** ** Insertion-index resolution *)

Definition _dist_sq_to_segment (p a b : point) : Q :=
  let ab := vsub b a in
  let ap := vsub p a in
  let len_sq := dot ab ab in
  if Qeq_bool len_sq 0 then dot ap ap
  else
    let t := Qmax 0 (Qmin 1 (dot ap ab / len_sq)) in
    let projection := vadd a (vscale t ab) in
    let dist_vec := vsub p projection in
    dot dist_vec dist_vec.

(** The running pair [(best_idx, min_dist_sq)]; [None] is
    [float('inf')]. *)
Definition best := (Z * option Q)%type.

Definition lt_min (d : Q) (m : option Q) : bool :=
  match m with
  | None => true
  | Some x => Qltb d x
  end.

(** [for k in range(len(pts) - 1)] over the polyline of segment [i]. *)
Fixpoint scan_polyline (hit_pos : point) (i : Z) (pts : list point) (acc : best) : best :=
  match pts with
  | [] => acc
  | a :: rest =>
      match rest with
      | [] => acc
      | b :: _ =>
          let d_sq := _dist_sq_to_segment hit_pos a b in
          scan_polyline hit_pos i rest (if lt_min d_sq (snd acc) then (i, Some d_sq) else acc)
      end
  end.

Fixpoint resolve_loop (hit_pos : point) (count : Z) (rng : list nat) (acc : best) : M best :=
  match rng with
  | [] => ret acc
  | i :: rest =>
      let* pts := _get_segment_points (Z.of_nat i) ((Z.of_nat i + 1) mod count) in
      resolve_loop hit_pos count rest
        (if (length pts <? 2)%nat then acc else scan_polyline hit_pos (Z.of_nat i) pts acc)
  end.

Definition threshold_sq (st : Tool) : Q := ((node_radius st * (7 # 2)) ^ 2)%Q.

Definition _resolve_insertion_index (hit_pos : point) : M Z := fun st =>
  if (length (nodes st) <? 2)%nat then (Ok (-1), st)
  else
    (let* acc := resolve_loop hit_pos (Z.of_nat (length (nodes st))) (segment_range st) (-1, None) in
     ret (match snd acc with
          | Some min_dist_sq => if Qltb min_dist_sq (threshold_sq st) then fst acc else -1
          | None => -1
          end)) st.

(** ** Region extraction *)

(** [mesh.point_cell_ids(s)] with the cells they name. *)
Definition cells_of_point (d : Dataset) (s : Z) : list (nat * list Z) :=
  filter (fun c => bool_decide (s ∈ snd c)) (imap (fun i c => (i, c)) (cells d)).

Definition point_cell_ids (d : Dataset) (s : Z) : list nat :=
  map fst (cells_of_point d s).

Record bfs_state := mkBfs {
  bfs_q : list (Z * list Z);
  bfs_vis : gset Z;
  bfs_found : option (list Z)
}.

(** Python truth of [found]: neither [None] nor the empty list. *)
Definition truthy (found : option (list Z)) : bool :=
  match found with
  | Some (_ :: _) => true
  | _ => false
  end.

(** [for k in range(cell.GetNumberOfPoints())] *)
Fixpoint scan_cell (e : Z) (path : list Z) (cell : list Z) (s : bfs_state) : bfs_state :=
  match cell with
  | [] => s
  | neigh :: rest =>
      if neigh =? e then mkBfs (bfs_q s) (bfs_vis s) (Some path)
      else if bool_decide (neigh ∈ bfs_vis s) then scan_cell e path rest s
      else scan_cell e path rest
             (mkBfs (bfs_q s ++ [(neigh, path ++ [neigh])]) ({[neigh]} ∪ bfs_vis s) (bfs_found s))
  end.

(** [for cid in point_cell_ids(cur)] *)
Fixpoint scan_cells (e : Z) (path : list Z) (cs : list (nat * list Z)) (s : bfs_state) : bfs_state :=
  match cs with
  | [] => s
  | c :: rest =>
      let s' := scan_cell e path (snd c) s in
      if truthy (bfs_found s') then s' else scan_cells e path rest s'
  end.

(** [while q]; every vertex enters the queue at most once, so the
    number of vertex slots of the cells bounds the iterations. *)
Fixpoint bfs_loop (fuel : nat) (d : Dataset) (e : Z) (s : bfs_state) : bfs_state :=
  match fuel with
  | O => s
  | S fuel' =>
      match bfs_q s with
      | [] => s
      | (cur, path) :: q' =>
          let s1 := mkBfs q' (bfs_vis s) (bfs_found s) in
          if (20 <? length path)%nat then bfs_loop fuel' d e s1
          else
            let s2 := scan_cells e path (cells_of_point d cur) s1 in
            if truthy (bfs_found s2) then s2 else bfs_loop fuel' d e s2
      end
  end.

Definition bfs_fuel (d : Dataset) : nat := S (S (length (concat (cells d)))).

(** [ordered_ids]: consecutive repetitions dropped. *)
Fixpoint dedup_adjacent (prev : Z) (ids : list Z) : list Z :=
  match ids with
  | [] => []
  | pid :: rest => if pid =? prev then dedup_adjacent prev rest
                   else pid :: dedup_adjacent pid rest
  end.

Fixpoint barrier_loop (d : Dataset) (ordered_ids : list Z) (final : gset Z) : gset Z :=
  match ordered_ids with
  | [] => final
  | s :: rest =>
      match rest with
      | [] => final
      | e :: _ =>
          if bool_decide (Exists (fun c => c ∈ point_cell_ids d e) (point_cell_ids d s))
          then barrier_loop d rest final
          else
            let r := bfs_loop (bfs_fuel d) d e (mkBfs [(s, [])] {[s]} None) in
            barrier_loop d rest
              (if truthy (bfs_found r) then list_to_set (default [] (bfs_found r)) ∪ final
               else final)
      end
  end.

Definition _make_barrier_watertight (d : Dataset) (initial_ids : list Z) : gset Z :=
  match initial_ids with
  | [] => ∅
  | first :: rest =>
      let ordered_ids := first :: dedup_adjacent first rest in
      barrier_loop d ordered_ids (list_to_set ordered_ids)
  end.

(** [np.mean(pts, axis=0)] *)
Definition vsum (pts : list point) : point :=
  foldr vadd (0, 0, 0)%Q pts.

Definition mean (pts : list point) : point :=
  vscale (1 / inject_Z (Z.of_nat (length pts))) (vsum pts).

(** The inner loop of step 3: the first candidate whose vertex normal
    is not strongly opposed to the loop normal.  The outer [None] is an
    [IndexError]. *)
Fixpoint first_facing (mesh_normals : list point) (normal : point) (cands : list Z)
  : option (option Z) :=
  match cands with
  | [] => Some None
  | pid :: rest =>
      if pid <? Z.of_nat (length mesh_normals) then
        match py_getitem mesh_normals pid with
        | None => None
        | Some n =>
            if Qltb (- (1 # 5)) (dot n normal) then Some (Some pid)
            else first_facing mesh_normals normal rest
        end
      else first_facing mesh_normals normal rest
  end.

Definition pick_barrier_point (mesh_normals : list point) (normal : point)
    (pt_candidates : list Z) : option Z :=
  match pt_candidates with
  | [] => None
  | best_pid :: _ => default best_pid <$> first_facing mesh_normals normal pt_candidates
  end.

(** [scalars = zeros(n); scalars[valid_barrier_ids] = 1] *)
Definition barrier_scalars (n : nat) (barrier_ids : gset Z) : option (list Z) :=
  foldr (fun pid acc => a ← acc; py_setitem a pid 1)
        (Some (replicate n 0))
        (filter (fun pid => pid < Z.of_nat n) (elements barrier_ids)).

(** A write through the reference [self.mesh]. *)
Definition write_mesh (f : Dataset -> Dataset) (st : Tool) : Tool :=
  match mesh st with
  | Some l => with_heap st (alter f l (heap st))
  | None => st
  end.

Section RegionExtractor.

(** The geometry kernels of numpy, scipy and pyvista that the
    extractor calls; [None] stands for a raised exception where the
    source catches one. *)
Variable norm : point -> Q.
Variable ray_trace : Dataset -> point -> point -> option (list point).
Variable kd_query : list point -> list point -> nat -> option (list (list Z)).
Variable compute_normals : Dataset -> Dataset.
Variable extract_surface : Dataset -> Dataset.
Variable threshold_value : Q -> string -> bool -> Dataset -> Dataset.
Variable threshold_range : Q -> Q -> string -> Dataset -> Dataset.
Variable connectivity : Dataset -> Dataset.
Variable clean : Dataset -> Dataset.

(** [self.mesh = current_mesh] at the top of the extraction. *)
Definition rebind_mesh (st : Tool) : Tool :=
  match target_dataset st with
  | None => st
  | Some l =>
      match heap st !! l with
      | None => st
      | Some current_mesh =>
          match kind current_mesh with
          | UnstructuredGrid =>
              let l' := fresh (dom (heap st)) in
              with_mesh (with_heap st (<[l' := extract_surface current_mesh]> (heap st)))
                        (Some l')
          | PolyData => with_mesh st (Some l)
          end
      end
  end.

(** Step 1: the loop normal. *)
Definition loop_normal (raw_path_points : list point) (center : point) : point :=
  let v1 := vsub (default (0, 0, 0)%Q (head raw_path_points)) center in
  let v2 := vsub (default (0, 0, 0)%Q
                    (raw_path_points !! (length raw_path_points / 3)%nat)) center in
  let normal := cross v1 v2 in
  let norm_mag := norm normal in
  let normal := if Qltb norm_mag (1 # 1000000) then (0, 0, 1)%Q
                else vscale (1 / norm_mag) normal in
  if Qltb (pz normal) 0 then vneg normal else normal.

(** Steps 5 and 6, after the barrier has been written on the mesh. *)
Definition cut_and_select (m : Dataset) (seed_coords : point) : res (option Dataset) :=
  let cut_mesh := threshold_value (1 # 2) "is_barrier" true m in
  let connected := connectivity cut_mesh in
  let closest_idx := closest_point_id (points connected) seed_coords in
  match point_data connected !! "RegionId" with
  | Some (IntArray region_ids) =>
      match py_getitem region_ids closest_idx with
      | None => Raise IndexError
      | Some target_region =>
          let final_selection :=
            clean (extract_surface
                     (threshold_range (inject_Z target_region - (1 # 10))
                                      (inject_Z target_region + (1 # 10))
                                      "RegionId" connected)) in
          if n_points final_selection <? 10 then Ok None else Ok (Some final_selection)
      end
  | _ => Raise KeyError
  end.

Definition get_selected_region : M (option Dataset) := fun st =>
  if negb (is_closed st) then (Ok None, st)
  else
    let st := rebind_mesh st in
    match cur_mesh st with
    | None => (Ok None, st)
    | Some _ =>
    match _get_full_path_points st with
    | (Raise e, st) => (Raise e, st)
    | (Ok raw_path_points, st) =>
    if (length raw_path_points <? 3)%nat then (Ok None, st)
    else
    match cur_mesh st with
    | None => (Ok None, st)
    | Some m =>
    let center := mean raw_path_points in
    let normal := loop_normal raw_path_points center in
    let ray_start := vadd center (vscale 200 normal) in
    let ray_end := vsub center (vscale 200 normal) in
    match ray_trace m ray_start ray_end with
    | None => (Ok None, st)
    | Some pts =>
    let seed_coords := default center (head pts) in
    match kd_query (points m) raw_path_points 5 with
    | None => (Ok None, st)
    | Some candidates =>
    let st := if bool_decide (is_Some (point_data m !! "Normals")) then st
              else write_mesh compute_normals st in
    match cur_mesh st with
    | None => (Raise AttributeError, st)
    | Some m =>
    match point_data m !! "Normals" with
    | Some (VecArray mesh_normals) =>
        match mapM (pick_barrier_point mesh_normals normal) candidates with
        | None => (Raise IndexError, st)
        | Some clean_path_ids =>
            let barrier_ids := _make_barrier_watertight m clean_path_ids in
            match barrier_scalars (length (points m)) barrier_ids with
            | None => (Raise IndexError, st)
            | Some scalars =>
                let st := write_mesh (fun d => set_point_data d "is_barrier" (IntArray scalars)) st in
                match cur_mesh st with
                | None => (Raise AttributeError, st)
                | Some m => (cut_and_select m seed_coords, st)
                end
            end
        end
    | _ => (Raise KeyError, st)
    end end end end end end end.

End RegionExtractor.

(** ** Well-formed states and the notions the statements use *)

(** Every anchor has a vertex id, the tool has a mesh, and every vertex
    id indexes a vertex of it: the states in which no lookup raises. *)
Definition wf (st : Tool) : Prop :=
  length (nodes st) = length (node_ids st) /\
  exists m, cur_mesh st = Some m /\
            Forall (fun pid => is_Some (py_getitem (points m) pid)) (node_ids st).

(** The loop invariant of the data model: a closed loop has at least
    three anchors. *)
Definition loop_inv (st : Tool) : Prop :=
  is_closed st = true -> (3 <= length (nodes st))%nat.

(** What a user observes of the anchor store. *)
Definition observable (st : Tool) : list Z * bool := (node_ids st, is_closed st).

(** The keys of the segments of the current curve. *)
Definition segment_key (st : Tool) (i : nat) : option (Z * Z) :=
  match py_getitem (node_ids st) (Z.of_nat i),
        py_getitem (node_ids st) ((Z.of_nat i + 1) mod Z.of_nat (length (nodes st))) with
  | Some pid_a, Some pid_b => Some (sorted_key pid_a pid_b)
  | _, _ => None
  end.


(** ** Notions used by the statements, and the demo scenarios *)

Definition clamp_index (len : nat) (i : Z) : nat :=
  Z.to_nat (if i <? 0 then Z.max 0 (i + Z.of_nat len) else Z.min i (Z.of_nat len)).

(** [st'] differs from [st] at most by a larger cache. *)
Definition cache_grown (st st' : Tool) : Prop :=
  exists c', st' = with_path_cache st c' /\ path_cache st ⊆ c'.

(** The store right after [_internal_add_node] has placed a new handle
    and before it redraws the curve. *)
Definition inserted (st : Tool) (p : point) (pid idx : Z) : Tool :=
  let a := next_actor st in
  let st2 := set_position (with_next_actor st (S a)) a p in
  if negb (idx =? -1) then
    with_path_cache
      (with_node_ids (with_nodes st2 (py_insert (nodes st2) (idx + 1) a))
                     (py_insert (node_ids st2) (idx + 1) pid)) ∅
  else with_node_ids (with_nodes st2 (nodes st2 ++ [a])) (node_ids st2 ++ [pid]).

Definition is_noop_append (st : Tool) (pid idx : Z) : bool :=
  negb (is_nil (node_ids st)) && (idx =? -1) && bool_decide (last (node_ids st) = Some pid).

Definition demo_point (x y z : Z) : point := (inject_Z x, inject_Z y, inject_Z z).

(** A flat square with one raised vertex. *)
Definition demo_mesh : Dataset :=
  mkDataset PolyData
    [demo_point 0 0 0; demo_point 4 0 0; demo_point 4 4 0; demo_point 0 4 0;
     demo_point 1 2 5]
    [[0; 1; 2]; [0; 2; 3]] ∅.

Definition demo_tool : Tool :=
  mkTool [] [] ∅ false (1 # 2) (Some 0%nat) (Some 0%nat) {[0%nat := demo_mesh]} ∅ 0%nat.

(** The store right after [_internal_remove_node_by_actor] has taken the
    anchor at [idx] out and before it redraws the curve. *)
Definition removed (st : Tool) (idx : nat) : Tool :=
  let st3 := with_node_ids (with_nodes (with_path_cache st ∅) (delete idx (nodes st)))
                           (delete idx (node_ids st)) in
  if (length (nodes st3) <? 3)%nat then with_is_closed st3 false else st3.

(** The store right after [_internal_restore_node] has put the anchor
    back and before it redraws the curve. *)
Definition restored (st : Tool) (a : actor) (pid idx : Z) (was_closed : bool) : Tool :=
  with_path_cache
    (with_is_closed
       (with_node_ids (with_nodes st (py_insert (nodes st) idx a))
                      (py_insert (node_ids st) idx pid))
       was_closed) ∅.

(** The store right after [_internal_update_node_pos] has re-snapped the
    anchor at [idx] and before it redraws the curve. *)
Definition moved (st : Tool) (a : actor) (pos : point) (idx : nat) (pid : Z) : Tool :=
  with_path_cache (with_node_ids (set_position st a pos) (<[idx := pid]> (node_ids st))) ∅.

Definition demo_pair : Tool :=
  mkTool [0%nat; 1%nat] [0; 4] ∅ false (1 # 2) (Some 0%nat) (Some 0%nat)
         {[0%nat := demo_mesh]} ∅ 2%nat.

Definition store_inv (st : Tool) : Prop :=
  length (nodes st) = length (node_ids st) /\ loop_inv st.

Definition run (f : App -> res unit * App) (app : App) : App := snd (f app).

(** Three anchors on the corners 0, 1, 2 of the demo mesh, and the same
    loop closed. *)
Definition demo_open_app : App :=
  run (add_node_at (demo_point 4 4 0) (-1))
    (run (add_node_at (demo_point 4 0 0) (-1))
       (run (add_node_at (demo_point 0 0 0) (-1)) (mkApp demo_tool [] []))).

Definition demo_closed_app : App := run close_loop demo_open_app.

(** The last anchor deleted, then the markup cleared outside the
    command log, as the wizard does. *)
Definition demo_cleared_app : App :=
  let app := run (delete_node_cmd 2%nat) demo_closed_app in
  mkApp (snd (clear_all_markup (tool app))) (undo_stack app) (redo_stack app).

(** Every cache entry belongs to a segment of the current curve. *)
Definition only_current_segments (st : Tool) : Prop :=
  forall k, is_Some (path_cache st !! k) ->
            exists i, i ∈ segment_range st /\ segment_key st i = Some k.

(** The closed demo loop after a plain append on vertex 3, and the demo
    pair after an insertion behind its first anchor. *)
Definition demo_appended : Tool :=
  snd (_internal_add_node (demo_point 0 4 0) (-1) (tool demo_closed_app)).

Definition demo_inserted : Tool :=
  snd (_internal_add_node (demo_point 4 4 0) 0 demo_pair).



(** The squared distances [d_sq] the inner loop of
    [_resolve_insertion_index] goes through for one polyline. *)
Fixpoint segment_dists (hit_pos : point) (pts : list point) : list Q :=
  match pts with
  | [] => []
  | a :: rest =>
      match rest with
      | [] => []
      | b :: _ => _dist_sq_to_segment hit_pos a b :: segment_dists hit_pos rest
      end
  end.

(** The polylines of the segments of the curve with their starting
    anchor index, in curve order, as [_get_segment_points] gives them. *)
Fixpoint polylines_loop (count : Z) (rng : list nat) : M (list (nat * list point)) :=
  match rng with
  | [] => ret []
  | i :: rest =>
      let* pts := _get_segment_points (Z.of_nat i) ((Z.of_nat i + 1) mod count) in
      let* more := polylines_loop count rest in
      ret ((i, pts) :: more)
  end.


(** All the distances of the scan, each with the index of its segment,
    in scan order. *)
Definition all_dists (hit_pos : point) (segs : list (nat * list point)) : list (nat * Q) :=
  concat (map (fun s => map (pair (fst s)) (segment_dists hit_pos (snd s))) segs).

(** One comparison of the scan. *)
Definition scan_step (acc : best) (x : nat * Q) : best :=
  if lt_min (snd x) (snd acc) then (Z.of_nat (fst x), Some (snd x)) else acc.

(** [acc] is the first minimum of the scanned list [l]. *)
Definition first_min (l : list (nat * Q)) (acc : best) : Prop :=
  match snd acc with
  | None => fst acc = -1 /\ l = []
  | Some d =>
      exists i pre post,
        l = pre ++ (i, d) :: post /\ fst acc = Z.of_nat i /\
        (forall x, x ∈ pre -> (d < snd x)%Q) /\
        (forall x, x ∈ post -> (d <= snd x)%Q)
  end.


(** A concrete geometry kernel for the demo mesh.  The demo loop lies in the plane z = 0, so its normal is along the z
    axis; on such a vector the sum of the absolute coordinates is the
    Euclidean norm, and the ray through the centroid crosses the mesh at
    the midpoint of the ray. *)
Definition demo_norm (v : point) : Q := (Qabs (px v) + Qabs (py v) + Qabs (pz v))%Q.

Definition demo_ray_trace (m : Dataset) (ray_start ray_end : point) : option (list point) :=
  Some [vscale (1 # 2) (vadd ray_start ray_end)].

(** The [k] nearest vertices by repeated selection; missing neighbours
    are reported as the index [n], as scipy does. *)
Fixpoint demo_k_nearest (k : nat) (pts : list point) (chosen : list Z) (q : point) : list Z :=
  match k with
  | O => []
  | S k' =>
      let candidates :=
        filter (fun iv => bool_decide (fst iv ∉ chosen))
               (imap (fun i v => (Z.of_nat i, v)) pts) in
      match candidates with
      | [] => Z.of_nat (length pts) :: demo_k_nearest k' pts chosen q
      | c :: cs =>
          let pick := fold_left (fun b iv => if Qltb (dist_sq q (snd iv)) (dist_sq q (snd b))
                                             then iv else b) cs c in
          fst pick :: demo_k_nearest k' pts (fst pick :: chosen) q
      end
  end.

Definition demo_kd_query (pts : list point) (queries : list point) (k : nat)
  : option (list (list Z)) :=
  Some (map (demo_k_nearest k pts []) queries).

Definition demo_compute_normals (d : Dataset) : Dataset :=
  set_point_data d "Normals" (VecArray (map (fun _ => (0, 0, 1)%Q) (points d))).

(** The rest of the kernel keeps the points of a dataset and labels
    them all with region 0. *)
Definition demo_connectivity (d : Dataset) : Dataset :=
  set_point_data d "RegionId" (IntArray (map (fun _ => 0) (points d))).

Definition demo_get_selected_region : M (option Dataset) :=
  get_selected_region demo_norm demo_ray_trace demo_kd_query demo_compute_normals
    (fun d => d) (fun _ _ _ d => d) (fun _ _ _ d => d) demo_connectivity (fun d => d).

(** The closed demo loop on a displayed mesh that already carries its
    normals, as after [start()]. *)
Definition demo_started : Tool :=
  with_heap (tool demo_closed_app) {[0%nat := demo_compute_normals demo_mesh]}.

(** What the displayed dataset carries under a point-data name. *)
Definition live_point_data (st : Tool) (name : string) : option data_array :=
  l ← target_dataset st; d ← heap st !! l; point_data d !! name.

(** One anchor on vertex 0 of the demo mesh, then an append at a point
    whose nearest vertex is again vertex 0. *)
Definition demo_single_app : App :=
  run (add_node_at (demo_point 0 0 0) (-1)) (mkApp demo_tool [] []).

Definition demo_reappended_app : App :=
  run (add_node_at (demo_point 0 0 1) (-1)) demo_single_app.

(** The closed demo loop, then an append at a point whose nearest vertex
    is the vertex of its last anchor. *)
Definition demo_closed_reappended_app : App :=
  run (add_node_at (demo_point 4 4 1) (-1)) demo_closed_app.

(** ** User gestures and the commands they issue *)

(** What the reversible commands read of the tool. *)
Definition core (st : Tool) : list actor * list Z * bool :=
  (nodes st, node_ids st, is_closed st).

(** What [OnLeftDown] records of the handle it picks. *)
Record Drag := mkDrag {
  active_node : actor;
  active_idx : nat;
  _drag_start_pos : point;
  _drag_start_pid : Z
}.

(** [OnLeftDown], first priority: [picked_node] is what [try_pick_node]
    returns, a handle of the store under the pointer or nothing. *)
Definition OnLeftDown_node (picked_node : option actor) (st : Tool) : res (option Drag) :=
  match picked_node with
  | None => Ok None
  | Some a =>
      match py_index a (nodes st) with
      | None => Ok None
      | Some idx =>
          match py_getitem (node_ids st) (Z.of_nat idx) with
          | Some pid => Ok (Some (mkDrag a idx (get_position st a) pid))
          | None => Raise IndexError
          end
      end
  end.

(** [drag_active_node_visual]; [hit_pos] is what [try_pick_mesh]
    returns. *)
Definition drag_active_node_visual (d : Drag) (hit_pos : option point) : M unit := fun st =>
  match hit_pos with
  | None => (Ok tt, st)
  | Some p =>
      match cur_mesh st with
      | None => (Raise AttributeError, st)
      | Some m =>
          let pid := find_closest_point m p in
          match py_getitem (points m) pid with
          | Some snapped_pos => (Ok tt, set_position st (active_node d) snapped_pos)
          | None => (Raise IndexError, st)
          end
      end
  end.

(** [OnMouseMove] while dragging, once per event. *)
Fixpoint mouse_moves (d : Drag) (hits : list (option point)) : M unit :=
  match hits with
  | [] => ret tt
  | h :: rest => drag_active_node_visual d h ;;; mouse_moves d rest
  end.

(** [OnLeftUp] while dragging. *)
Definition OnLeftUp (d : Drag) (app : App) : res unit * App :=
  let st := tool app in
  let final_pos := get_position st (active_node d) in
  match cur_mesh st with
  | None => (Raise AttributeError, app)
  | Some m =>
      let end_pid := find_closest_point m final_pos in
      let moved_app :=
        if negb (_drag_start_pid d =? end_pid) then
          CommandManager.execute
            (BezierCmdMove (active_node d) (_drag_start_pos d) final_pos
                           (_drag_start_pid d) end_pid) app
        else
          match py_getitem (points m) end_pid with
          | Some p => (Ok tt, mkApp (set_position st (active_node d) p)
                                    (undo_stack app) (redo_stack app))
          | None => (Raise IndexError, app)
          end in
      match moved_app with
      | (Ok _, app1) =>
          let (r, st') := update_curve (tool app1) in
          (r, mkApp st' (undo_stack app1) (redo_stack app1))
      | (Raise e, app1) => (Raise e, app1)
      end
  end.

(** A whole drag: button down on a handle, the pointer moves, button
    up. *)
Definition drag (picked_node : option actor) (hits : list (option point)) (app : App)
  : res unit * App :=
  match OnLeftDown_node picked_node (tool app) with
  | Raise e => (Raise e, app)
  | Ok None => (Ok tt, app)
  | Ok (Some d) =>
      match mouse_moves d hits (tool app) with
      | (Ok _, st') => OnLeftUp d (mkApp st' (undo_stack app) (redo_stack app))
      | (Raise e, st') => (Raise e, mkApp st' (undo_stack app) (redo_stack app))
      end
  end.

(** The entry points through which the user edits the curve:
    [add_node_at], [delete_node_cmd], a drag of a handle, [close_loop],
    and the wizard handing [clear_markup_cmd()] to the command manager. *)
Inductive gesture :=
| GAdd (world_pos : point) (insert_idx : Z)
| GDelete (a : actor)
| GDrag (picked_node : option actor) (hits : list (option point))
| GCloseLoop
| GClear.

Definition perform (g : gesture) (app : App) : res unit * App :=
  match g with
  | GAdd world_pos insert_idx => add_node_at world_pos insert_idx app
  | GDelete a => delete_node_cmd a app
  | GDrag picked_node hits => drag picked_node hits app
  | GCloseLoop => close_loop app
  | GClear => CommandManager.execute (clear_markup_cmd (tool app)) app
  end.

Fixpoint perform_all (gs : list gesture) (app : App) : App :=
  match gs with
  | [] => app
  | g :: rest => perform_all rest (run (perform g) app)
  end.

(** The gesture is an append that resolves to the vertex of the last
    anchor. *)
Definition resolves_to_last (g : gesture) (st : Tool) : bool :=
  match g, cur_mesh st with
  | GAdd world_pos insert_idx, Some m =>
      is_noop_append st (find_closest_point m world_pos) insert_idx
  | _, _ => false
  end.

(** No gesture of the sequence, performed from [app], is an append
    onto the vertex of the last anchor. *)
Fixpoint no_repeated_append (gs : list gesture) (app : App) : bool :=
  match gs with
  | [] => true
  | g :: rest => negb (resolves_to_last g (tool app)) &&
                 no_repeated_append rest (run (perform g) app)
  end.

Fixpoint undo_times (n : nat) (app : App) : App :=
  match n with
  | O => app
  | S k => undo_times k (run CommandManager.undo app)
  end.

(** The states a session reaches: well-formed, the loop invariant holds,
    every handle of the store has been created by the plotter, and the
    mesh has a vertex. *)
Definition session_inv (st : Tool) : Prop :=
  wf st /\ loop_inv st /\ Forall (fun a => (a < next_actor st)%nat) (nodes st) /\
  exists m, cur_mesh st = Some m /\ points m <> [].

(** Two tools the commands cannot tell apart. *)
Definition agree (st st' : Tool) : Prop :=
  core st' = core st /\ cur_mesh st' = cur_mesh st.

(** Undoing [c'] in any tool the commands cannot tell from [st1] leads
    to a tool they cannot tell from [st]. *)
Definition undoes (st : Tool) (c' : Command) (st1 : Tool) : Prop :=
  forall st1', agree st1 st1' ->
               exists st2, BezierCmd.undo c' st1' = (Ok tt, st2) /\ agree st st2.

(** The commands [cs], the latest first, undo their way from [st'] back
    to [st]. *)
Fixpoint chain (st : Tool) (cs : list Command) (st' : Tool) : Prop :=
  match cs with
  | [] => agree st st'
  | c :: rest => exists st_mid, chain st rest st_mid /\ undoes st_mid c st'
  end.

(** An editing session on the three open anchors: a fourth anchor, the
    loop closed, the second handle dragged onto the raised vertex, the
    first anchor deleted, the markup cleared. *)
Definition demo_session : list gesture :=
  [GAdd (demo_point 0 4 0) (-1); GCloseLoop;
   GDrag (Some 1%nat) [Some (demo_point 1 2 4)]; GDelete 0%nat; GClear].

(** ** Notions for the barrier of the region extractor *)

(** The vertex normal of [pid] does not strongly oppose the loop
    normal. *)
Definition facing (mesh_normals : list point) (normal : point) (pid : Z) : Prop :=
  pid < Z.of_nat (length mesh_normals) /\
  exists n, py_getitem mesh_normals pid = Some n /\ (- (1 # 5) < dot n normal)%Q.

(** Two vertices of one cell. *)
Definition adjacent (d : Dataset) (u v : Z) : Prop :=
  exists c, c ∈ cells d /\ u ∈ c /\ v ∈ c.

(** Each vertex of [path] shares a cell with the one before it, the
    first one with [u]. *)
Fixpoint walk (d : Dataset) (u : Z) (path : list Z) : Prop :=
  match path with
  | [] => True
  | v :: rest => adjacent d u v /\ walk d v rest
  end.

(** What the search from [src] for [e] keeps true: every queued vertex
    comes with a walk from [src] that ends at it, and a recorded result
    is a walk of at most 20 vertices whose end shares a cell with [e]. *)
Definition bfs_ok (d : Dataset) (src e : Z) (s : bfs_state) : Prop :=
  (forall cur path, (cur, path) ∈ bfs_q s ->
                    walk d src path /\ last (src :: path) = Some cur) /\
  (forall p, bfs_found s = Some p ->
             walk d src p /\ (length p <= 20)%nat /\
             exists cur, last (src :: p) = Some cur /\ adjacent d cur e).

(** The vertices the search can reach: the start and the vertices of
    the cells. *)
Definition bfs_universe (d : Dataset) (src : Z) : gset Z :=
  {[src]} ∪ list_to_set (concat (cells d)).

(** A strip of three triangles, vertex 0 at one end and 6 at the
    other. *)
Definition demo_strip : Dataset :=
  mkDataset PolyData
    [demo_point 0 0 0; demo_point 1 0 0; demo_point 0 1 0; demo_point 1 1 0;
     demo_point 0 2 0; demo_point 1 2 0; demo_point 0 3 0]
    [[0; 1; 2]; [2; 3; 4]; [4; 5; 6]] ∅.

(** ** The pointer and the keyboard *)

(** [OnLeftDown]: a handle of the store under the pointer starts a
    drag; otherwise a hit on the mesh adds an anchor, within the segment
    the hit is close to or at the end; otherwise the camera rotates.
    [picked_node] and [hit_pos] are what [try_pick_node] and
    [try_pick_mesh] return. *)
Definition OnLeftDown (picked_node : option actor) (hit_pos : option point) (app : App)
  : res (option Drag) * App :=
  match OnLeftDown_node picked_node (tool app) with
  | Raise e => (Raise e, app)
  | Ok (Some d) => (Ok (Some d), app)
  | Ok None =>
      match hit_pos with
      | Some p =>
          match _resolve_insertion_index p (tool app) with
          | (Ok insert_idx, st') =>
              match add_node_at p insert_idx (mkApp st' (undo_stack app) (redo_stack app)) with
              | (Ok _, app') => (Ok None, app')
              | (Raise e, app') => (Raise e, app')
              end
          | (Raise e, st') => (Raise e, mkApp st' (undo_stack app) (redo_stack app))
          end
      | None => (Ok None, app)
      end
  end.

(** [handle_key]; [active_node] is [self.active_node]. *)
Definition handle_key (key : string) (active_node : option actor) (app : App)
  : res bool * App :=
  if bool_decide (key ∈ ["Return"; "Enter"]) then
    match close_loop app with
    | (Ok _, app') => (Ok true, app')
    | (Raise e, app') => (Raise e, app')
    end
  else if bool_decide (key ∈ ["Delete"; "BackSpace"]) && negb (is_nil (nodes (tool app))) then
    let target := match active_node with
                  | Some a => Some a
                  | None => py_getitem (nodes (tool app)) (-1)
                  end in
    match target with
    | None => (Raise IndexError, app)
    | Some a =>
        match delete_node_cmd a app with
        | (Ok _, app') => (Ok true, app')
        | (Raise e, app') => (Raise e, app')
        end
    end
  else (Ok false, app).

(** The vertex ids after a click whose nearest vertex is [pid] and
    which resolved to segment [r], or to none ([r] is -1): an append
    onto the vertex of the last anchor adds nothing. *)
Definition ids_after_click (ids : list Z) (r : Z) (pid : Z) : list Z :=
  if r =? -1 then
    if bool_decide (last ids = Some pid) then ids else ids ++ [pid]
  else take (Z.to_nat (r + 1)) ids ++ pid :: drop (Z.to_nat (r + 1)) ids.

(** ** MultiCommand

    [MultiCommand] of [core/commands.py] over any kind of command:
    [cmd_execute] and [cmd_undo] are the [execute] and [undo] of the
    commands it holds, [State] is what they act on.  As for the marker
    commands, [execute] returns the command object as it is afterwards. *)
Module MultiCommand.
Section Commands.

Context {State Cmd : Type}.
Variable cmd_execute : Cmd -> State -> res Cmd * State.
Variable cmd_undo : Cmd -> State -> res unit * State.

(** [for cmd in self.commands: cmd.execute()] *)
Fixpoint execute (commands : list Cmd) (s : State) : res (list Cmd) * State :=
  match commands with
  | [] => (Ok [], s)
  | cmd :: rest =>
      match cmd_execute cmd s with
      | (Ok cmd', s1) =>
          match execute rest s1 with
          | (Ok rest', s2) => (Ok (cmd' :: rest'), s2)
          | (Raise e, s2) => (Raise e, s2)
          end
      | (Raise e, s1) => (Raise e, s1)
      end
  end.

Fixpoint undo_each (commands : list Cmd) (s : State) : res unit * State :=
  match commands with
  | [] => (Ok tt, s)
  | cmd :: rest =>
      match cmd_undo cmd s with
      | (Ok _, s1) => undo_each rest s1
      | (Raise e, s1) => (Raise e, s1)
      end
  end.

(** [for cmd in reversed(self.commands): cmd.undo()] *)
Definition undo (commands : list Cmd) (s : State) : res unit * State :=
  undo_each (reverse commands) s.

(** The states that [same] relates cannot be told apart by the
    commands.  Undoing [c'] in any state like [s1] succeeds and leads to
    a state like [s]. *)
Definition undone_by (same : State -> State -> Prop) (s : State) (c' : Cmd) (s1 : State) : Prop :=
  forall s1', same s1 s1' -> exists s2, cmd_undo c' s1' = (Ok tt, s2) /\ same s s2.

(** Run from [s], each command of the list executes and is undone by
    its [undo]. *)
Fixpoint each_undone (same : State -> State -> Prop) (commands : list Cmd) (s : State) : Prop :=
  match commands with
  | [] => True
  | cmd :: rest =>
      exists cmd' s1, cmd_execute cmd s = (Ok cmd', s1) /\
                      undone_by same s cmd' s1 /\ each_undone same rest s1
  end.

End Commands.
End MultiCommand.

(** The second anchor of the three open ones moved onto the raised
    vertex, as one command, and the store after it. *)
Definition demo_move : Command :=
  BezierCmdMove 1%nat (demo_point 4 0 0) (demo_point 1 2 4) 1
                (find_closest_point demo_mesh (demo_point 1 2 4)).

Definition demo_moved : Tool := snd (BezierCmd.execute demo_move (tool demo_open_app)).

(** ** The mesh-deleting commands of [core/commands.py]

    Of the application, what these commands read and write apart from
    the renderer, the selection and the hierarchy panel: the registry
    [app.actors] of the displayed meshes by name, and the marker tool of
    the maxilla wizard (absent when the wizard is) with the actor it
    works on. *)
Record Scene := mkScene {
  actors : gmap string actor;       (* app.actors *)
  bezier_tool : option Tool;        (* app.dental_wizard.maxilla_wizard.bezier_tool *)
  target_actor : option actor       (* bezier_tool.target_actor *)
}.

Module DeleteMeshCommand.

Record t := mk {
  name : string;
  actor_obj : actor
}.

(** [execute]: the marker tool that works on the deleted actor is
    reset and stopped, then the name leaves the registry. *)
Definition execute (c : t) (sc : Scene) : Scene :=
  let tool' :=
    match bezier_tool sc with
    | Some bt =>
        if bool_decide (target_actor sc = Some (actor_obj c))
        then Some (snd (_internal_hard_reset false bt))
        else Some bt
    | None => None
    end in
  mkScene (delete (name c) (actors sc)) tool' (target_actor sc).

Definition undo (c : t) (sc : Scene) : Scene :=
  mkScene (<[name c := actor_obj c]> (actors sc)) (bezier_tool sc) (target_actor sc).

End DeleteMeshCommand.

Module MultiDeleteCommand.

(** [execute]: the names still registered are deleted one by one, each
    through a [DeleteMeshCommand] that is kept for the undo; returns
    [self.sub_commands]. *)
Fixpoint execute_loop (names : list string) (sub_commands : list DeleteMeshCommand.t)
    (sc : Scene) : list DeleteMeshCommand.t * Scene :=
  match names with
  | [] => (sub_commands, sc)
  | name :: rest =>
      match actors sc !! name with
      | Some a =>
          let cmd := DeleteMeshCommand.mk name a in
          execute_loop rest (sub_commands ++ [cmd]) (DeleteMeshCommand.execute cmd sc)
      | None => execute_loop rest sub_commands sc
      end
  end.

Definition execute (names : list string) (sc : Scene) : list DeleteMeshCommand.t * Scene :=
  execute_loop names [] sc.

(** [for cmd in reversed(self.sub_commands): cmd.undo()] *)
Definition undo (sub_commands : list DeleteMeshCommand.t) (sc : Scene) : Scene :=
  foldl (fun sc cmd => DeleteMeshCommand.undo cmd sc) sc (reverse sub_commands).

End MultiDeleteCommand.

(** A marker tool without markup. *)
Definition cleared (bt : Tool) : Prop :=
  nodes bt = [] /\ node_ids bt = [] /\ is_closed bt = false /\ path_cache bt = ∅.





(** A scene with one mesh, on which the marker tool holds the closed
    demo loop. *)
Definition demo_scene : Scene :=
  mkScene {["jaw" := 7%nat]} (Some (tool demo_closed_app)) (Some 7%nat).

(** ** The curve and the vertices of the mesh *)

(** Every point of the polyline is a vertex of the mesh. *)
Definition on_mesh (m : Dataset) (pts : list point) : Prop :=
  Forall (fun v => v ∈ points m) pts.

(** Every polyline of the cache runs through vertices of the tool's
    mesh. *)
Definition cache_on_mesh (st : Tool) : Prop :=
  forall m key pts,
    cur_mesh st = Some m -> path_cache st !! key = Some pts -> on_mesh m pts.

(** * Properties *)

(** ** Python lists *)

Lemma py_norm_index_lt len i n :
  py_norm_index len i = Some n -> (n < len)%nat.
Proof.
  unfold py_norm_index.
  destruct ((0 <=? i) && (i <? Z.of_nat len)) eqn:E1.
  - apply andb_true_iff in E1 as [H1 H2]. intros [= <-]. lia.
  - destruct ((- Z.of_nat len <=? i) && (i <? 0)) eqn:E2; [|discriminate].
    apply andb_true_iff in E2 as [H1 H2]. intros [= <-]. lia.
Qed.

Lemma py_norm_index_nonneg len i :
  0 <= i < Z.of_nat len -> py_norm_index len i = Some (Z.to_nat i).
Proof.
  intros H. unfold py_norm_index.
  replace ((0 <=? i) && (i <? Z.of_nat len)) with true; [done|].
  symmetry. apply andb_true_iff. lia.
Qed.

Lemma py_getitem_nat {A} (l : list A) (i : nat) :
  (i < length l)%nat -> py_getitem l (Z.of_nat i) = l !! i.
Proof.
  intros H. unfold py_getitem. rewrite py_norm_index_nonneg by lia.
  simpl. by rewrite Nat2Z.id.
Qed.

Lemma py_getitem_is_Some {A} (l : list A) (i : Z) :
  0 <= i < Z.of_nat (length l) -> is_Some (py_getitem l i).
Proof.
  intros H. unfold py_getitem. rewrite py_norm_index_nonneg by lia. simpl.
  apply lookup_lt_is_Some. lia.
Qed.

Lemma py_getitem_Some {A} (l : list A) (i : Z) x :
  py_getitem l i = Some x ->
  exists n, py_norm_index (length l) i = Some n /\ l !! n = Some x.
Proof.
  unfold py_getitem. destruct (py_norm_index (length l) i) as [n|]; simpl; [|done].
  intros H. eauto.
Qed.

Lemma py_getitem_nonempty {A} (l : list A) (i : Z) x :
  py_getitem l i = Some x -> l <> [].
Proof.
  intros H ->. apply py_getitem_Some in H as (n & _ & H). done.
Qed.

Lemma py_index_lt a l i : py_index a l = Some i -> (i < length l)%nat.
Proof.
  revert i. induction l as [|y l IH]; intros i; simpl; [done|].
  case_decide; [intros [= <-]; lia|].
  destruct (py_index a l) as [k|]; simpl; [|done].
  intros [= <-]. specialize (IH k eq_refl). lia.
Qed.

Lemma py_index_lookup a l i : py_index a l = Some i -> l !! i = Some a.
Proof.
  revert i. induction l as [|y l IH]; intros i; simpl; [done|].
  case_decide; [intros [= <-]; by subst|].
  destruct (py_index a l) as [k|]; simpl; [|done].
  intros [= <-]. by apply IH.
Qed.

Lemma py_index_None a l : py_index a l = None <-> a ∉ l.
Proof.
  induction l as [|y l IH]; simpl.
  - split; [intros _; apply not_elem_of_nil | done].
  - case_decide.
    + subst. split; [done|]. intros H. exfalso. apply H. left.
    + destruct (py_index a l) as [k|]; simpl.
      * split; [done|]. intros H1. exfalso. apply H1. right.
        destruct (decide (a ∈ l)) as [|Hn]; [done|]. by apply IH in Hn.
      * split; [|done]. intros _ Hin. apply elem_of_cons in Hin as [->|Hin]; [done|].
        by apply IH in Hin.
Qed.

Lemma py_index_app_fresh a l : a ∉ l -> py_index a (l ++ [a]) = Some (length l).
Proof.
  induction l as [|y l IH]; simpl; intros Hn.
  - by rewrite decide_True.
  - apply not_elem_of_cons in Hn as [Hne Hn].
    rewrite decide_False by done. by rewrite IH.
Qed.

Lemma py_index_insert_fresh a l j :
  a ∉ l -> (j <= length l)%nat -> py_index a (take j l ++ a :: drop j l) = Some j.
Proof.
  revert j. induction l as [|y l IH]; intros j Hn Hj; simpl in *.
  - assert (j = 0%nat) as -> by lia. simpl. by rewrite decide_True.
  - apply not_elem_of_cons in Hn as [Hne Hn]. destruct j as [|j]; simpl.
    + by rewrite decide_True.
    + rewrite decide_False by done. rewrite IH by (done || lia). done.
Qed.

Lemma delete_inserted {A} (l : list A) j x :
  (j <= length l)%nat -> delete j (take j l ++ x :: drop j l) = l.
Proof.
  revert j. induction l as [|y l IH]; intros j Hj; simpl in *.
  - assert (j = 0%nat) as -> by lia. done.
  - destruct j as [|j]; simpl; [done|]. f_equal. apply IH. lia.
Qed.

Lemma py_insert_clamp {A} (l : list A) i x :
  py_insert l i x = take (clamp_index (length l) i) l ++ x :: drop (clamp_index (length l) i) l.
Proof. done. Qed.

Lemma clamp_index_le len i : (clamp_index len i <= len)%nat.
Proof. unfold clamp_index. destruct (i <? 0) eqn:E; lia. Qed.

Lemma py_insert_length {A} (l : list A) i x : length (py_insert l i x) = S (length l).
Proof.
  rewrite py_insert_clamp. pose proof (clamp_index_le (length l) i).
  rewrite length_app. simpl. rewrite length_take, length_drop. lia.
Qed.

Lemma py_pop_insert {A} (l : list A) i x :
  py_pop (py_insert l i x) (clamp_index (length l) i) = Some l.
Proof.
  unfold py_pop. pose proof (clamp_index_le (length l) i).
  rewrite decide_True by (rewrite py_insert_length; lia).
  rewrite py_insert_clamp. by rewrite delete_inserted.
Qed.

Lemma take_drop_delete {A} (l : list A) (j : nat) x :
  l !! j = Some x -> take j (delete j l) ++ x :: drop j (delete j l) = l.
Proof.
  revert j. induction l as [|y l IH]; intros j H; [done|].
  destruct j as [|j]; simpl in *.
  - injection H as ->. by rewrite drop_0.
  - f_equal. by apply IH.
Qed.

Lemma py_insert_nat_delete {A} (l : list A) (j : nat) x :
  l !! j = Some x -> py_insert (delete j l) (Z.of_nat j) x = l.
Proof.
  intros H. pose proof (lookup_lt_Some _ _ _ H) as Hlt.
  unfold py_insert. rewrite length_delete by eauto.
  replace (Z.of_nat j <? 0) with false by (symmetry; apply Z.ltb_ge; lia).
  replace (Z.to_nat (Z.min (Z.of_nat j) (Z.of_nat (length l - 1)))) with j by lia.
  by apply take_drop_delete.
Qed.

Lemma length_delete_same {A B} (l1 : list A) (l2 : list B) i :
  length l1 = length l2 -> length (delete i l1) = length (delete i l2).
Proof.
  intros H. rewrite !delete_take_drop, !length_app, !length_take, !length_drop. lia.
Qed.

(** ** Keys *)


(** ** Rational arithmetic on vectors *)

Lemma Qltb_lt x y : Qltb x y = true <-> (x < y)%Q.
Proof.
  unfold Qltb. rewrite negb_true_iff. split.
  - intros H. apply Qnot_le_lt. intros Hle. apply Qle_bool_iff in Hle. congruence.
  - intros H. destruct (Qle_bool y x) eqn:E; [|done].
    apply Qle_bool_iff in E. exfalso. apply (Qlt_not_le _ _ H E).
Qed.

Lemma Qltb_ge x y : Qltb x y = false <-> (y <= x)%Q.
Proof.
  unfold Qltb. rewrite negb_false_iff. apply Qle_bool_iff.
Qed.







Lemma peq_refl a : peq a a.
Proof. unfold peq. repeat split; reflexivity. Qed.



(** ** The nearest vertex *)

Lemma nearest_from_spec p pre r best vb :
  pre !! Z.to_nat best = Some vb -> 0 <= best ->
  (forall w, w ∈ pre -> (dist_sq p vb <= dist_sq p w)%Q) ->
  let k := nearest_from p r (Z.of_nat (length pre)) best (dist_sq p vb) in
  0 <= k /\ exists v, (pre ++ r) !! Z.to_nat k = Some v /\
    forall w, w ∈ pre ++ r -> (dist_sq p v <= dist_sq p w)%Q.
Proof.
  revert pre best vb. induction r as [|v r IH]; intros pre best vb Hb Hb0 Hmin; simpl.
  - split; [done|]. exists vb. rewrite app_nil_r. done.
  - destruct (Qltb (dist_sq p v) (dist_sq p vb)) eqn:E.
    + apply Qltb_lt in E.
      specialize (IH (pre ++ [v]) (Z.of_nat (length pre)) v).
      rewrite length_app in IH. simpl in IH.
      replace (Z.of_nat (length pre + 1)) with (Z.of_nat (length pre) + 1) in IH by lia.
      rewrite <- app_assoc in IH. simpl in IH. apply IH.
      * rewrite Nat2Z.id. rewrite lookup_app_r by lia.
        by rewrite Nat.sub_diag.
      * lia.
      * intros w Hw. apply elem_of_app in Hw as [Hw|Hw].
        -- apply Hmin in Hw. lra.
        -- apply list_elem_of_singleton in Hw as ->. apply Qle_refl.
    + apply Qltb_ge in E.
      specialize (IH (pre ++ [v]) best vb).
      rewrite length_app in IH. simpl in IH.
      replace (Z.of_nat (length pre + 1)) with (Z.of_nat (length pre) + 1) in IH by lia.
      rewrite <- app_assoc in IH. simpl in IH. apply IH.
      * apply lookup_app_l_Some. done.
      * done.
      * intros w Hw. apply elem_of_app in Hw as [Hw|Hw]; [by apply Hmin|].
        apply list_elem_of_singleton in Hw as ->. done.
Qed.

Lemma closest_point_id_spec pts p :
  pts <> [] ->
  0 <= closest_point_id pts p /\
  exists v, pts !! Z.to_nat (closest_point_id pts p) = Some v /\
    forall w, w ∈ pts -> (dist_sq p v <= dist_sq p w)%Q.
Proof.
  destruct pts as [|v r]; [done|]. intros _. unfold closest_point_id.
  apply (nearest_from_spec p [v] r 0 v); [done|lia|].
  intros w Hw. apply list_elem_of_singleton in Hw as ->. apply Qle_refl.
Qed.

Lemma closest_point_getitem pts p :
  pts <> [] ->
  exists v, py_getitem pts (closest_point_id pts p) = Some v /\
    forall w, w ∈ pts -> (dist_sq p v <= dist_sq p w)%Q.
Proof.
  intros Hne. destruct (closest_point_id_spec pts p Hne) as (H0 & v & Hv & Hmin).
  exists v. split; [|done].
  pose proof (lookup_lt_Some _ _ _ Hv) as Hlt.
  unfold py_getitem. rewrite py_norm_index_nonneg by lia. done.
Qed.


Lemma np_take_snap pts interp :
  pts <> [] ->
  exists snapped, np_take pts (snap_ids pts interp) = Some snapped /\
    Forall2 (fun q v => py_getitem pts (closest_point_id pts q) = Some v) interp snapped.
Proof.
  intros Hne. unfold np_take, snap_ids. induction interp as [|q interp IH].
  - exists []. split; [done|constructor].
  - destruct IH as (sn & Hsn & HF).
    destruct (closest_point_getitem pts q Hne) as (v & Hv & _).
    exists (v :: sn). split.
    + simpl. rewrite Hv. simpl. simpl in Hsn. rewrite Hsn. done.
    + by constructor.
Qed.

(** ** The segment cache *)

Lemma with_path_cache_id st : with_path_cache st (path_cache st) = st.
Proof. by destruct st. Qed.

Lemma wf_with_path_cache st c : wf (with_path_cache st c) <-> wf st.
Proof. done. Qed.

Lemma cache_grown_refl st : cache_grown st st.
Proof. exists (path_cache st). by rewrite with_path_cache_id. Qed.

Lemma cache_grown_trans st1 st2 st3 :
  cache_grown st1 st2 -> cache_grown st2 st3 -> cache_grown st1 st3.
Proof.
  intros (c2 & -> & H2) (c3 & -> & H3). exists c3. split; [done|].
  simpl in H3. by etransitivity.
Qed.

Lemma cache_grown_fields st st' :
  cache_grown st st' ->
  nodes st' = nodes st /\ node_ids st' = node_ids st /\ is_closed st' = is_closed st /\
  cur_mesh st' = cur_mesh st /\ heap st' = heap st /\ mesh st' = mesh st /\
  node_radius st' = node_radius st /\ next_actor st' = next_actor st /\
  target_dataset st' = target_dataset st /\ handle_pos st' = handle_pos st.
Proof. intros (c & -> & _). done. Qed.

Lemma get_segment_hit st i j pid_a pid_b pts :
  py_getitem (node_ids st) i = Some pid_a ->
  py_getitem (node_ids st) j = Some pid_b ->
  path_cache st !! sorted_key pid_a pid_b = Some pts ->
  _get_segment_points i j st = (Ok pts, st).
Proof. intros Ha Hb Hc. unfold _get_segment_points. by rewrite Ha, Hb, Hc. Qed.

Lemma get_segment_miss st i j pid_a pid_b m p_a p_b :
  py_getitem (node_ids st) i = Some pid_a ->
  py_getitem (node_ids st) j = Some pid_b ->
  path_cache st !! sorted_key pid_a pid_b = None ->
  cur_mesh st = Some m ->
  py_getitem (points m) pid_a = Some p_a ->
  py_getitem (points m) pid_b = Some p_b ->
  exists snapped,
    _get_segment_points i j st =
      (Ok snapped,
       with_path_cache st (<[sorted_key pid_a pid_b := snapped]> (path_cache st))) /\
    Forall2 (fun q v => py_getitem (points m) (closest_point_id (points m) q) = Some v)
            (interpolate p_a p_b) snapped.
Proof.
  intros Ha Hb Hc Hm Hpa Hpb.
  destruct (np_take_snap (points m) (interpolate p_a p_b)
              (py_getitem_nonempty _ _ _ Hpa)) as (sn & Hsn & HF).
  exists sn. split; [|done].
  unfold _get_segment_points. by rewrite Ha, Hb, Hc, Hm, Hpa, Hpb, Hsn.
Qed.

Lemma get_segment_frame st i j r st' :
  _get_segment_points i j st = (r, st') -> cache_grown st st'.
Proof.
  unfold _get_segment_points.
  destruct (py_getitem (node_ids st) i) as [pid_a|];
    [|intros [= <- <-]; apply cache_grown_refl].
  destruct (py_getitem (node_ids st) j) as [pid_b|];
    [|intros [= <- <-]; apply cache_grown_refl].
  destruct (path_cache st !! sorted_key pid_a pid_b) eqn:Hc;
    [intros [= <- <-]; apply cache_grown_refl|].
  destruct (cur_mesh st) as [m|]; [|intros [= <- <-]; apply cache_grown_refl].
  destruct (py_getitem (points m) pid_a) as [p_a|];
    [|intros [= <- <-]; apply cache_grown_refl].
  destruct (py_getitem (points m) pid_b) as [p_b|];
    [|intros [= <- <-]; apply cache_grown_refl].
  destruct (np_take _ _) as [sn|]; [|intros [= <- <-]; apply cache_grown_refl].
  intros [= <- <-]. eexists. split; [done|]. by apply insert_subseteq.
Qed.

(** Which keys a call may add. *)
Lemma get_segment_keys st i j r st' k :
  _get_segment_points i j st = (r, st') ->
  is_Some (path_cache st' !! k) ->
  is_Some (path_cache st !! k) \/
  exists pid_a pid_b, py_getitem (node_ids st) i = Some pid_a /\
                      py_getitem (node_ids st) j = Some pid_b /\
                      k = sorted_key pid_a pid_b.
Proof.
  unfold _get_segment_points.
  destruct (py_getitem (node_ids st) i) as [pid_a|]; [|intros [= <- <-]; by left].
  destruct (py_getitem (node_ids st) j) as [pid_b|]; [|intros [= <- <-]; by left].
  destruct (path_cache st !! sorted_key pid_a pid_b) eqn:Hc; [intros [= <- <-]; by left|].
  destruct (cur_mesh st) as [m|]; [|intros [= <- <-]; by left].
  destruct (py_getitem (points m) pid_a) as [p_a|]; [|intros [= <- <-]; by left].
  destruct (py_getitem (points m) pid_b) as [p_b|]; [|intros [= <- <-]; by left].
  destruct (np_take _ _) as [sn|]; [|intros [= <- <-]; by left].
  intros [= <- <-]. simpl. intros Hk.
  destruct (decide (sorted_key pid_a pid_b = k)) as [<-|Hne].
  - right. eauto.
  - left. by rewrite lookup_insert_ne in Hk.
Qed.

Lemma get_segment_ok st i j :
  wf st ->
  0 <= i < Z.of_nat (length (nodes st)) -> 0 <= j < Z.of_nat (length (nodes st)) ->
  exists pts st', _get_segment_points i j st = (Ok pts, st') /\ cache_grown st st'.
Proof.
  intros (Hlen & m & Hm & Hall) Hi Hj. rewrite Hlen in Hi, Hj.
  destruct (py_getitem_is_Some (node_ids st) i Hi) as [pid_a Ha].
  destruct (py_getitem_is_Some (node_ids st) j Hj) as [pid_b Hb].
  assert (Hin : forall pid k, py_getitem (node_ids st) k = Some pid ->
                              is_Some (py_getitem (points m) pid)).
  { intros pid k Hk. apply py_getitem_Some in Hk as (n & _ & Hn).
    rewrite Forall_forall in Hall. apply Hall. eapply list_elem_of_lookup_2. eauto. }
  destruct (Hin _ _ Ha) as [p_a Hpa]. destruct (Hin _ _ Hb) as [p_b Hpb].
  destruct (path_cache st !! sorted_key pid_a pid_b) as [pts|] eqn:Hc.
  - exists pts, st. split; [by eapply get_segment_hit|apply cache_grown_refl].
  - destruct (get_segment_miss st i j _ _ _ _ _ Ha Hb Hc Hm Hpa Hpb) as (sn & Heq & _).
    eexists _, _. split; [exact Heq|]. eapply get_segment_frame. exact Heq.
Qed.

Lemma wf_cache_grown st st' : cache_grown st st' -> wf st -> wf st'.
Proof. intros (c & -> & _). done. Qed.

(** ** The path of the whole curve *)

Lemma full_path_loop_frame count rng full st r st' :
  full_path_loop count rng full st = (r, st') -> cache_grown st st'.
Proof.
  revert full st. induction rng as [|i rng IH]; intros full st; simpl.
  - intros [= <- <-]. apply cache_grown_refl.
  - unfold bind.
    destruct (_get_segment_points _ _ st) as [[pts|e] st1] eqn:E1.
    + intros H. apply IH in H. eapply cache_grown_trans; [|exact H].
      eapply get_segment_frame. exact E1.
    + intros [= <- <-]. eapply get_segment_frame. exact E1.
Qed.

Lemma mod_range i count : 0 < count -> 0 <= (i + 1) mod count < count.
Proof. intros. apply Z.mod_pos_bound. lia. Qed.

Lemma full_path_loop_ok rng full st :
  wf st -> Forall (fun i => (i < length (nodes st))%nat) rng ->
  exists full' st', full_path_loop (Z.of_nat (length (nodes st))) rng full st = (Ok full', st')
                    /\ cache_grown st st'.
Proof.
  revert full st. induction rng as [|i rng IH]; intros full st Hwf Hall; simpl.
  - eexists _, _. split; [done|apply cache_grown_refl].
  - apply Forall_cons in Hall as [Hi Hall]. unfold bind.
    destruct (get_segment_ok st (Z.of_nat i)
                ((Z.of_nat i + 1) mod Z.of_nat (length (nodes st))) Hwf)
      as (pts & st1 & E1 & G1); [lia|apply mod_range; lia|].
    rewrite E1.
    destruct (cache_grown_fields _ _ G1) as (Hn & _).
    rewrite <- Hn.
    destruct (IH (full ++ [match full with [] => pts | _ => drop 1 pts end]) st1)
      as (full' & st' & E2 & G2).
    { by eapply wf_cache_grown. }
    { by rewrite Hn. }
    eexists _, _. split; [exact E2|]. by eapply cache_grown_trans.
Qed.

Lemma segment_range_lt st :
  Forall (fun i => (i < length (nodes st))%nat) (segment_range st).
Proof.
  unfold segment_range. apply Forall_forall. intros i Hi.
  apply elem_of_seq in Hi. destruct (is_closed st); lia.
Qed.

Lemma get_full_path_frame st r st' :
  _get_full_path_points st = (r, st') -> cache_grown st st'.
Proof.
  unfold _get_full_path_points.
  destruct (length (nodes st) <? 2)%nat; [intros [= <- <-]; apply cache_grown_refl|].
  unfold bind.
  destruct (full_path_loop _ _ _ st) as [[full|e] st1] eqn:E.
  - intros [= <- <-]. by eapply full_path_loop_frame.
  - intros [= <- <-]. by eapply full_path_loop_frame.
Qed.

Lemma get_full_path_ok st :
  wf st -> exists pts st', _get_full_path_points st = (Ok pts, st') /\ cache_grown st st'.
Proof.
  intros Hwf. unfold _get_full_path_points.
  destruct (length (nodes st) <? 2)%nat.
  - eexists _, _. split; [done|apply cache_grown_refl].
  - destruct (full_path_loop_ok (segment_range st) [] st Hwf (segment_range_lt st))
      as (full & st' & E & G).
    unfold bind. rewrite E. eexists _, _. split; [done|exact G].
Qed.

Lemma update_curve_frame st r st' :
  update_curve st = (r, st') -> cache_grown st st'.
Proof.
  unfold update_curve, bind.
  destruct (_get_full_path_points st) as [[pts|e] st1] eqn:E; intros [= <- <-];
    by eapply get_full_path_frame.
Qed.

Lemma update_curve_ok st :
  wf st -> exists st', update_curve st = (Ok tt, st') /\ cache_grown st st'.
Proof.
  intros Hwf. destruct (get_full_path_ok st Hwf) as (pts & st' & E & G).
  exists st'. unfold update_curve, bind. rewrite E. done.
Qed.

(** Every key the recomputation adds is the key of a segment of the
    curve. *)
Lemma full_path_loop_keys count rng full st r st' k :
  count = Z.of_nat (length (nodes st)) ->
  full_path_loop count rng full st = (r, st') ->
  is_Some (path_cache st' !! k) ->
  is_Some (path_cache st !! k) \/ exists i, i ∈ rng /\ segment_key st i = Some k.
Proof.
  intros ->. revert full st. induction rng as [|i rng IH]; intros full st; simpl.
  - intros [= <- <-]. by left.
  - unfold bind.
    destruct (_get_segment_points _ _ st) as [[pts|e] st1] eqn:E1.
    + intros H Hk.
      pose proof (get_segment_frame _ _ _ _ _ E1) as G1.
      destruct (cache_grown_fields _ _ G1) as (Hn & Hids & _).
      rewrite <- Hn in H.
      destruct (IH _ _ H Hk) as [Hk1|(i' & Hi' & Hkey)].
      * destruct (get_segment_keys _ _ _ _ _ k E1 Hk1) as [?|(a & b & Ha & Hb & ->)];
          [by left|].
        right. exists i. split; [left|]. unfold segment_key. by rewrite Ha, Hb.
      * right. exists i'. split; [by right|].
        unfold segment_key in *. by rewrite Hids, Hn in Hkey.
    + intros [= <- <-] Hk.
      destruct (get_segment_keys _ _ _ _ _ k E1 Hk) as [?|(a & b & Ha & Hb & ->)];
        [by left|].
      right. exists i. split; [left|]. unfold segment_key. by rewrite Ha, Hb.
Qed.

Lemma update_curve_keys st r st' k :
  update_curve st = (r, st') ->
  is_Some (path_cache st' !! k) ->
  is_Some (path_cache st !! k) \/
  exists i, i ∈ segment_range st /\ segment_key st i = Some k.
Proof.
  unfold update_curve, bind, _get_full_path_points.
  destruct (length (nodes st) <? 2)%nat; [intros [= <- <-]; by left|].
  unfold bind.
  destruct (full_path_loop _ _ _ st) as [[full|e] st1] eqn:E; intros [= <- <-];
    by eapply full_path_loop_keys.
Qed.

(** ** The internal operations, step by step *)

Lemma add_node_noop st m pos a :
  cur_mesh st = Some m ->
  last (node_ids st) = Some (find_closest_point m pos) ->
  last (nodes st) = Some a ->
  _internal_add_node pos (-1) st = (Ok (a, find_closest_point m pos), st).
Proof.
  intros Hm Hl Ha. unfold _internal_add_node. rewrite Hm.
  rewrite (bool_decide_eq_true_2 _ Hl).
  destruct (node_ids st) as [|x l]; [done|]. simpl is_nil. simpl negb.
  change (-1 =? -1) with true. simpl andb. cbv iota. by rewrite Ha, Hl.
Qed.

Lemma add_node_new st m pos idx p :
  cur_mesh st = Some m ->
  py_getitem (points m) (find_closest_point m pos) = Some p ->
  is_noop_append st (find_closest_point m pos) idx = false ->
  _internal_add_node pos idx st =
    (update_curve ;;; ret (next_actor st, find_closest_point m pos))
      (inserted st p (find_closest_point m pos) idx).
Proof.
  intros Hm Hp Hc. unfold _internal_add_node. rewrite Hm.
  unfold is_noop_append in Hc. rewrite Hc. rewrite Hp. done.
Qed.

Lemma Forall_py_insert {A} (P : A -> Prop) l i x :
  Forall P l -> P x -> Forall P (py_insert l i x).
Proof.
  intros Hl Hx. rewrite py_insert_clamp. apply Forall_app. split.
  - by apply Forall_take.
  - constructor; [done|]. by apply Forall_drop.
Qed.

Lemma closest_in_mesh m pos :
  points m <> [] -> is_Some (py_getitem (points m) (find_closest_point m pos)).
Proof.
  intros Hne. destruct (closest_point_getitem (points m) pos Hne) as (v & Hv & _). eauto.
Qed.

Lemma wf_inserted st m p pid idx :
  wf st -> cur_mesh st = Some m -> py_getitem (points m) pid = Some p ->
  wf (inserted st p pid idx).
Proof.
  intros (Hlen & m' & Hm' & Hall) Hm Hp. rewrite Hm in Hm'. injection Hm' as <-.
  unfold inserted. destruct (negb (idx =? -1)); split; simpl.
  - rewrite !py_insert_length. lia.
  - exists m. split; [done|]. apply Forall_py_insert; eauto.
  - rewrite !length_app. simpl. lia.
  - exists m. split; [done|]. apply Forall_app. split; [done|]. constructor; eauto.
Qed.

Lemma add_node_new_ok st m pos idx p :
  wf st -> cur_mesh st = Some m ->
  py_getitem (points m) (find_closest_point m pos) = Some p ->
  is_noop_append st (find_closest_point m pos) idx = false ->
  exists st', _internal_add_node pos idx st =
                (Ok (next_actor st, find_closest_point m pos), st') /\
              cache_grown (inserted st p (find_closest_point m pos) idx) st'.
Proof.
  intros Hwf Hm Hp Hc. rewrite (add_node_new st m pos idx p) by done.
  destruct (update_curve_ok (inserted st p (find_closest_point m pos) idx))
    as (st' & E & G); [by eapply wf_inserted|].
  exists st'. unfold bind. rewrite E. done.
Qed.

(** ** Extraction needs a closed loop of three anchors *)

Section Extraction.

Variable norm : point -> Q.
Variable ray_trace : Dataset -> point -> point -> option (list point).
Variable kd_query : list point -> list point -> nat -> option (list (list Z)).
Variable compute_normals : Dataset -> Dataset.
Variable extract_surface : Dataset -> Dataset.
Variable threshold_value : Q -> string -> bool -> Dataset -> Dataset.
Variable threshold_range : Q -> Q -> string -> Dataset -> Dataset.
Variable connectivity : Dataset -> Dataset.
Variable clean : Dataset -> Dataset.

(** C3. On a loop that is not closed, [get_selected_region] returns
    [None] and leaves the tool exactly as it was: the same anchors,
    vertex ids, closed flag and cached paths. *)
Theorem extraction_declined_on_open_loop (st : Tool) :
  is_closed st = false ->
  get_selected_region norm ray_trace kd_query compute_normals extract_surface
    threshold_value threshold_range connectivity clean st = (Ok None, st).
Proof.
  intros H. unfold get_selected_region. by rewrite H.
Qed.

End Extraction.

Lemma extraction_declined_on_open_loop_witness :
  is_closed demo_pair = false /\
  demo_get_selected_region demo_pair = (Ok None, demo_pair).
Proof.
  assert (H : is_closed demo_pair = false) by (vm_compute; reflexivity).
  split; [exact H|].
  exact (extraction_declined_on_open_loop demo_norm demo_ray_trace demo_kd_query
           demo_compute_normals (fun d => d) (fun _ _ _ d => d) (fun _ _ _ d => d)
           demo_connectivity (fun d => d) demo_pair H).
Defined.

(** ** Adding an anchor *)

(** C4. With the last anchor on vertex [pid], an append at a position
    whose nearest vertex is [pid] returns the existing last anchor and
    changes nothing; and of two consecutive appends resolving to the same
    vertex the second one returns the anchor of the first and changes
    nothing, so that at most one anchor is appended, and exactly one when
    the store did not already end on that vertex. *)
Theorem idempotent_append (st : Tool) (m : Dataset) (pos pos' : point) :
  wf st -> cur_mesh st = Some m -> points m <> [] ->
  find_closest_point m pos' = find_closest_point m pos ->
  let pid := find_closest_point m pos in
  (last (node_ids st) = Some pid ->
     exists a, last (nodes st) = Some a /\
               _internal_add_node pos (-1) st = (Ok (a, pid), st)) /\
  (exists a st1,
     _internal_add_node pos (-1) st = (Ok (a, pid), st1) /\
     _internal_add_node pos' (-1) st1 = (Ok (a, pid), st1) /\
     last (nodes st1) = Some a /\ last (node_ids st1) = Some pid /\
     (last (node_ids st) <> Some pid ->
        nodes st1 = nodes st ++ [a] /\ node_ids st1 = node_ids st ++ [pid])).
Proof.
  intros Hwf Hm Hne Hsame pid.
  assert (Hnoop : last (node_ids st) = Some pid ->
            exists a, last (nodes st) = Some a /\
                      _internal_add_node pos (-1) st = (Ok (a, pid), st)).
  { intros Hl. destruct Hwf as (Hlen & _).
    destruct (last (nodes st)) as [a|] eqn:Ha.
    - exists a. split; [done|]. by apply add_node_noop.
    - apply last_None in Ha. rewrite Ha in Hlen. simpl in Hlen.
      destruct (node_ids st); [done|simpl in Hlen; lia]. }
  split; [exact Hnoop|].
  destruct (decide (last (node_ids st) = Some pid)) as [Hl|Hl].
  - destruct (Hnoop Hl) as (a & Ha & E). exists a, st. split; [exact E|].
    split; [|done]. unfold pid. rewrite <- Hsame. apply add_node_noop; [done| |done].
    by rewrite Hsame.
  - destruct (closest_in_mesh m pos Hne) as [p Hp].
    assert (Hc : is_noop_append st pid (-1) = false).
    { unfold is_noop_append. rewrite (bool_decide_eq_false_2 _ Hl).
      by rewrite andb_false_r. }
    destruct (add_node_new_ok st m pos (-1) p Hwf Hm Hp Hc) as (st1 & E & G).
    destruct (cache_grown_fields _ _ G) as (Hn & Hids & _ & Hcm & _).
    change (nodes (inserted st p (find_closest_point m pos) (-1)))
      with (nodes st ++ [next_actor st]) in Hn.
    change (node_ids (inserted st p (find_closest_point m pos) (-1)))
      with (node_ids st ++ [pid]) in Hids.
    change (cur_mesh (inserted st p (find_closest_point m pos) (-1)))
      with (cur_mesh st) in Hcm.
    exists (next_actor st), st1. split; [exact E|].
    assert (Hla : last (nodes st1) = Some (next_actor st)) by (rewrite Hn; apply last_snoc).
    assert (Hlp : last (node_ids st1) = Some pid) by (rewrite Hids; apply last_snoc).
    split; [|done].
    unfold pid. rewrite <- Hsame. apply add_node_noop; [by rewrite Hcm| |done].
    by rewrite Hsame.
Qed.

Lemma wf_demo_tool : wf demo_tool.
Proof. split; [done|]. exists demo_mesh. split; [done|constructor]. Qed.

Lemma idempotent_append_witness :
  exists a st1,
    _internal_add_node (demo_point 4 0 0) (-1) demo_tool = (Ok (a, 1), st1) /\
    _internal_add_node (demo_point 4 0 1) (-1) st1 = (Ok (a, 1), st1).
Proof.
  destruct (idempotent_append demo_tool demo_mesh (demo_point 4 0 0) (demo_point 4 0 1))
    as (_ & a & st1 & E1 & E2 & _).
  - exact wf_demo_tool.
  - reflexivity.
  - discriminate.
  - reflexivity.
  - exists a, st1. split; [exact E1|exact E2].
Defined.

Lemma except_ValueError_inv body st r st' :
  except_ValueError body st = (r, st') -> exists r0, body st = (r0, st').
Proof.
  unfold except_ValueError. destruct (body st) as [[u|e] s]; [intros [= <- <-]; eauto|].
  destruct e; intros [= <- <-]; eauto.
Qed.

Lemma except_ValueError_ok body st st' :
  body st = (Ok tt, st') -> except_ValueError body st = (Ok tt, st').
Proof. intros H. unfold except_ValueError. by rewrite H. Qed.

Lemma remove_node_absent st a :
  py_index a (nodes st) = None -> _internal_remove_node_by_actor a st = (Ok tt, st).
Proof. intros H. unfold _internal_remove_node_by_actor, except_ValueError. by rewrite H. Qed.

Lemma remove_node_present st a idx :
  py_index a (nodes st) = Some idx -> (idx < length (node_ids st))%nat ->
  _internal_remove_node_by_actor a st = except_ValueError update_curve (removed st idx).
Proof.
  intros H Hlt. unfold _internal_remove_node_by_actor, except_ValueError. rewrite H.
  simpl. unfold py_pop. rewrite decide_True by done. done.
Qed.

Lemma remove_node_frame st a idx r st' :
  py_index a (nodes st) = Some idx -> (idx < length (node_ids st))%nat ->
  _internal_remove_node_by_actor a st = (r, st') -> cache_grown (removed st idx) st'.
Proof.
  intros H Hlt. rewrite (remove_node_present st a idx H Hlt). intros E.
  apply except_ValueError_inv in E as (r0 & E). by eapply update_curve_frame.
Qed.

Lemma wf_removed st idx : wf st -> wf (removed st idx).
Proof.
  intros (Hlen & m & Hm & Hall).
  assert (Hd : length (delete idx (nodes st)) = length (delete idx (node_ids st)))
    by (by apply length_delete_same).
  unfold removed. simpl.
  destruct (length (delete idx (nodes st)) <? 3)%nat; (split; [exact Hd|]);
    exists m; (split; [done|]); simpl; by apply Forall_delete.
Qed.

Lemma remove_node_ok st a idx :
  wf st -> py_index a (nodes st) = Some idx ->
  exists st', _internal_remove_node_by_actor a st = (Ok tt, st') /\
              cache_grown (removed st idx) st'.
Proof.
  intros Hwf H. pose proof (py_index_lt _ _ _ H) as Hlt.
  assert (Hlt' : (idx < length (node_ids st))%nat) by (destruct Hwf as [<- _]; done).
  rewrite (remove_node_present st a idx H Hlt').
  destruct (update_curve_ok (removed st idx) (wf_removed st idx Hwf)) as (st' & E & G).
  exists st'. split; [by apply except_ValueError_ok|done].
Qed.

Lemma restore_node_eq st a pid idx was_closed :
  _internal_restore_node a pid idx was_closed st =
  update_curve (restored st a pid idx was_closed).
Proof. done. Qed.

Lemma update_node_pos_absent st a pos pid :
  py_index a (nodes st) = None ->
  _internal_update_node_pos a pos pid st = (Ok tt, set_position st a pos).
Proof.
  intros H. unfold _internal_update_node_pos, except_all. simpl. by rewrite H.
Qed.

Lemma update_node_pos_present st a pos pid idx :
  py_index a (nodes st) = Some idx -> (idx < length (node_ids st))%nat ->
  _internal_update_node_pos a pos pid st =
  (Ok tt, snd (update_curve (moved st a pos idx pid))).
Proof.
  intros H Hlt. unfold _internal_update_node_pos, except_all. simpl. rewrite H.
  unfold py_setitem. simpl. rewrite py_norm_index_nonneg by lia. simpl.
  by rewrite Nat2Z.id.
Qed.

Lemma update_node_pos_frame st a pos pid idx :
  py_index a (nodes st) = Some idx -> (idx < length (node_ids st))%nat ->
  cache_grown (moved st a pos idx pid) (snd (_internal_update_node_pos a pos pid st)).
Proof.
  intros H Hlt. rewrite (update_node_pos_present st a pos pid idx H Hlt). simpl.
  destruct (update_curve (moved st a pos idx pid)) as [r st'] eqn:E.
  by eapply update_curve_frame.
Qed.

(** ** Closing the loop *)

(** C5. [close_loop] on a store of two anchors does nothing: no command
    reaches the command manager and the tool, its closed flag included,
    stays as it was.  On an open store of at least three anchors it
    executes a [BezierCmdCloseLoop] command, which sets [is_closed] and is
    recorded on the undo stack; anchors and vertex ids are untouched. *)
Theorem close_loop_guard (app : App) :
  wf (tool app) ->
  (length (nodes (tool app)) = 2%nat -> close_loop app = (Ok tt, app)) /\
  ((3 <= length (nodes (tool app)))%nat -> is_closed (tool app) = false ->
   exists t',
     close_loop app = (Ok tt, mkApp t' (BezierCmdCloseLoop false :: undo_stack app) []) /\
     is_closed t' = true /\
     nodes t' = nodes (tool app) /\ node_ids t' = node_ids (tool app)).
Proof.
  intros Hwf. split.
  - intros H2. unfold close_loop. by rewrite H2.
  - intros H3 Hopen. unfold close_loop.
    replace (2 <? length (nodes (tool app)))%nat with true
      by (symmetry; apply Nat.ltb_lt; lia).
    rewrite Hopen. simpl.
    unfold CommandManager.execute, new_BezierCmdCloseLoop. rewrite Hopen.
    unfold BezierCmd.execute, bind.
    destruct (update_curve_ok (with_is_closed (tool app) true)) as (t' & E & G);
      [exact Hwf|].
    rewrite E. simpl. exists t'. split; [done|].
    destruct (cache_grown_fields _ _ G) as (Hn & Hids & Hc & _). done.
Qed.

(** ** Segment symmetry *)



Lemma wf_demo_open_app : wf (tool demo_open_app).
Proof.
  assert (Hids : node_ids (tool demo_open_app) = [0; 1; 2]) by (vm_compute; reflexivity).
  split; [vm_compute; reflexivity|]. exists demo_mesh. split; [vm_compute; reflexivity|].
  rewrite Hids. repeat constructor; vm_compute; eauto.
Qed.

Lemma close_loop_guard_witness :
  wf (tool demo_open_app) /\
  (3 <= length (nodes (tool demo_open_app)))%nat /\
  is_closed (tool demo_open_app) = false /\
  exists t',
    close_loop demo_open_app =
      (Ok tt, mkApp t' (BezierCmdCloseLoop false :: undo_stack demo_open_app) []) /\
    is_closed t' = true.
Proof.
  assert (H3 : (3 <= length (nodes (tool demo_open_app)))%nat) by (vm_compute; apply le_n).
  assert (Ho : is_closed (tool demo_open_app) = false) by (vm_compute; reflexivity).
  split; [exact wf_demo_open_app|]. split; [exact H3|]. split; [exact Ho|].
  destruct (proj2 (close_loop_guard demo_open_app wf_demo_open_app) H3 Ho)
    as (t' & E & Hc & _).
  exists t'. split; [exact E|exact Hc].
Defined.

(** ** Removing anchors from a closed loop *)

Lemma store_inv_cache_grown st st' : cache_grown st st' -> store_inv st -> store_inv st'.
Proof. intros (c & -> & _). done. Qed.

Lemma add_node_shape st pos idx r st' :
  _internal_add_node pos idx st = (r, st') ->
  (nodes st' = nodes st /\ node_ids st' = node_ids st /\ is_closed st' = is_closed st) \/
  (exists p pid, cache_grown (inserted st p pid idx) st').
Proof.
  unfold _internal_add_node.
  destruct (cur_mesh st) as [m|]; [|intros [= <- <-]; by left].
  destruct (_ && _ && _).
  - destruct (last (nodes st)), (last (node_ids st)); intros [= <- <-]; by left.
  - destruct (py_getitem (points m) (find_closest_point m pos)) as [p|];
      [|intros [= <- <-]; by left].
    intros E. right. exists p, (find_closest_point m pos).
    unfold bind in E.
    destruct (update_curve _) as [[u|e] s] eqn:E1; injection E as <- <-;
      by eapply update_curve_frame.
Qed.

Lemma store_inv_inserted st p pid idx : store_inv st -> store_inv (inserted st p pid idx).
Proof.
  intros (Hlen & Hinv). unfold inserted, store_inv, loop_inv in *.
  destruct (negb (idx =? -1)); simpl.
  - rewrite !py_insert_length. split; [lia|]. intros H. specialize (Hinv H). lia.
  - rewrite !length_app. simpl. split; [lia|]. intros H. specialize (Hinv H). lia.
Qed.

Lemma store_inv_removed st idx : store_inv st -> store_inv (removed st idx).
Proof.
  intros (Hlen & Hinv). unfold removed, store_inv, loop_inv in *. simpl.
  pose proof (length_delete_same (nodes st) (node_ids st) idx Hlen) as Hd.
  destruct (length (delete idx (nodes st)) <? 3)%nat eqn:E; simpl.
  - split; [done|]. done.
  - apply Nat.ltb_ge in E. split; [done|]. intros _. done.
Qed.

Lemma py_index_Some_elem a l : a ∈ l -> exists idx, py_index a l = Some idx.
Proof.
  intros H. destruct (py_index a l) as [idx|] eqn:E; [eauto|].
  by apply py_index_None in E.
Qed.

(** C6 (amended). A removal that leaves fewer than three anchors clears
    [is_closed]; in particular removing any anchor of a closed loop of
    exactly three does.  The editing operations (add, remove, move, hard
    reset and the guarded [close_loop]) preserve the invariant that a
    closed loop has at least three anchors. *)
Theorem shrink_clears_closed (st : Tool) :
  length (nodes st) = length (node_ids st) ->
  (forall a, a ∈ nodes st ->
     let st' := snd (_internal_remove_node_by_actor a st) in
     length (nodes st') = (length (nodes st) - 1)%nat /\
     ((length (nodes st') < 3)%nat -> is_closed st' = false)) /\
  (length (nodes st) = 3%nat -> forall a, a ∈ nodes st ->
     is_closed (snd (_internal_remove_node_by_actor a st)) = false) /\
  (loop_inv st ->
     (forall pos idx, store_inv (snd (_internal_add_node pos idx st))) /\
     (forall a, store_inv (snd (_internal_remove_node_by_actor a st))) /\
     (forall a pos pid, store_inv (snd (_internal_update_node_pos a pos pid st))) /\
     (forall keep_actors, store_inv (snd (_internal_hard_reset keep_actors st))) /\
     (forall u r, store_inv (tool (snd (close_loop (mkApp st u r)))))).
Proof.
  intros Hlen.
  assert (Hrem : forall a, a ∈ nodes st ->
     let st' := snd (_internal_remove_node_by_actor a st) in
     length (nodes st') = (length (nodes st) - 1)%nat /\
     ((length (nodes st') < 3)%nat -> is_closed st' = false)).
  { intros a Ha. destruct (py_index_Some_elem _ _ Ha) as (idx & Hidx).
    pose proof (py_index_lt _ _ _ Hidx) as Hlt.
    destruct (_internal_remove_node_by_actor a st) as [r st'] eqn:E. simpl.
    apply (remove_node_frame st a idx) in E; [|done|lia].
    destruct (cache_grown_fields _ _ E) as (Hn & _ & Hc & _).
    rewrite Hn, Hc. unfold removed. simpl.
    assert (Hd : length (delete idx (nodes st)) = (length (nodes st) - 1)%nat)
      by (apply length_delete, lookup_lt_is_Some; lia).
    destruct (length (delete idx (nodes st)) <? 3)%nat eqn:E3; simpl.
    - split; [done|done].
    - apply Nat.ltb_ge in E3. split; [done|]. lia. }
  split; [exact Hrem|]. split.
  - intros H3 a Ha. destruct (Hrem a Ha) as (Hl & Hc). apply Hc. lia.
  - intros Hinv. assert (Hst : store_inv st) by done.
    split; [|split; [|split; [|split]]].
    + intros pos idx. destruct (_internal_add_node pos idx st) as [r st'] eqn:E. simpl.
      destruct (add_node_shape _ _ _ _ _ E) as [(Hn & Hi & Hc)|(p & pid & G)].
      * unfold store_inv, loop_inv. rewrite Hn, Hi, Hc. exact Hst.
      * eapply store_inv_cache_grown; [exact G|]. by apply store_inv_inserted.
    + intros a. destruct (py_index a (nodes st)) as [idx|] eqn:Hidx.
      * destruct (_internal_remove_node_by_actor a st) as [r st'] eqn:E. simpl.
        pose proof (py_index_lt _ _ _ Hidx) as Hlt.
        apply (remove_node_frame st a idx) in E; [|done|lia].
        eapply store_inv_cache_grown; [exact E|]. by apply store_inv_removed.
      * by rewrite remove_node_absent.
    + intros a pos pid. destruct (py_index a (nodes st)) as [idx|] eqn:Hidx.
      * pose proof (py_index_lt _ _ _ Hidx) as Hlt.
        eapply store_inv_cache_grown.
        { apply (update_node_pos_frame st a pos pid idx); [done|lia]. }
        unfold moved, store_inv, loop_inv. simpl. rewrite length_insert. exact Hst.
      * by rewrite update_node_pos_absent.
    + intros keep. unfold store_inv, loop_inv. simpl. done.
    + intros u r. unfold close_loop. simpl.
      destruct ((2 <? length (nodes st))%nat && negb (is_closed st)) eqn:Eg; [|done].
      apply andb_true_iff in Eg as [E2 _]. apply Nat.ltb_lt in E2.
      unfold CommandManager.execute, new_BezierCmdCloseLoop. simpl.
      unfold bind.
      destruct (update_curve (with_is_closed st true)) as [[v|e] t'] eqn:E; simpl;
        (eapply store_inv_cache_grown; [eapply update_curve_frame; exact E|]);
        unfold store_inv, loop_inv; simpl; (split; [done|lia]).
Qed.

Lemma shrink_clears_closed_witness :
  length (nodes (tool demo_closed_app)) = length (node_ids (tool demo_closed_app)) /\
  is_closed (tool demo_closed_app) = true /\
  is_closed (snd (_internal_remove_node_by_actor 1%nat (tool demo_closed_app))) = false.
Proof.
  split; [reflexivity|]. split; [reflexivity|].
  refine (proj1 (proj2 (shrink_clears_closed (tool demo_closed_app) _)) _ 1%nat _).
  - reflexivity.
  - reflexivity.
  - vm_compute. apply list_elem_of_In. simpl. tauto.
Defined.

(** C6 (as stated) fails: undoing a Delete after the markup was cleared
    puts one anchor back together with the recorded closed flag. *)
Lemma undo_delete_breaks_loop_invariant :
  loop_inv (tool demo_cleared_app) /\
  ~ loop_inv (tool (snd (CommandManager.undo demo_cleared_app))).
Proof.
  split.
  - intros H. vm_compute in H. discriminate.
  - intros H.
    assert (Hc : is_closed (tool (snd (CommandManager.undo demo_cleared_app))) = true)
      by (vm_compute; reflexivity).
    apply H in Hc. vm_compute in Hc. lia.
Qed.

(** ** The cache after a mutation *)

Lemma redraw_from_empty st r st' :
  path_cache st = ∅ -> update_curve st = (r, st') -> only_current_segments st'.
Proof.
  intros He E k Hk.
  destruct (update_curve_keys _ _ _ k E Hk) as [H|(i & Hi & Hkey)].
  - rewrite He, lookup_empty in H. by destruct H.
  - pose proof (update_curve_frame _ _ _ E) as G.
    destruct (cache_grown_fields _ _ G) as (Hn & Hids & Hc & _).
    exists i. unfold segment_range, segment_key in *. rewrite Hn, Hids, Hc. done.
Qed.

(** C9 (amended). Inserting at an index, removing, restoring and moving
    an anchor clear the whole path cache and then redraw the curve, so
    that afterwards the cache holds entries of segments of the current
    curve only: nothing survives from before.  A plain append clears
    nothing: every entry of before is still there. *)
Theorem mutation_recomputes_cache (st : Tool) :
  length (nodes st) = length (node_ids st) ->
  (forall pos idx m, idx <> -1 -> cur_mesh st = Some m -> points m <> [] ->
     only_current_segments (snd (_internal_add_node pos idx st))) /\
  (forall a, a ∈ nodes st ->
     only_current_segments (snd (_internal_remove_node_by_actor a st))) /\
  (forall a pid idx was_closed,
     only_current_segments (snd (_internal_restore_node a pid idx was_closed st))) /\
  (forall a pos pid, a ∈ nodes st ->
     only_current_segments (snd (_internal_update_node_pos a pos pid st))) /\
  (forall pos, path_cache st ⊆ path_cache (snd (_internal_add_node pos (-1) st))).
Proof.
  intros Hlen. split; [|split; [|split; [|split]]].
  - intros pos idx m Hidx Hm Hne.
    destruct (closest_in_mesh m pos Hne) as [p Hp].
    assert (Hc : is_noop_append st (find_closest_point m pos) idx = false).
    { unfold is_noop_append. replace (idx =? -1) with false; [by rewrite andb_false_r|].
      symmetry. by apply Z.eqb_neq. }
    rewrite (add_node_new st m pos idx p Hm Hp Hc). unfold bind.
    destruct (update_curve _) as [[u|e] st'] eqn:E; simpl;
      (eapply redraw_from_empty; [|exact E]);
      unfold inserted; (replace (idx =? -1) with false by (symmetry; by apply Z.eqb_neq));
      done.
  - intros a Ha. destruct (py_index_Some_elem _ _ Ha) as (idx & Hidx).
    pose proof (py_index_lt _ _ _ Hidx) as Hlt.
    rewrite (remove_node_present st a idx Hidx) by lia.
    destruct (except_ValueError update_curve (removed st idx)) as [r st'] eqn:E. simpl.
    apply except_ValueError_inv in E as (r0 & E).
    eapply redraw_from_empty; [|exact E].
    unfold removed. simpl. by destruct (_ <? _)%nat.
  - intros a pid idx was_closed. rewrite restore_node_eq.
    destruct (update_curve _) as [r st'] eqn:E. simpl.
    by eapply redraw_from_empty; [|exact E].
  - intros a pos pid Ha. destruct (py_index_Some_elem _ _ Ha) as (idx & Hidx).
    pose proof (py_index_lt _ _ _ Hidx) as Hlt.
    rewrite (update_node_pos_present st a pos pid idx Hidx) by lia. simpl.
    destruct (update_curve _) as [r st'] eqn:E. simpl.
    by eapply redraw_from_empty; [|exact E].
  - intros pos. destruct (_internal_add_node pos (-1) st) as [r st'] eqn:E. simpl.
    unfold _internal_add_node in E.
    destruct (cur_mesh st) as [m|]; [|by injection E as <- <-].
    destruct (_ && _ && _).
    { destruct (last (nodes st)), (last (node_ids st)); by injection E as <- <-. }
    destruct (py_getitem (points m) (find_closest_point m pos)) as [p|];
      [|by injection E as <- <-].
    unfold bind in E.
    destruct (update_curve _) as [[u|e] s] eqn:E1; injection E as <- <-;
      apply update_curve_frame in E1 as (c & -> & Hsub); exact Hsub.
Qed.

Lemma mutation_recomputes_cache_witness :
  length (nodes (tool demo_closed_app)) = length (node_ids (tool demo_closed_app)) /\
  only_current_segments (snd (_internal_remove_node_by_actor 1%nat (tool demo_closed_app))).
Proof.
  split; [reflexivity|].
  refine (proj1 (proj2 (mutation_recomputes_cache (tool demo_closed_app) _)) 1%nat _).
  - reflexivity.
  - vm_compute. apply list_elem_of_In. simpl. tauto.
Defined.

Lemma only_current_segments_lt st k :
  only_current_segments st -> is_Some (path_cache st !! k) ->
  exists i, (i < length (nodes st))%nat /\ segment_key st i = Some k.
Proof.
  intros H Hk. destruct (H k Hk) as (i & Hi & Hkey). exists i. split; [|done].
  unfold segment_range in Hi. apply elem_of_seq in Hi. destruct (is_closed st); lia.
Qed.

Lemma demo_appended_shape :
  length (nodes demo_appended) = 4%nat /\
  forall i, (i < 4)%nat -> segment_key demo_appended i <> Some (0, 2).
Proof.
  split; [vm_compute; reflexivity|].
  intros i Hi. do 4 (destruct i as [|i]; [vm_compute; discriminate|]). lia.
Qed.

(** C9 (as stated) fails: after an insertion the cache is not empty, and
    after an append onto the closed demo loop the entry of the former
    closing segment (vertices 0 and 2) is still cached although the curve
    no longer has that segment. *)
Lemma cache_not_empty_after_mutation :
  path_cache demo_inserted <> ∅ /\
  is_Some (path_cache (tool demo_closed_app) !! (0, 2)) /\
  is_Some (path_cache demo_appended !! (0, 2)) /\
  ~ only_current_segments demo_appended.
Proof.
  split; [|split; [|split]].
  - intros H. apply (f_equal (fun c => c !! (0, 2))) in H. vm_compute in H. discriminate.
  - vm_compute. eauto.
  - vm_compute. eauto.
  - intros H.
    destruct (only_current_segments_lt _ (0, 2) H) as (i & Hi & Hkey); [vm_compute; eauto|].
    destruct demo_appended_shape as (Hn & Hk).
    rewrite Hn in Hi. by apply (Hk i Hi).
Qed.

(** ** Segment polylines *)













(** ** Resolving the insertion index *)





Lemma scan_polyline_fold hit_pos (i : nat) pts acc :
  scan_polyline hit_pos (Z.of_nat i) pts acc =
  fold_left scan_step (map (pair i) (segment_dists hit_pos pts)) acc.
Proof.
  revert acc. induction pts as [|a rest IH]; intros acc; [done|].
  destruct rest as [|b rest']; [done|].
  change (scan_polyline hit_pos (Z.of_nat i) (a :: b :: rest') acc)
    with (scan_polyline hit_pos (Z.of_nat i) (b :: rest')
            (if lt_min (_dist_sq_to_segment hit_pos a b) (snd acc)
             then (Z.of_nat i, Some (_dist_sq_to_segment hit_pos a b)) else acc)).
  rewrite IH. done.
Qed.

Lemma segment_dists_short hit_pos pts :
  (length pts < 2)%nat -> segment_dists hit_pos pts = [].
Proof. destruct pts as [|a [|b r]]; simpl; [done|done|lia]. Qed.

Lemma resolve_loop_polylines hit_pos count rng acc st segs st' :
  polylines_loop count rng st = (Ok segs, st') ->
  resolve_loop hit_pos count rng acc st =
    (Ok (fold_left scan_step (all_dists hit_pos segs) acc), st').
Proof.
  revert acc st segs. induction rng as [|i rng IH]; intros acc st segs; simpl.
  - intros [= <- <-]. done.
  - unfold bind.
    destruct (_get_segment_points _ _ st) as [[pts|e] st1]; [|done].
    destruct (polylines_loop count rng st1) as [[more|e] st2] eqn:E2; [|done].
    intros [= <- <-]. unfold all_dists. simpl. rewrite fold_left_app.
    rewrite (IH _ _ _ E2). f_equal. f_equal. f_equal.
    destruct (length pts <? 2)%nat eqn:El.
    + apply Nat.ltb_lt in El. by rewrite segment_dists_short.
    + apply scan_polyline_fold.
Qed.

Lemma lt_min_Some d x : lt_min d (Some x) = Qltb d x.
Proof. done. Qed.

Lemma first_min_step l acc x :
  first_min l acc -> first_min (l ++ [x]) (scan_step acc x).
Proof.
  unfold first_min, scan_step. destruct acc as [b [d|]]; simpl.
  - intros (i & pre & post & -> & -> & Hpre & Hpost).
    destruct (Qltb (snd x) d) eqn:E; simpl.
    + apply Qltb_lt in E. destruct x as [i' d']. simpl in *.
      exists i', (pre ++ (i, d) :: post), []. split; [done|]. split; [done|]. split.
      * intros y Hy. apply elem_of_app in Hy as [Hy|Hy].
        -- specialize (Hpre y Hy). lra.
        -- apply elem_of_cons in Hy as [->|Hy]; [simpl; lra|].
           specialize (Hpost y Hy). lra.
      * intros y Hy. by apply not_elem_of_nil in Hy.
    + apply Qltb_ge in E. exists i, pre, (post ++ [x]). split.
      * by rewrite <- app_assoc.
      * split; [done|]. split; [done|]. intros y Hy.
        apply elem_of_app in Hy as [Hy|Hy]; [by apply Hpost|].
        apply list_elem_of_singleton in Hy as ->. done.
  - intros (-> & ->). destruct x as [i' d']. simpl.
    exists i', [], []. split; [done|]. split; [done|].
    split; intros y Hy; by apply not_elem_of_nil in Hy.
Qed.

Lemma first_min_fold l2 l1 acc :
  first_min l1 acc -> first_min (l1 ++ l2) (fold_left scan_step l2 acc).
Proof.
  revert l1 acc. induction l2 as [|x l2 IH]; intros l1 acc H; simpl.
  - by rewrite app_nil_r.
  - replace (l1 ++ x :: l2) with ((l1 ++ [x]) ++ l2) by (by rewrite <- app_assoc).
    apply IH. by apply first_min_step.
Qed.

(** A polyline handed out by [_get_segment_points] is in the cache
    afterwards. *)
Lemma get_segment_cached st i j pts st1 :
  _get_segment_points i j st = (Ok pts, st1) ->
  exists pid_a pid_b,
    py_getitem (node_ids st) i = Some pid_a /\ py_getitem (node_ids st) j = Some pid_b /\
    path_cache st1 !! sorted_key pid_a pid_b = Some pts.
Proof.
  unfold _get_segment_points.
  destruct (py_getitem (node_ids st) i) as [pid_a|]; [|done].
  destruct (py_getitem (node_ids st) j) as [pid_b|]; [|done].
  destruct (path_cache st !! sorted_key pid_a pid_b) as [v|] eqn:Hc.
  - intros [= <- <-]. eauto.
  - destruct (cur_mesh st) as [m|]; [|done].
    destruct (py_getitem (points m) pid_a) as [p_a|]; [|done].
    destruct (py_getitem (points m) pid_b) as [p_b|]; [|done].
    destruct (np_take _ _) as [sn|]; [|done].
    intros [= <- <-]. exists pid_a, pid_b. simpl. by rewrite lookup_insert_eq.
Qed.

Lemma get_segment_stable st st1 st2 i j pts :
  _get_segment_points i j st = (Ok pts, st1) -> cache_grown st1 st2 ->
  _get_segment_points i j st2 = (Ok pts, st2).
Proof.
  intros E G. pose proof (get_segment_frame _ _ _ _ _ E) as G1.
  destruct (get_segment_cached _ _ _ _ _ E) as (pid_a & pid_b & Ha & Hb & Hc).
  destruct (cache_grown_fields _ _ G1) as (_ & Hids1 & _).
  destruct (cache_grown_fields _ _ G) as (_ & Hids2 & _).
  destruct G as (c & -> & Hsub).
  eapply get_segment_hit.
  - simpl. rewrite Hids1. exact Ha.
  - simpl. rewrite Hids1. exact Hb.
  - simpl. eapply lookup_weaken; eauto.
Qed.

Lemma polylines_loop_frame count rng st r st' :
  polylines_loop count rng st = (r, st') -> cache_grown st st'.
Proof.
  revert st r st'. induction rng as [|i rng IH]; intros st r st'; simpl.
  - intros [= <- <-]. apply cache_grown_refl.
  - unfold bind.
    destruct (_get_segment_points _ _ st) as [[pts|e] st1] eqn:E1.
    + destruct (polylines_loop count rng st1) as [[more|e] st2] eqn:E2;
        intros [= <- <-];
        (eapply cache_grown_trans; [eapply get_segment_frame; exact E1|by eapply IH]).
    + intros [= <- <-]. eapply get_segment_frame. exact E1.
Qed.

Lemma polylines_loop_ok rng st :
  wf st -> Forall (fun i => (i < length (nodes st))%nat) rng ->
  exists segs st',
    polylines_loop (Z.of_nat (length (nodes st))) rng st = (Ok segs, st') /\
    map fst segs = rng /\
    forall i pts, (i, pts) ∈ segs ->
      _get_segment_points (Z.of_nat i) ((Z.of_nat i + 1) mod Z.of_nat (length (nodes st))) st'
      = (Ok pts, st').
Proof.
  revert st. induction rng as [|i rng IH]; intros st Hwf Hall; simpl.
  - exists [], st. split; [done|]. split; [done|]. intros i pts Hin.
    by apply not_elem_of_nil in Hin.
  - apply Forall_cons in Hall as [Hi Hall]. unfold bind.
    destruct (get_segment_ok st (Z.of_nat i)
                ((Z.of_nat i + 1) mod Z.of_nat (length (nodes st))) Hwf)
      as (pts & st1 & E1 & G1); [lia|apply mod_range; lia|].
    rewrite E1.
    destruct (cache_grown_fields _ _ G1) as (Hn & _).
    destruct (IH st1) as (more & st' & E2 & Hmap & Hget).
    { by eapply wf_cache_grown. }
    { by rewrite Hn. }
    rewrite Hn in E2, Hget. rewrite E2.
    exists ((i, pts) :: more), st'. split; [done|]. split; [simpl; by rewrite Hmap|].
    intros i' pts' Hin. apply elem_of_cons in Hin as [[= -> ->]|Hin]; [|by apply Hget].
    eapply get_segment_stable; [exact E1|]. eapply polylines_loop_frame. exact E2.
Qed.


Lemma wf_demo_pair : wf demo_pair.
Proof.
  split; [vm_compute; reflexivity|]. exists demo_mesh. split; [vm_compute; reflexivity|].
  repeat constructor; vm_compute; eauto.
Qed.


(** On the closed demo loop a hit on the middle of the second edge
    resolves to anchor 1, a hit far from the curve to an append. *)
Example resolve_on_second_edge :
  fst (_resolve_insertion_index (demo_point 4 2 0) (tool demo_closed_app)) = Ok 1.
Proof. vm_compute. reflexivity. Qed.

Example resolve_far_from_curve :
  fst (_resolve_insertion_index (demo_point 0 4 0) (tool demo_closed_app)) = Ok (-1).
Proof. vm_compute. reflexivity. Qed.

(** ** Region extraction and the live surface *)

Lemma write_mesh_fields f st :
  nodes (write_mesh f st) = nodes st /\ node_ids (write_mesh f st) = node_ids st /\
  is_closed (write_mesh f st) = is_closed st /\ mesh (write_mesh f st) = mesh st /\
  path_cache (write_mesh f st) = path_cache st.
Proof. unfold write_mesh. destruct (mesh st) eqn:E; simpl; rewrite ?E; repeat split; reflexivity. Qed.

Lemma write_mesh_other f st l :
  mesh st <> Some l -> heap (write_mesh f st) !! l = heap st !! l.
Proof.
  intros H. unfold write_mesh. destruct (mesh st) as [l0|]; [|done]. simpl.
  apply lookup_alter_ne. congruence.
Qed.

Lemma write_mesh_at f st l :
  mesh st = Some l -> heap (write_mesh f st) !! l = f <$> heap st !! l.
Proof. intros H. unfold write_mesh. rewrite H. simpl. apply lookup_alter_eq. Qed.

Section ExtractionFrame.

Variable norm : point -> Q.
Variable ray_trace : Dataset -> point -> point -> option (list point).
Variable kd_query : list point -> list point -> nat -> option (list (list Z)).
Variable compute_normals : Dataset -> Dataset.
Variable extract_surface : Dataset -> Dataset.
Variable threshold_value : Q -> string -> bool -> Dataset -> Dataset.
Variable threshold_range : Q -> Q -> string -> Dataset -> Dataset.
Variable connectivity : Dataset -> Dataset.
Variable clean : Dataset -> Dataset.

(** What an extraction may have done to the tool [st1] it started from
    (after [self.mesh] was rebound): nothing but cache entries, or a write
    through [self.mesh] as well. *)
Lemma extraction_steps (st r st' : _) :
  get_selected_region norm ray_trace kd_query compute_normals extract_surface
    threshold_value threshold_range connectivity clean st = (r, st') ->
  is_closed st = true ->
  let st1 := rebind_mesh extract_surface st in
  nodes st' = nodes st1 /\ node_ids st' = node_ids st1 /\ is_closed st' = is_closed st1 /\
  mesh st' = mesh st1 /\
  (forall l, mesh st1 <> Some l -> heap st' !! l = heap st1 !! l) /\
  (forall l d0, mesh st1 = Some l -> heap st1 !! l = Some d0 ->
     is_Some (point_data d0 !! "Normals") ->
     heap st' !! l = Some d0 \/
     exists scalars, heap st' !! l = Some (set_point_data d0 "is_barrier" (IntArray scalars))).
Proof.
  intros E Hc st1. unfold get_selected_region in E. rewrite Hc in E. simpl negb in E.
  cbv iota zeta in E. fold st1 in E.
  destruct (cur_mesh st1) as [m|] eqn:Hm.
  2:{ injection E as <- <-. repeat split; eauto. }
  destruct (_get_full_path_points st1) as [r2 st2] eqn:E2.
  apply get_full_path_frame in E2 as (c & -> & _).
  change (cur_mesh (with_path_cache st1 c)) with (cur_mesh st1) in E. rewrite Hm in E.
  set (st2 := with_path_cache st1 c) in *.
  assert (Hbase : nodes st2 = nodes st1 /\ node_ids st2 = node_ids st1 /\
                  is_closed st2 = is_closed st1 /\ mesh st2 = mesh st1 /\
                  heap st2 = heap st1) by done.
  assert (Hm2 : cur_mesh st2 = Some m) by done.
  clearbody st2. destruct Hbase as (Hn & Hi & Hcl & Hme & Hh).
  assert (Hd0 : forall l d0, mesh st1 = Some l -> heap st1 !! l = Some d0 -> d0 = m).
  { intros l d0 Hl Hd. unfold cur_mesh in Hm. rewrite Hl in Hm. simpl in Hm. congruence. }
  assert (Hdone : forall r0, (r0, st2) = (r, st') ->
    nodes st' = nodes st1 /\ node_ids st' = node_ids st1 /\ is_closed st' = is_closed st1 /\
    mesh st' = mesh st1 /\
    (forall l, mesh st1 <> Some l -> heap st' !! l = heap st1 !! l) /\
    (forall l d0, mesh st1 = Some l -> heap st1 !! l = Some d0 ->
       is_Some (point_data d0 !! "Normals") ->
       heap st' !! l = Some d0 \/
       exists scalars, heap st' !! l = Some (set_point_data d0 "is_barrier" (IntArray scalars)))).
  { intros r0 [= <- <-]. rewrite Hh. repeat split; eauto. }
  destruct r2 as [raw|e]; [|by eapply Hdone].
  destruct (length raw <? 3)%nat; [by eapply Hdone|].
  destruct (ray_trace m _ _) as [pts|]; [|by eapply Hdone].
  destruct (kd_query (points m) raw 5) as [candidates|]; [|by eapply Hdone].
  clear Hdone.
  destruct (bool_decide (is_Some (point_data m !! "Normals"))) eqn:EN.
  - (* the normals are there: at most the barrier is written *)
    rewrite Hm2 in E.
    assert (Hfin : forall r0 scalars,
      (r0, write_mesh (fun d => set_point_data d "is_barrier" (IntArray scalars)) st2)
        = (r, st') \/ (r0, st2) = (r, st') ->
      nodes st' = nodes st1 /\ node_ids st' = node_ids st1 /\
      is_closed st' = is_closed st1 /\ mesh st' = mesh st1 /\
      (forall l, mesh st1 <> Some l -> heap st' !! l = heap st1 !! l) /\
      (forall l d0, mesh st1 = Some l -> heap st1 !! l = Some d0 ->
         is_Some (point_data d0 !! "Normals") ->
         heap st' !! l = Some d0 \/
         exists scalars, heap st' !! l = Some (set_point_data d0 "is_barrier" (IntArray scalars)))).
    { intros r0 scalars [[= <- <-]|[= <- <-]].
      - destruct (write_mesh_fields
                    (fun d => set_point_data d "is_barrier" (IntArray scalars)) st2)
          as (W1 & W2 & W3 & W4 & _).
        rewrite W1, W2, W3, W4. repeat (split; [congruence|]). split.
        + intros l Hl. rewrite write_mesh_other by congruence. by rewrite Hh.
        + intros l d0 Hl Hd _. right. exists scalars.
          rewrite write_mesh_at by congruence. rewrite Hh, Hd. done.
      - rewrite Hh. repeat split; eauto. }
    destruct (point_data m !! "Normals") as [[a|mesh_normals]|]; try (by eapply (Hfin _ []); right).
    destruct (mapM _ candidates) as [clean_path_ids|]; [|by eapply (Hfin _ []); right].
    destruct (barrier_scalars _ _) as [scalars|]; [|by eapply (Hfin _ []); right].
    destruct (cur_mesh (write_mesh _ st2)) as [m'|]; eapply Hfin; left; exact E.
  - (* no normals on the mesh: the hypothesis on [d0] cannot hold *)
    apply bool_decide_eq_false in EN.
    assert (Hfin : forall r0 st3,
      (r0, st3) = (r, st') ->
      nodes st3 = nodes st1 /\ node_ids st3 = node_ids st1 /\
      is_closed st3 = is_closed st1 /\ mesh st3 = mesh st1 /\
      (forall l, mesh st1 <> Some l -> heap st3 !! l = heap st1 !! l) ->
      nodes st' = nodes st1 /\ node_ids st' = node_ids st1 /\
      is_closed st' = is_closed st1 /\ mesh st' = mesh st1 /\
      (forall l, mesh st1 <> Some l -> heap st' !! l = heap st1 !! l) /\
      (forall l d0, mesh st1 = Some l -> heap st1 !! l = Some d0 ->
         is_Some (point_data d0 !! "Normals") ->
         heap st' !! l = Some d0 \/
         exists scalars, heap st' !! l = Some (set_point_data d0 "is_barrier" (IntArray scalars)))).
    { intros r0 st3 [= <- <-] (H1 & H2 & H3 & H4 & H5). repeat (split; [done|]).
      intros l d0 Hl Hd HN. rewrite (Hd0 l d0 Hl Hd) in HN. done. }
    set (st3 := write_mesh compute_normals st2) in *.
    assert (H3 : nodes st3 = nodes st1 /\ node_ids st3 = node_ids st1 /\
                 is_closed st3 = is_closed st1 /\ mesh st3 = mesh st1 /\
                 (forall l, mesh st1 <> Some l -> heap st3 !! l = heap st1 !! l)).
    { destruct (write_mesh_fields compute_normals st2) as (W1 & W2 & W3 & W4 & _).
      unfold st3. rewrite W1, W2, W3, W4. repeat (split; [congruence|]).
      intros l Hl. rewrite write_mesh_other by congruence. by rewrite Hh. }
    clearbody st3. destruct H3 as (A1 & A2 & A3 & A4 & A5).
    destruct (cur_mesh st3) as [m3|]; [|by eapply Hfin].
    destruct (point_data m3 !! "Normals") as [[a|mesh_normals]|]; try (by eapply Hfin).
    destruct (mapM _ candidates) as [clean_path_ids|]; [|by eapply Hfin].
    destruct (barrier_scalars _ _) as [scalars|]; [|by eapply Hfin].
    set (f := fun d => set_point_data d "is_barrier" (IntArray scalars)) in *.
    destruct (write_mesh_fields f st3) as (W1 & W2 & W3 & W4 & _).
    destruct (cur_mesh (write_mesh f st3)) as [m'|]; eapply Hfin; try exact E;
      rewrite W1, W2, W3, W4; repeat (split; [congruence|]);
      intros l Hl; (rewrite write_mesh_other by congruence); by apply A5.
Qed.

Lemma rebind_mesh_polydata st l d :
  target_dataset st = Some l -> heap st !! l = Some d -> kind d = PolyData ->
  rebind_mesh extract_surface st = with_mesh st (Some l).
Proof. intros Ht Hd Hk. unfold rebind_mesh. by rewrite Ht, Hd, Hk. Qed.

Lemma rebind_mesh_grid st l d :
  target_dataset st = Some l -> heap st !! l = Some d -> kind d = UnstructuredGrid ->
  rebind_mesh extract_surface st =
    with_mesh (with_heap st (<[fresh (dom (heap st)) := extract_surface d]> (heap st)))
              (Some (fresh (dom (heap st)))).
Proof. intros Ht Hd Hk. unfold rebind_mesh. by rewrite Ht, Hd, Hk. Qed.

(** C2 (amended). An extraction never changes the anchors, the vertex
    ids or the closed flag, and one declined on an open loop changes no
    dataset at all.  A displayed UnstructuredGrid is left as it is (the
    work is done on an extracted surface).  A displayed PolyData carrying
    its normals keeps its points, its faces and every point-data array
    except [is_barrier], which the extractor writes on it in place. *)
Theorem extraction_frame (st : Tool) (l : loc) (d : Dataset) :
  target_dataset st = Some l -> heap st !! l = Some d ->
  let st' := snd (get_selected_region norm ray_trace kd_query compute_normals
                    extract_surface threshold_value threshold_range connectivity
                    clean st) in
  (is_closed st = false -> heap st' = heap st) /\
  (kind d = UnstructuredGrid -> heap st' !! l = Some d) /\
  (kind d = PolyData -> is_Some (point_data d !! "Normals") ->
   exists d', heap st' !! l = Some d' /\
              kind d' = kind d /\ points d' = points d /\ cells d' = cells d /\
              forall name, name <> "is_barrier" ->
                           point_data d' !! name = point_data d !! name) /\
  nodes st' = nodes st /\ node_ids st' = node_ids st /\ is_closed st' = is_closed st.
Proof.
  intros Ht Hd.
  destruct (get_selected_region norm ray_trace kd_query compute_normals extract_surface
              threshold_value threshold_range connectivity clean st) as [r st'] eqn:E.
  simpl. destruct (is_closed st) eqn:Hc.
  - destruct (extraction_steps st r st' E Hc) as (Hn & Hi & Hcl & Hme & Hoth & Hat).
    assert (Hst : nodes (rebind_mesh extract_surface st) = nodes st /\
                  node_ids (rebind_mesh extract_surface st) = node_ids st /\
                  is_closed (rebind_mesh extract_surface st) = is_closed st).
    { unfold rebind_mesh. rewrite Ht, Hd. by destruct (kind d). }
    destruct Hst as (S1 & S2 & S3).
    split; [done|]. split; [|split].
    + intros Hk. rewrite (rebind_mesh_grid st l d Ht Hd Hk) in Hoth.
      simpl in Hoth.
      assert (Hfresh : fresh (dom (heap st)) <> l).
      { intros Heq. apply (is_fresh (dom (heap st))). rewrite Heq.
        apply elem_of_dom. eauto. }
      rewrite Hoth by congruence. rewrite lookup_insert_ne by done. exact Hd.
    + intros Hk HN. rewrite (rebind_mesh_polydata st l d Ht Hd Hk) in Hat.
      destruct (Hat l d eq_refl Hd HN) as [H|[scalars H]].
      * exists d. split; [exact H|]. repeat split; reflexivity.
      * exists (set_point_data d "is_barrier" (IntArray scalars)). split; [exact H|].
        repeat (split; [reflexivity|]). intros name Hne. simpl.
        by rewrite lookup_insert_ne.
    + rewrite Hn, Hi, Hcl, S1, S2, S3, Hc. done.
  - unfold get_selected_region in E. rewrite Hc in E. simpl in E.
    injection E as <- <-. rewrite Hc.
    split; [done|]. split; [intros _; exact Hd|]. split; [|done].
    intros Hk HN. exists d. split; [exact Hd|]. repeat split; reflexivity.
Qed.

End ExtractionFrame.

Lemma extraction_frame_witness :
  target_dataset demo_started = Some 0%nat /\
  heap demo_started !! 0%nat = Some (demo_compute_normals demo_mesh) /\
  nodes (snd (demo_get_selected_region demo_started)) = nodes demo_started /\
  node_ids (snd (demo_get_selected_region demo_started)) = node_ids demo_started.
Proof.
  assert (Ht : target_dataset demo_started = Some 0%nat) by (vm_compute; reflexivity).
  assert (Hd : heap demo_started !! 0%nat = Some (demo_compute_normals demo_mesh))
    by (vm_compute; reflexivity).
  split; [exact Ht|]. split; [exact Hd|].
  pose proof (extraction_frame demo_norm demo_ray_trace demo_kd_query demo_compute_normals
                (fun d => d) (fun _ _ _ d => d) (fun _ _ _ d => d) demo_connectivity
                (fun d => d) demo_started 0%nat _ Ht Hd) as H.
  destruct H as (_ & _ & _ & Hn & Hi & _). split; [exact Hn|exact Hi].
Defined.

(** C2 (as stated) fails.  On the closed demo loop the extraction is
    rejected (the patch has fewer than ten points) and still the displayed
    mesh, which had no [is_barrier] array, carries one afterwards. *)
Lemma extraction_writes_live_surface :
  fst (demo_get_selected_region demo_started) = Ok None /\
  live_point_data demo_started "is_barrier" = None /\
  live_point_data (snd (demo_get_selected_region demo_started)) "is_barrier"
    = Some (IntArray [1; 1; 1; 0; 0]) /\
  heap (snd (demo_get_selected_region demo_started)) !! 0%nat <> heap demo_started !! 0%nat.
Proof.
  do 3 (split; [vm_compute; reflexivity|]).
  intros H.
  apply (f_equal (fun o : option Dataset => d ← o; point_data d !! "is_barrier")) in H.
  vm_compute in H. discriminate.
Qed.

(** ** Undo after an append onto the last anchor *)

(** C1 (the code departs from it).  An Add command that resolved to the
    idempotent no-op append keeps the existing last anchor as the anchor
    it added; its undo removes that anchor.  Executing the command leaves
    the store as it was, undoing it does not bring that state back: the
    single anchor is gone, and the closed loop of three loses its last
    anchor and its closed flag. *)
Theorem undo_of_noop_append_removes_anchor :
  observable (tool demo_single_app) = ([0], false) /\
  observable (tool demo_reappended_app) = ([0], false) /\
  undo_stack demo_reappended_app =
    [BezierCmdAdd (demo_point 0 0 1) (-1) (Some 0%nat) (Some 0) 0;
     BezierCmdAdd (demo_point 0 0 0) (-1) (Some 0%nat) (Some 0) 0] /\
  observable (tool (snd (CommandManager.undo demo_reappended_app))) = ([], false) /\
  observable (tool demo_closed_app) = ([0; 1; 2], true) /\
  observable (tool demo_closed_reappended_app) = ([0; 1; 2], true) /\
  observable (tool (snd (CommandManager.undo demo_closed_reappended_app)))
    = ([0; 1], false).
Proof. do 6 (split; [vm_compute; reflexivity|]). vm_compute. reflexivity. Qed.

(** ** Undoing what was executed *)

Lemma agree_refl st : agree st st.
Proof. by split. Qed.

Lemma agree_cache_grown st st' : cache_grown st st' -> agree st st'.
Proof. intros (c & -> & _). by split. Qed.

Lemma agree_trans st1 st2 st3 : agree st1 st2 -> agree st2 st3 -> agree st1 st3.
Proof. intros [H1 H2] [H3 H4]. split; congruence. Qed.

Lemma agree_sym st1 st2 : agree st1 st2 -> agree st2 st1.
Proof. intros [H1 H2]. split; congruence. Qed.

Lemma agree_fields st st' :
  agree st st' ->
  nodes st' = nodes st /\ node_ids st' = node_ids st /\ is_closed st' = is_closed st /\
  cur_mesh st' = cur_mesh st.
Proof. intros [H1 H2]. unfold core in H1. injection H1 as -> -> ->. done. Qed.

Lemma agree_intro st st' :
  nodes st' = nodes st -> node_ids st' = node_ids st -> is_closed st' = is_closed st ->
  cur_mesh st' = cur_mesh st -> agree st st'.
Proof. intros H1 H2 H3 H4. split; [|done]. unfold core. by rewrite H1, H2, H3. Qed.

Lemma wf_agree st st' : agree st st' -> wf st -> wf st'.
Proof.
  intros Ha (Hlen & m & Hm & Hall).
  destruct (agree_fields _ _ Ha) as (Hn & Hi & _ & Hc).
  split; [by rewrite Hn, Hi|]. exists m. split; [by rewrite Hc|]. by rewrite Hi.
Qed.

Lemma fresh_not_in (l : list nat) n : Forall (fun a => (a < n)%nat) l -> n ∉ l.
Proof.
  intros H Hin. rewrite Forall_forall in H. specialize (H n Hin). lia.
Qed.

(** A new anchor sits at one position [j] of both lists. *)
Lemma inserted_position st p pid idx :
  length (nodes st) = length (node_ids st) ->
  exists j, (j <= length (nodes st))%nat /\
    nodes (inserted st p pid idx) = take j (nodes st) ++ next_actor st :: drop j (nodes st) /\
    node_ids (inserted st p pid idx) = take j (node_ids st) ++ pid :: drop j (node_ids st) /\
    is_closed (inserted st p pid idx) = is_closed st /\
    cur_mesh (inserted st p pid idx) = cur_mesh st /\
    next_actor (inserted st p pid idx) = S (next_actor st).
Proof.
  intros Hlen. unfold inserted. destruct (negb (idx =? -1)); simpl.
  - exists (clamp_index (length (nodes st)) (idx + 1)).
    split; [apply clamp_index_le|]. rewrite !py_insert_clamp, <- Hlen. done.
  - exists (length (nodes st)). split; [lia|].
    rewrite (take_ge (nodes st)), (drop_ge (nodes st)) by lia.
    rewrite (take_ge (node_ids st)), (drop_ge (node_ids st)) by lia. done.
Qed.

Lemma removed_inserted st1' j a pid nodes0 ids0 closed0 :
  length nodes0 = length ids0 -> (j <= length nodes0)%nat ->
  nodes st1' = take j nodes0 ++ a :: drop j nodes0 ->
  node_ids st1' = take j ids0 ++ pid :: drop j ids0 ->
  is_closed st1' = closed0 ->
  (closed0 = true -> (3 <= length nodes0)%nat) ->
  nodes (removed st1' j) = nodes0 /\ node_ids (removed st1' j) = ids0 /\
  is_closed (removed st1' j) = closed0 /\ cur_mesh (removed st1' j) = cur_mesh st1'.
Proof.
  intros Hlen Hj Hn Hi Hc Hinv. unfold removed. simpl. rewrite Hn, Hi.
  rewrite !delete_inserted by lia.
  destruct (length nodes0 <? 3)%nat eqn:E; simpl; repeat split; try done.
  apply Nat.ltb_lt in E. destruct closed0; [|done].
  specialize (Hinv eq_refl). lia.
Qed.

Lemma restore_loop_ok ns : forall i ids_all ids_rest st,
  drop i ids_all = ids_rest -> length ns = length ids_rest ->
  restore_loop i ns ids_all st =
    (Ok tt, with_node_ids (with_nodes st (nodes st ++ ns)) (node_ids st ++ ids_rest)).
Proof.
  induction ns as [|a ns IH]; intros i ids_all ids_rest st Hd Hl; simpl.
  - destruct ids_rest; [|done]. rewrite !app_nil_r. by destruct st.
  - destruct ids_rest as [|pid rest]; [done|].
    assert (Hi : ids_all !! i = Some pid).
    { rewrite <- (Nat.add_0_r i), <- lookup_drop, Hd. done. }
    rewrite py_getitem_nat by (by eapply lookup_lt_Some). rewrite Hi.
    rewrite (IH (S i) ids_all rest).
    + simpl. by rewrite <- !app_assoc.
    + replace (S i) with (i + 1)%nat by lia. rewrite <- drop_drop, Hd. done.
    + simpl in Hl. lia.
Qed.

Lemma session_inv_agree_wf st st' : session_inv st -> agree st st' -> wf st'.
Proof. intros (Hwf & _) Ha. by eapply wf_agree. Qed.

Lemma execute_add_undoes st pos idx :
  session_inv st -> resolves_to_last (GAdd pos idx) st = false ->
  exists c' st1,
    BezierCmd.execute (new_BezierCmdAdd pos idx) st = (Ok c', st1) /\
    session_inv st1 /\ undoes st c' st1.
Proof.
  intros (Hwf & Hinv & Hfresh & m & Hm & Hne) Hres.
  unfold resolves_to_last in Hres. rewrite Hm in Hres.
  destruct (closest_in_mesh m pos Hne) as [p Hp].
  destruct (add_node_new_ok st m pos idx p Hwf Hm Hp Hres) as (st1 & E & G).
  pose proof Hwf as (Hlen & _).
  destruct (inserted_position st p (find_closest_point m pos) idx Hlen)
    as (j & Hj & Hn & Hi & Hc & Hcm & Hnext).
  destruct (cache_grown_fields _ _ G) as (Gn & Gi & Gc & Gcm & _ & _ & _ & Gnext & _).
  rewrite Hn in Gn. rewrite Hi in Gi. rewrite Hc in Gc. rewrite Hcm in Gcm.
  rewrite Hnext in Gnext.
  pose proof (fresh_not_in _ _ Hfresh) as Hnotin.
  assert (Hidx : py_index (next_actor st) (nodes st1) = Some j)
    by (rewrite Gn; by apply py_index_insert_fresh).
  exists (BezierCmdAdd pos idx (Some (next_actor st)) (Some (find_closest_point m pos))
            (Z.of_nat j)), st1.
  split; [|split].
  - unfold BezierCmd.execute, new_BezierCmdAdd, bind. rewrite E. simpl. by rewrite Hidx.
  - split; [|split; [|split]].
    + eapply wf_cache_grown; [exact G|]. by eapply wf_inserted.
    + unfold loop_inv in *. rewrite Gc, Gn. intros H. specialize (Hinv H).
      rewrite length_app. simpl. rewrite length_take, length_drop. lia.
    + rewrite Gn, Gnext. apply Forall_app. split; [|constructor; [lia|]].
      * apply Forall_take. eapply Forall_impl; [exact Hfresh|]. simpl. lia.
      * apply Forall_drop. eapply Forall_impl; [exact Hfresh|]. simpl. lia.
    + exists m. split; [by rewrite Gcm|done].
  - intros st1' Ha. destruct (agree_fields _ _ Ha) as (An & Ai & Ac & Acm).
    assert (Hwf1 : wf st1').
    { eapply wf_agree; [exact Ha|]. eapply wf_cache_grown; [exact G|].
      by eapply wf_inserted. }
    assert (Hidx' : py_index (next_actor st) (nodes st1') = Some j) by (by rewrite An).
    destruct (remove_node_ok st1' (next_actor st) j Hwf1 Hidx') as (st2 & E2 & G2).
    exists st2. split; [exact E2|].
    destruct (removed_inserted st1' j (next_actor st) (find_closest_point m pos)
                (nodes st) (node_ids st) (is_closed st) Hlen Hj)
      as (R1 & R2 & R3 & R4); [congruence|congruence|congruence|exact Hinv|].
    eapply agree_trans; [|apply agree_cache_grown; exact G2].
    apply agree_intro; congruence.
Qed.

Lemma execute_delete_undoes st a c :
  session_inv st -> new_BezierCmdDelete st a = Ok c ->
  exists c' st1,
    BezierCmd.execute c st = (Ok c', st1) /\ session_inv st1 /\ undoes st c' st1.
Proof.
  intros (Hwf & Hinv & Hfresh & m & Hm & Hne) Hc.
  pose proof Hwf as (Hlen & _).
  unfold new_BezierCmdDelete in Hc.
  destruct (py_index a (nodes st)) as [j|] eqn:Hidx.
  - pose proof (py_index_lt _ _ _ Hidx) as Hlt.
    replace (Z.of_nat j =? -1) with false in Hc by (symmetry; apply Z.eqb_neq; lia).
    rewrite py_getitem_nat in Hc by lia.
    destruct (node_ids st !! j) as [pid|] eqn:Hpid; [|done]. injection Hc as <-.
    destruct (remove_node_ok st a j Hwf Hidx) as (st1 & E & G).
    pose proof (wf_cache_grown _ _ G (wf_removed st j Hwf)) as Hwf1.
    destruct (cache_grown_fields _ _ G) as (Gn & Gi & Gc & Gcm & _ & _ & _ & Gnext & _).
    exists (BezierCmdDelete a (Z.of_nat j) pid (get_position st a) (is_closed st)), st1.
    split; [|split].
    + unfold BezierCmd.execute, bind. by rewrite E.
    + split; [exact Hwf1|]. split; [|split].
      * destruct (store_inv_removed st j (conj Hlen Hinv)) as (_ & Hl).
        unfold loop_inv in *. by rewrite Gc, Gn.
      * rewrite Gn, Gnext. unfold removed. simpl.
        destruct (_ <? _)%nat; simpl; by apply Forall_delete.
      * exists m. split; [|done]. rewrite Gcm. unfold removed. simpl.
        by destruct (_ <? _)%nat.
    + intros st1' Ha. destruct (agree_fields _ _ Ha) as (An & Ai & Ac & Acm).
      unfold BezierCmd.undo.
      replace (Z.of_nat j =? -1) with false by (symmetry; apply Z.eqb_neq; lia).
      change (negb false) with true. cbv iota. rewrite restore_node_eq.
      assert (Hag : agree st (restored st1' a pid (Z.of_nat j) (is_closed st))).
      { apply agree_intro; unfold restored; simpl.
        - rewrite An, Gn. unfold removed. simpl.
          assert (Hd : nodes (if (length (delete j (nodes st)) <? 3)%nat
                              then with_is_closed
                                     (with_node_ids
                                        (with_nodes (with_path_cache st ∅)
                                           (delete j (nodes st)))
                                        (delete j (node_ids st))) false
                              else with_node_ids
                                     (with_nodes (with_path_cache st ∅)
                                        (delete j (nodes st)))
                                     (delete j (node_ids st))) = delete j (nodes st))
            by (by destruct (_ <? _)%nat).
          rewrite Hd. apply py_insert_nat_delete. by apply py_index_lookup.
        - rewrite Ai, Gi. unfold removed. simpl.
          assert (Hd : node_ids (if (length (delete j (nodes st)) <? 3)%nat
                              then with_is_closed
                                     (with_node_ids
                                        (with_nodes (with_path_cache st ∅)
                                           (delete j (nodes st)))
                                        (delete j (node_ids st))) false
                              else with_node_ids
                                     (with_nodes (with_path_cache st ∅)
                                        (delete j (nodes st)))
                                     (delete j (node_ids st))) = delete j (node_ids st))
            by (by destruct (_ <? _)%nat).
          rewrite Hd. by apply py_insert_nat_delete.
        - done.
        - change (cur_mesh st1' = cur_mesh st). rewrite Acm, Gcm. unfold removed. simpl.
          by destruct (_ <? _)%nat. }
      destruct (update_curve_ok (restored st1' a pid (Z.of_nat j) (is_closed st)))
        as (st2 & E2 & G2); [by eapply wf_agree|].
      exists st2. split; [exact E2|].
      eapply agree_trans; [exact Hag|]. by apply agree_cache_grown.
  - change (-1 =? -1) with true in Hc. injection Hc as <-.
    exists (BezierCmdDelete a (-1) (-1) (get_position st a) (is_closed st)), st.
    split; [|split].
    + unfold BezierCmd.execute, bind. by rewrite remove_node_absent.
    + split; [done|]. split; [done|]. split; [done|]. by exists m.
    + intros st1' Ha. exists st1'. split; [done|exact Ha].
Qed.

Lemma execute_move_undoes st a old_pos final_pos start_pid m j :
  session_inv st -> cur_mesh st = Some m ->
  py_index a (nodes st) = Some j -> node_ids st !! j = Some start_pid ->
  exists c' st1,
    BezierCmd.execute
      (BezierCmdMove a old_pos final_pos start_pid (find_closest_point m final_pos)) st
      = (Ok c', st1) /\ session_inv st1 /\ undoes st c' st1.
Proof.
  intros (Hwf & Hinv & Hfresh & m0 & Hm0 & Hne) Hm Hidx Hpid.
  rewrite Hm in Hm0. injection Hm0 as <-.
  pose proof Hwf as (Hlen & m' & Hm' & Hall).
  rewrite Hm in Hm'. injection Hm' as <-.
  pose proof (py_index_lt _ _ _ Hidx) as Hlt.
  set (end_pid := find_closest_point m final_pos).
  assert (Hj : (j < length (node_ids st))%nat) by lia.
  pose proof (update_node_pos_present st a final_pos end_pid j Hidx Hj) as E.
  pose proof (update_node_pos_frame st a final_pos end_pid j Hidx Hj) as G.
  set (st1 := snd (_internal_update_node_pos a final_pos end_pid st)) in *.
  assert (E1 : _internal_update_node_pos a final_pos end_pid st = (Ok tt, st1)).
  { unfold st1. by rewrite E. }
  clearbody st1.
  destruct (cache_grown_fields _ _ G) as (Gn & Gi & Gc & Gcm & _ & _ & _ & Gnext & _).
  change (nodes (moved st a final_pos j end_pid)) with (nodes st) in Gn.
  change (node_ids (moved st a final_pos j end_pid)) with (<[j := end_pid]> (node_ids st)) in Gi.
  change (is_closed (moved st a final_pos j end_pid)) with (is_closed st) in Gc.
  change (cur_mesh (moved st a final_pos j end_pid)) with (cur_mesh st) in Gcm.
  change (next_actor (moved st a final_pos j end_pid)) with (next_actor st) in Gnext.
  assert (Hwf1 : wf st1).
  { split; [rewrite Gn, Gi, length_insert; exact Hlen|].
    exists m. split; [by rewrite Gcm|]. rewrite Gi. apply Forall_insert; [done|].
    by apply closest_in_mesh. }
  exists (BezierCmdMove a old_pos final_pos start_pid end_pid), st1.
  split; [|split].
  - unfold BezierCmd.execute, bind. by rewrite E1.
  - split; [exact Hwf1|]. split; [|split].
    + unfold loop_inv in *. by rewrite Gc, Gn.
    + by rewrite Gn, Gnext.
    + exists m. split; [by rewrite Gcm|done].
  - intros st1' Ha. destruct (agree_fields _ _ Ha) as (An & Ai & Ac & Acm).
    assert (Hidx' : py_index a (nodes st1') = Some j) by (by rewrite An, Gn).
    assert (Hj' : (j < length (node_ids st1'))%nat)
      by (rewrite Ai, Gi, length_insert; exact Hj).
    unfold BezierCmd.undo.
    rewrite (update_node_pos_present st1' a old_pos start_pid j Hidx' Hj').
    eexists. split; [reflexivity|].
    pose proof (update_node_pos_frame st1' a old_pos start_pid j Hidx' Hj') as G2.
    rewrite (update_node_pos_present st1' a old_pos start_pid j Hidx' Hj') in G2.
    simpl in G2.
    eapply agree_trans; [|apply agree_cache_grown; exact G2].
    apply agree_intro.
    + change (nodes st1' = nodes st). congruence.
    + change (<[j := start_pid]> (node_ids st1') = node_ids st).
      rewrite Ai, Gi, list_insert_insert_eq. by apply list_insert_id.
    + change (is_closed st1' = is_closed st). congruence.
    + change (cur_mesh st1' = cur_mesh st). congruence.
Qed.

Lemma execute_close_undoes st :
  session_inv st -> (2 < length (nodes st))%nat -> is_closed st = false ->
  exists c' st1,
    BezierCmd.execute (new_BezierCmdCloseLoop st) st = (Ok c', st1) /\
    session_inv st1 /\ undoes st c' st1.
Proof.
  intros (Hwf & Hinv & Hfresh & m & Hm & Hne) H2 Ho.
  destruct (update_curve_ok (with_is_closed st true)) as (st1 & E & G); [exact Hwf|].
  destruct (cache_grown_fields _ _ G) as (Gn & Gi & Gc & Gcm & _ & _ & _ & Gnext & _).
  change (nodes (with_is_closed st true)) with (nodes st) in Gn.
  change (node_ids (with_is_closed st true)) with (node_ids st) in Gi.
  change (is_closed (with_is_closed st true)) with true in Gc.
  change (cur_mesh (with_is_closed st true)) with (cur_mesh st) in Gcm.
  change (next_actor (with_is_closed st true)) with (next_actor st) in Gnext.
  exists (BezierCmdCloseLoop false), st1. split; [|split].
  - unfold BezierCmd.execute, new_BezierCmdCloseLoop, bind. rewrite Ho, E. done.
  - split; [by eapply wf_cache_grown|]. split; [|split].
    + unfold loop_inv. rewrite Gn. simpl. lia.
    + by rewrite Gn, Gnext.
    + exists m. split; [by rewrite Gcm|done].
  - intros st1' Ha. destruct (agree_fields _ _ Ha) as (An & Ai & Ac & Acm).
    assert (Hag : agree st (with_is_closed st1' false)).
    { apply agree_intro.
      - change (nodes st1' = nodes st). congruence.
      - change (node_ids st1' = node_ids st). congruence.
      - simpl. congruence.
      - change (cur_mesh st1' = cur_mesh st). congruence. }
    destruct (update_curve_ok (with_is_closed st1' false)) as (st2 & E2 & G2);
      [by eapply wf_agree|].
    exists st2. split.
    + unfold BezierCmd.undo, bind. by rewrite E2.
    + eapply agree_trans; [exact Hag|]. by apply agree_cache_grown.
Qed.

Lemma execute_clear_undoes st :
  session_inv st ->
  exists c' st1,
    BezierCmd.execute (clear_markup_cmd st) st = (Ok c', st1) /\
    session_inv st1 /\ undoes st c' st1.
Proof.
  intros (Hwf & Hinv & Hfresh & m & Hm & Hne).
  pose proof Hwf as (Hlen & _).
  exists (BezierCmdClear (nodes st) (node_ids st) (is_closed st)),
         (snd (_internal_hard_reset false st)).
  split; [done|]. split.
  - split; [|split; [|split]].
    + split; [done|]. exists m. split; [done|]. constructor.
    + unfold loop_inv. simpl. done.
    + simpl. constructor.
    + by exists m.
  - intros st1' Ha. destruct (agree_fields _ _ Ha) as (An & Ai & Ac & Acm).
    unfold BezierCmd.undo, _internal_restore_full_state, bind. simpl.
    rewrite (restore_loop_ok (nodes st) 0 (node_ids st) (node_ids st)) by done.
    simpl.
    match goal with |- context [update_curve ?s] => set (st3 := s) end.
    assert (Hag : agree st st3).
    { apply agree_intro; unfold st3; simpl; done. }
    destruct (update_curve_ok st3) as (st2 & E2 & G2); [by eapply wf_agree|].
    rewrite E2. exists st2. split; [done|].
    eapply agree_trans; [exact Hag|]. by apply agree_cache_grown.
Qed.


Lemma session_inv_agree st st' :
  session_inv st -> agree st st' -> next_actor st' = next_actor st -> session_inv st'.
Proof.
  intros (Hwf & Hinv & Hfresh & m & Hm & Hne) Ha Hn.
  destruct (agree_fields _ _ Ha) as (An & Ai & Ac & Acm).
  split; [by eapply wf_agree|]. split; [|split].
  - unfold loop_inv. by rewrite Ac, An.
  - by rewrite An, Hn.
  - exists m. by rewrite Acm.
Qed.

Lemma undoes_agree_l st0 st c st1 : agree st0 st -> undoes st c st1 -> undoes st0 c st1.
Proof.
  intros Ha Hu st1' H1. destruct (Hu st1' H1) as (st2 & E & A2).
  exists st2. split; [exact E|]. by eapply agree_trans.
Qed.

Lemma undoes_agree_r st c st1 st1' : undoes st c st1 -> agree st1 st1' -> undoes st c st1'.
Proof. intros Hu Ha st1'' H1. apply Hu. by eapply agree_trans. Qed.

Lemma chain_agree_r cs st st1 st1' : chain st cs st1 -> agree st1 st1' -> chain st cs st1'.
Proof.
  destruct cs as [|c cs]; simpl.
  - apply agree_trans.
  - intros (mid & Hc & Hu) Ha. exists mid. split; [exact Hc|]. by eapply undoes_agree_r.
Qed.

Lemma chain_app cs2 : forall cs1 st st1 st2,
  chain st cs1 st1 -> chain st1 cs2 st2 -> chain st (cs2 ++ cs1) st2.
Proof.
  induction cs2 as [|c cs2 IH]; intros cs1 st st1 st2 H1 H2; simpl in *.
  - by eapply chain_agree_r.
  - destruct H2 as (mid & Hc & Hu). exists mid. split; [by eapply IH|exact Hu].
Qed.

Lemma agree_set_position st a p : agree st (set_position st a p).
Proof. by apply agree_intro. Qed.

Lemma mouse_moves_frame d hits : forall st r st',
  mouse_moves d hits st = (r, st') -> agree st st' /\ next_actor st' = next_actor st.
Proof.
  induction hits as [|h hits IH]; intros st r st'; simpl.
  - intros [= <- <-]. split; [apply agree_refl|done].
  - unfold bind, drag_active_node_visual.
    destruct h as [p|]; [|by apply IH].
    destruct (cur_mesh st) as [m|]; [|intros [= <- <-]; split; [apply agree_refl|done]].
    destruct (py_getitem (points m) (find_closest_point m p)) as [q|];
      [|intros [= <- <-]; split; [apply agree_refl|done]].
    intros E. destruct (IH _ _ _ E) as [A N]. split; [|exact N].
    eapply agree_trans; [apply agree_set_position|exact A].
Qed.

(** One gesture: it succeeds, the session invariant is kept, and what
    it pushes undoes it. *)
Lemma perform_chain g app :
  session_inv (tool app) -> resolves_to_last g (tool app) = false ->
  fst (perform g app) = Ok tt /\
  session_inv (tool (run (perform g) app)) /\
  exists cs, undo_stack (run (perform g) app) = cs ++ undo_stack app /\
             chain (tool app) cs (tool (run (perform g) app)).
Proof.
  intros Hinv Hres. unfold run.
  assert (Hsame : fst (@Ok unit tt, app) = Ok tt /\ session_inv (tool app) /\
    exists cs, undo_stack app = cs ++ undo_stack app /\ chain (tool app) cs (tool app)).
  { split; [done|]. split; [exact Hinv|]. exists []. split; [done|]. apply agree_refl. }
  destruct g as [pos idx|a|picked hits| |]; cbn [perform].
  - destruct (execute_add_undoes _ pos idx Hinv Hres) as (c' & st1 & E & I1 & U).
    unfold add_node_at, CommandManager.execute. rewrite E. simpl.
    split; [done|]. split; [exact I1|]. exists [c']. split; [done|].
    exists (tool app). split; [apply agree_refl|exact U].
  - unfold delete_node_cmd.
    destruct (new_BezierCmdDelete (tool app) a) as [cmd|e] eqn:En.
    + destruct (execute_delete_undoes _ a cmd Hinv En) as (c' & st1 & E & I1 & U).
      unfold CommandManager.execute. rewrite E. simpl.
      split; [done|]. split; [exact I1|]. exists [c']. split; [done|].
      exists (tool app). split; [apply agree_refl|exact U].
    + exfalso. destruct Hinv as ((Hlen & _) & _). unfold new_BezierCmdDelete in En.
      destruct (py_index a (nodes (tool app))) as [i|] eqn:Ei; [|done].
      pose proof (py_index_lt _ _ _ Ei) as Hlt.
      replace (Z.of_nat i =? -1) with false in En by (symmetry; apply Z.eqb_neq; lia).
      rewrite py_getitem_nat in En by lia.
      destruct (node_ids (tool app) !! i) eqn:El; [done|].
      apply lookup_ge_None in El. lia.
  - unfold drag, OnLeftDown_node.
    destruct picked as [a|]; [|exact Hsame].
    destruct (py_index a (nodes (tool app))) as [j|] eqn:Ej; [|exact Hsame].
    pose proof (py_index_lt _ _ _ Ej) as Hlt.
    pose proof Hinv as ((Hlen & _) & _ & _ & m & Hm & Hne).
    rewrite py_getitem_nat by lia.
    destruct (node_ids (tool app) !! j) as [start_pid|] eqn:Epid;
      [|apply lookup_ge_None in Epid; lia].
    set (d := mkDrag a j (get_position (tool app) a) start_pid).
    assert (Hmm : exists st0, mouse_moves d hits (tool app) = (Ok tt, st0)).
    { clear Hsame Hres. generalize (tool app) m Hm Hne. clear.
      induction hits as [|h hits IH]; intros st m Hm Hne; simpl; [by eexists|].
      unfold bind, drag_active_node_visual. destruct h as [p|]; [|by eapply IH].
      rewrite Hm. destruct (closest_in_mesh m p Hne) as [q ->].
      eapply (IH _ m); [|exact Hne]. exact Hm. }
    destruct Hmm as (st0 & Emm). rewrite Emm.
    destruct (mouse_moves_frame _ _ _ _ _ Emm) as [A0 N0].
    pose proof (session_inv_agree _ _ Hinv A0 N0) as I0.
    destruct (agree_fields _ _ A0) as (An & Ai & Ac & Acm).
    unfold OnLeftUp. cbn [tool undo_stack redo_stack active_node _drag_start_pid _drag_start_pos d].
    rewrite Acm, Hm.
    set (final_pos := get_position st0 a).
    destruct (negb (start_pid =? find_closest_point m final_pos)) eqn:Eneq.
    + destruct (execute_move_undoes st0 a (get_position (tool app) a) final_pos start_pid m j)
        as (c' & st1 & E & I1 & U); [exact I0|by rewrite Acm|by rewrite An|by rewrite Ai|].
      unfold CommandManager.execute. cbn [tool undo_stack redo_stack].
      rewrite E. cbn [tool undo_stack redo_stack].
      destruct I1 as (Hwf1 & I1').
      destruct (update_curve_ok st1 Hwf1) as (st2 & E2 & G2). rewrite E2.
      cbn [fst snd tool undo_stack].
      destruct (cache_grown_fields _ _ G2) as (_ & _ & _ & _ & _ & _ & _ & Gnext & _).
      split; [done|]. split.
      * eapply session_inv_agree; [split; [exact Hwf1|exact I1']| |exact Gnext].
        by apply agree_cache_grown.
      * exists [c']. split; [done|]. exists (tool app). split; [apply agree_refl|].
        eapply undoes_agree_r; [|apply agree_cache_grown; exact G2].
        eapply undoes_agree_l; [exact A0|exact U].
    + destruct (closest_in_mesh m final_pos Hne) as [q ->].
      cbn [tool undo_stack redo_stack].
      assert (I1 : session_inv (set_position st0 a q)).
      { eapply session_inv_agree; [exact I0|apply agree_set_position|done]. }
      pose proof I1 as (Hwf1 & _).
      destruct (update_curve_ok _ Hwf1) as (st2 & E2 & G2). rewrite E2.
      cbn [fst snd tool undo_stack].
      destruct (cache_grown_fields _ _ G2) as (_ & _ & _ & _ & _ & _ & _ & Gnext & _).
      split; [done|]. split.
      * eapply session_inv_agree; [exact I1|by apply agree_cache_grown|exact Gnext].
      * exists []. split; [done|]. simpl.
        eapply agree_trans; [exact A0|].
        eapply agree_trans; [apply agree_set_position|by apply agree_cache_grown].
  - unfold close_loop.
    destruct ((2 <? length (nodes (tool app)))%nat && negb (is_closed (tool app))) eqn:Eg;
      [|exact Hsame].
    apply andb_true_iff in Eg as [E2 Eo].
    apply Nat.ltb_lt in E2. apply negb_true_iff in Eo.
    destruct (execute_close_undoes _ Hinv E2 Eo) as (c' & st1 & E & I1 & U).
    unfold CommandManager.execute. rewrite E. simpl.
    split; [done|]. split; [exact I1|]. exists [c']. split; [done|].
    exists (tool app). split; [apply agree_refl|exact U].
  - destruct (execute_clear_undoes _ Hinv) as (c' & st1 & E & I1 & U).
    unfold CommandManager.execute. rewrite E. simpl.
    split; [done|]. split; [exact I1|]. exists [c']. split; [done|].
    exists (tool app). split; [apply agree_refl|exact U].
Qed.

Lemma perform_all_chain gs : forall app,
  session_inv (tool app) -> no_repeated_append gs app = true ->
  session_inv (tool (perform_all gs app)) /\
  exists cs, undo_stack (perform_all gs app) = cs ++ undo_stack app /\
             chain (tool app) cs (tool (perform_all gs app)).
Proof.
  induction gs as [|g gs IH]; intros app Hinv Hno; simpl in *.
  - split; [exact Hinv|]. exists []. split; [done|]. apply agree_refl.
  - apply andb_true_iff in Hno as [Hres Hno]. apply negb_true_iff in Hres.
    destruct (perform_chain g app Hinv Hres) as (_ & I1 & cs1 & S1 & C1).
    destruct (IH _ I1 Hno) as (I2 & cs2 & S2 & C2).
    split; [exact I2|]. exists (cs2 ++ cs1). split.
    + rewrite S2, S1. by rewrite app_assoc.
    + by eapply chain_app.
Qed.

Lemma undo_chain cs : forall st app rest,
  undo_stack app = cs ++ rest -> chain st cs (tool app) ->
  agree st (tool (undo_times (length cs) app)) /\
  undo_stack (undo_times (length cs) app) = rest.
Proof.
  induction cs as [|c cs IH]; intros st app rest Hs Hc; simpl in *.
  - done.
  - destruct Hc as (mid & Hc & Hu).
    destruct (Hu (tool app) (agree_refl _)) as (st2 & E & A2).
    assert (Eu : run CommandManager.undo app = mkApp st2 (cs ++ rest) (c :: redo_stack app)).
    { unfold run, CommandManager.undo. by rewrite Hs, E. }
    rewrite Eu. apply IH; [done|]. simpl. by eapply chain_agree_r.
Qed.

Lemma session_inv_demo_open_app : session_inv (tool demo_open_app).
Proof.
  assert (Hn : nodes (tool demo_open_app) = [0; 1; 2]%nat) by (vm_compute; reflexivity).
  assert (Ho : is_closed (tool demo_open_app) = false) by (vm_compute; reflexivity).
  assert (Hx : next_actor (tool demo_open_app) = 3%nat) by (vm_compute; reflexivity).
  assert (Hm : cur_mesh (tool demo_open_app) = Some demo_mesh) by (vm_compute; reflexivity).
  split; [exact wf_demo_open_app|]. split; [|split].
  - unfold loop_inv. rewrite Ho. discriminate.
  - rewrite Hn, Hx. repeat constructor.
  - exists demo_mesh. split; [exact Hm|]. unfold demo_mesh. simpl. discriminate.
Qed.

Lemma demo_session_no_repeated_append :
  no_repeated_append demo_session demo_open_app = true.
Proof. vm_compute. reflexivity. Qed.

(** X1. Undo round trip. From a session state, after any sequence of
    gestures none of which appends onto the vertex of the last anchor,
    undoing as many commands as the gestures pushed gives back the
    anchors, their vertices and the closed flag, and the undo stack, as
    they were before the sequence. *)
Theorem undo_round_trip gs app :
  session_inv (tool app) -> no_repeated_append gs app = true ->
  core (tool (undo_times (length (undo_stack (perform_all gs app)) -
                          length (undo_stack app)) (perform_all gs app)))
    = core (tool app) /\
  undo_stack (undo_times (length (undo_stack (perform_all gs app)) -
                          length (undo_stack app)) (perform_all gs app))
    = undo_stack app.
Proof.
  intros Hinv Hno.
  destruct (perform_all_chain gs app Hinv Hno) as (_ & cs & Hs & Hc).
  rewrite Hs, length_app, Nat.add_sub.
  destruct (undo_chain cs _ _ _ Hs Hc) as [[Hcore _] Hst]. done.
Qed.

Lemma undo_round_trip_witness :
  core (tool (undo_times (length (undo_stack (perform_all demo_session demo_open_app)) -
                          length (undo_stack demo_open_app))
                         (perform_all demo_session demo_open_app)))
    = core (tool demo_open_app) /\
  undo_stack (undo_times (length (undo_stack (perform_all demo_session demo_open_app)) -
                          length (undo_stack demo_open_app))
                         (perform_all demo_session demo_open_app))
    = undo_stack demo_open_app.
Proof.
  exact (undo_round_trip demo_session demo_open_app
           session_inv_demo_open_app demo_session_no_repeated_append).
Defined.

(** X2. Gestures keep the session invariant. From a session state, a
    gesture that does not append onto the vertex of the last anchor
    raises nothing and leaves a session state: as many anchors as
    vertices, every vertex on the mesh, and a closed loop of at least
    three anchors. *)
Theorem gesture_keeps_session_inv g app :
  session_inv (tool app) -> resolves_to_last g (tool app) = false ->
  fst (perform g app) = Ok tt /\ session_inv (tool (run (perform g) app)).
Proof.
  intros Hinv Hres.
  destruct (perform_chain g app Hinv Hres) as (Hok & I1 & _). done.
Qed.

Lemma demo_close_not_repeated_append :
  resolves_to_last GCloseLoop (tool demo_open_app) = false.
Proof. vm_compute. reflexivity. Qed.

Lemma gesture_keeps_session_inv_witness :
  fst (perform GCloseLoop demo_open_app) = Ok tt /\
  session_inv (tool (run (perform GCloseLoop) demo_open_app)).
Proof.
  exact (gesture_keeps_session_inv GCloseLoop demo_open_app
           session_inv_demo_open_app demo_close_not_repeated_append).
Defined.

(** ** The distance to a piece of the polyline *)





(** ** The barrier of the region extractor *)

Lemma first_facing_spec mesh_normals normal cands :
  Forall (fun q => 0 <= q) cands ->
  (exists pid pre post,
     first_facing mesh_normals normal cands = Some (Some pid) /\
     cands = pre ++ pid :: post /\ facing mesh_normals normal pid /\
     Forall (fun q => ~ facing mesh_normals normal q) pre) \/
  (first_facing mesh_normals normal cands = Some None /\
   Forall (fun q => ~ facing mesh_normals normal q) cands).
Proof.
  induction cands as [|q cands IH]; intros Hpos; simpl.
  - right. split; [done|constructor].
  - apply Forall_cons in Hpos as [Hq Hpos]. specialize (IH Hpos).
    assert (Hrest : ~ facing mesh_normals normal q ->
      (exists pid pre post,
         first_facing mesh_normals normal cands = Some (Some pid) /\
         q :: cands = pre ++ pid :: post /\ facing mesh_normals normal pid /\
         Forall (fun q => ~ facing mesh_normals normal q) pre) \/
      (first_facing mesh_normals normal cands = Some None /\
       Forall (fun q => ~ facing mesh_normals normal q) (q :: cands))).
    { intros Hnf. destruct IH as [(pid & pre & post & E & -> & Hf & Hpre)|[E Hall]].
      - left. exists pid, (q :: pre), post. split; [exact E|]. split; [done|].
        split; [exact Hf|]. by constructor.
      - right. split; [exact E|]. by constructor. }
    destruct (q <? Z.of_nat (length mesh_normals)) eqn:Elt.
    + apply Z.ltb_lt in Elt.
      destruct (py_getitem_is_Some mesh_normals q (conj Hq Elt)) as [n Hn]. rewrite Hn.
      destruct (Qltb (- (1 # 5)) (dot n normal)) eqn:Ed.
      * apply Qltb_lt in Ed. left. exists q, [], cands. split; [done|]. split; [done|].
        split; [|constructor]. split; [exact Elt|]. eauto.
      * apply Qltb_ge in Ed. apply Hrest. intros (_ & n' & Hn' & Hd).
        rewrite Hn in Hn'. injection Hn' as <-. lra.
    + apply Z.ltb_ge in Elt. apply Hrest. intros (Hlt & _). lia.
Qed.

(** X5. The barrier vertex chosen for a point of the path is one of
    its candidates, which are non-negative vertex ids: the first
    candidate whose normal makes a dot product above -0.2 with the loop
    normal, and the first candidate of all when no candidate does. *)
Theorem pick_barrier_point_first_facing mesh_normals normal cands :
  cands <> [] -> Forall (fun q => 0 <= q) cands ->
  exists pid,
    pick_barrier_point mesh_normals normal cands = Some pid /\
    ((exists pre post, cands = pre ++ pid :: post /\ facing mesh_normals normal pid /\
                       Forall (fun q => ~ facing mesh_normals normal q) pre) \/
     (head cands = Some pid /\ Forall (fun q => ~ facing mesh_normals normal q) cands)).
Proof.
  intros Hne Hpos. unfold pick_barrier_point.
  destruct cands as [|best_pid rest] eqn:Ec; [done|]. rewrite <- Ec in *.
  destruct (first_facing_spec mesh_normals normal cands Hpos)
    as [(pid & pre & post & E & Hc & Hf & Hpre)|[E Hall]]; rewrite E; simpl.
  - exists pid. split; [done|]. left. eauto.
  - exists best_pid. split; [done|]. right. split; [by rewrite Ec|exact Hall].
Qed.

Lemma pick_barrier_point_first_facing_witness :
  exists pid,
    pick_barrier_point [(0, 0, -1)%Q; (0, 0, 1)%Q] (0, 0, 1)%Q [0; 1; 2] = Some pid /\
    ((exists pre post, [0; 1; 2] = pre ++ pid :: post /\
                       facing [(0, 0, -1)%Q; (0, 0, 1)%Q] (0, 0, 1)%Q pid /\
                       Forall (fun q => ~ facing [(0, 0, -1)%Q; (0, 0, 1)%Q] (0, 0, 1)%Q q) pre) \/
     (head [0; 1; 2] = Some pid /\
      Forall (fun q => ~ facing [(0, 0, -1)%Q; (0, 0, 1)%Q] (0, 0, 1)%Q q) [0; 1; 2])).
Proof.
  apply (pick_barrier_point_first_facing [(0, 0, -1)%Q; (0, 0, 1)%Q] (0, 0, 1)%Q [0; 1; 2]).
  - discriminate.
  - repeat constructor; lia.
Defined.

Lemma mark_all_spec (n : nat) (l : list Z) :
  Forall (fun pid => 0 <= pid < Z.of_nat n) l ->
  exists a,
    foldr (fun pid acc => a ← acc; py_setitem a pid 1) (Some (replicate n 0)) l = Some a /\
    length a = n /\
    forall i, (i < n)%nat ->
              a !! i = Some (if bool_decide (Z.of_nat i ∈ l) then 1 else 0).
Proof.
  induction l as [|pid l IH]; intros Hall; cbn [foldr].
  - exists (replicate n 0). split; [done|]. split; [apply length_replicate|].
    intros i Hi. rewrite lookup_replicate_2 by done.
    rewrite bool_decide_eq_false_2; [done|]. apply not_elem_of_nil.
  - apply Forall_cons in Hall as [Hpid Hall].
    destruct (IH Hall) as (a & E & Hlen & Hlook). rewrite E. simpl.
    unfold py_setitem. rewrite py_norm_index_nonneg by lia. simpl.
    eexists. split; [done|]. split; [by rewrite length_insert|].
    intros i Hi. destruct (decide (i = Z.to_nat pid)) as [->|Hne].
    + rewrite list_lookup_insert_eq by lia.
      rewrite bool_decide_eq_true_2; [done|]. rewrite Z2Nat.id by lia. apply elem_of_cons. by left.
    + rewrite list_lookup_insert_ne by done. rewrite (Hlook i Hi).
      destruct (decide (Z.of_nat i ∈ l)) as [Hin|Hnin].
      * rewrite !bool_decide_eq_true_2; [done| |done]. apply elem_of_cons. by right.
      * rewrite !bool_decide_eq_false_2; [done| |done].
        intros Hin. apply elem_of_cons in Hin as [Heq|Hin]; [|done]. lia.
Qed.

(** X6. For a barrier of non-negative vertex ids the array written as
    [is_barrier] has one entry per vertex of the mesh, 1 at the vertices
    of the barrier and 0 elsewhere; ids beyond the mesh are dropped. *)
Theorem barrier_scalars_marks (n : nat) (barrier_ids : gset Z) :
  (forall pid, pid ∈ barrier_ids -> 0 <= pid) ->
  exists scalars,
    barrier_scalars n barrier_ids = Some scalars /\
    length scalars = n /\
    forall i, (i < n)%nat ->
              scalars !! i = Some (if bool_decide (Z.of_nat i ∈ barrier_ids) then 1 else 0).
Proof.
  intros Hpos. unfold barrier_scalars.
  set (l := filter (fun pid => pid < Z.of_nat n) (elements barrier_ids)).
  assert (Hl : forall pid, pid ∈ l <-> pid ∈ barrier_ids /\ pid < Z.of_nat n).
  { intros pid. unfold l. rewrite list_elem_of_filter, elem_of_elements. tauto. }
  destruct (mark_all_spec n l) as (a & E & Hlen & Hlook).
  { apply Forall_forall. intros pid Hin. apply Hl in Hin as [Hin Hlt].
    specialize (Hpos pid Hin). lia. }
  exists a. split; [exact E|]. split; [exact Hlen|].
  intros i Hi. rewrite (Hlook i Hi). f_equal.
  destruct (decide (Z.of_nat i ∈ barrier_ids)) as [Hin|Hnin].
  - rewrite !bool_decide_eq_true_2; [done|done|]. apply Hl. split; [done|lia].
  - rewrite !bool_decide_eq_false_2; [done|done|]. intros Hin. by apply Hl in Hin as [Hin _].
Qed.

Lemma barrier_scalars_marks_witness :
  exists scalars,
    barrier_scalars 4 {[1; 3; 7]} = Some scalars /\
    length scalars = 4%nat /\
    forall i, (i < 4)%nat ->
              scalars !! i = Some (if bool_decide (Z.of_nat i ∈ ({[1; 3; 7]} : gset Z))
                                   then 1 else 0).
Proof.
  apply (barrier_scalars_marks 4 {[1; 3; 7]}).
  intros pid Hin. apply elem_of_union in Hin as [Hin|Hin].
  - apply elem_of_union in Hin as [Hin|Hin]; apply elem_of_singleton in Hin; lia.
  - apply elem_of_singleton in Hin. lia.
Defined.

(** ** The search that closes the gaps of the barrier *)

Lemma walk_snoc d u p v :
  walk d u p -> (exists cur, last (u :: p) = Some cur /\ adjacent d cur v) ->
  walk d u (p ++ [v]).
Proof.
  revert u. induction p as [|w p IH]; intros u Hw (cur & Hl & Ha); simpl in *.
  - injection Hl as <-. done.
  - destruct Hw as [H1 H2]. split; [exact H1|]. apply IH; [exact H2|].
    exists cur. split; [|exact Ha]. destruct p; done.
Qed.

Lemma last_snoc_cons (u : Z) p v : last (u :: p ++ [v]) = Some v.
Proof. change (u :: p ++ [v]) with ((u :: p) ++ [v]). apply last_snoc. Qed.

Lemma elem_of_concat (ls : list (list Z)) x :
  x ∈ concat ls <-> exists l, l ∈ ls /\ x ∈ l.
Proof.
  induction ls as [|l ls IH]; simpl.
  - split; [intros H; by apply not_elem_of_nil in H|].
    intros (l & H & _). by apply not_elem_of_nil in H.
  - rewrite elem_of_app, IH. split.
    + intros [H|(l' & H1 & H2)].
      * exists l. split; [apply elem_of_cons; by left|done].
      * exists l'. split; [apply elem_of_cons; by right|done].
    + intros (l' & H1 & H2). apply elem_of_cons in H1 as [->|H1]; [by left|].
      right. eauto.
Qed.

Lemma walk_in_cell d u p x : walk d u p -> x ∈ p -> x ∈ concat (cells d).
Proof.
  revert u. induction p as [|w p IH]; intros u Hw Hx; simpl in *.
  - by apply not_elem_of_nil in Hx.
  - destruct Hw as [(c & Hc & _ & Hwc) Hw]. apply elem_of_cons in Hx as [->|Hx].
    + apply elem_of_concat. eauto.
    + by eapply IH.
Qed.

Lemma cells_of_point_spec d cur i c :
  (i, c) ∈ cells_of_point d cur -> c ∈ cells d /\ cur ∈ c.
Proof.
  unfold cells_of_point. rewrite list_elem_of_filter. intros [Hin Hc].
  apply bool_decide_unpack in Hin. simpl in Hin. split; [|exact Hin].
  apply elem_of_lookup_imap in Hc as (j & c' & [= -> ->] & Hj).
  by eapply list_elem_of_lookup_2.
Qed.

Lemma scan_cell_ok d src e cur path c cell s :
  walk d src path -> last (src :: path) = Some cur -> (length path <= 20)%nat ->
  c ∈ cells d -> cur ∈ c -> cell ⊆ c ->
  bfs_ok d src e s -> bfs_ok d src e (scan_cell e path cell s).
Proof.
  intros Hw Hl Hlen Hc Hcur. revert s.
  induction cell as [|neigh rest IH]; intros s Hsub Hok; simpl; [exact Hok|].
  assert (Hn : neigh ∈ c) by (apply Hsub, elem_of_cons; by left).
  assert (Hrest : rest ⊆ c) by (intros x Hx; apply Hsub, elem_of_cons; by right).
  destruct (neigh =? e) eqn:Ee.
  - apply Z.eqb_eq in Ee. subst neigh. destruct Hok as [Hq _]. split; [exact Hq|].
    simpl. intros p [= <-]. split; [exact Hw|]. split; [exact Hlen|].
    exists cur. split; [exact Hl|]. by exists c.
  - destruct (bool_decide (neigh ∈ bfs_vis s)); [by apply IH|].
    apply IH; [exact Hrest|]. destruct Hok as [Hq Hf]. split; [|exact Hf].
    simpl. intros cur' path' Hin. apply elem_of_app in Hin as [Hin|Hin]; [by apply Hq|].
    apply list_elem_of_singleton in Hin. injection Hin as -> ->.
    split; [|apply last_snoc_cons].
    apply walk_snoc; [exact Hw|]. exists cur. split; [exact Hl|]. by exists c.
Qed.

Lemma scan_cells_ok d src e cur path cs s :
  walk d src path -> last (src :: path) = Some cur -> (length path <= 20)%nat ->
  (forall ic, ic ∈ cs -> snd ic ∈ cells d /\ cur ∈ snd ic) ->
  bfs_ok d src e s -> bfs_ok d src e (scan_cells e path cs s).
Proof.
  intros Hw Hl Hlen. revert s.
  induction cs as [|ic cs IH]; intros s Hcs Hok; simpl; [exact Hok|].
  destruct (Hcs ic) as [Hc Hcur]; [apply elem_of_cons; by left|].
  assert (Hok' : bfs_ok d src e (scan_cell e path (snd ic) s)).
  { eapply scan_cell_ok; eauto. }
  destruct (truthy (bfs_found (scan_cell e path (snd ic) s))); [exact Hok'|].
  apply IH; [|exact Hok']. intros ic' Hin. apply Hcs, elem_of_cons. by right.
Qed.

Lemma bfs_loop_ok fuel d src e : forall s,
  bfs_ok d src e s -> bfs_ok d src e (bfs_loop fuel d e s).
Proof.
  induction fuel as [|fuel IH]; intros s Hok; simpl; [exact Hok|].
  destruct (bfs_q s) as [|[cur path] q'] eqn:Eq; [exact Hok|].
  assert (Hok1 : bfs_ok d src e (mkBfs q' (bfs_vis s) (bfs_found s))).
  { destruct Hok as [Hq Hf]. split; [|exact Hf]. simpl. intros c p Hin.
    apply Hq. rewrite Eq. apply elem_of_cons. by right. }
  destruct (Hok) as [Hq _]. destruct (Hq cur path) as [Hw Hl];
    [rewrite Eq; apply elem_of_cons; by left|].
  destruct (20 <? length path)%nat eqn:Elen; [by apply IH|].
  apply Nat.ltb_ge in Elen.
  assert (Hok2 : bfs_ok d src e
            (scan_cells e path (cells_of_point d cur) (mkBfs q' (bfs_vis s) (bfs_found s)))).
  { eapply scan_cells_ok; eauto. intros [i c] Hin. simpl. by eapply cells_of_point_spec. }
  destruct (truthy _); [exact Hok2|]. by apply IH.
Qed.

Lemma bfs_ok_init d src e : bfs_ok d src e (mkBfs [(src, [])] {[src]} None).
Proof.
  split; simpl; [|done]. intros cur path Hin. apply list_elem_of_singleton in Hin.
  injection Hin as -> ->. done.
Qed.

Lemma bfs_found_sound (fuel : nat) (d : Dataset) (src e : Z) (path : list Z) :
  bfs_found (bfs_loop fuel d e (mkBfs [(src, [])] {[src]} None)) = Some path ->
  walk d src path /\ (length path <= 20)%nat /\
  exists cur, last (src :: path) = Some cur /\ adjacent d cur e.
Proof.
  intros H. destruct (bfs_loop_ok fuel d src e _ (bfs_ok_init d src e)) as [_ Hf].
  by apply Hf.
Qed.

(** X7. Whatever path the search from [src] for [e] reports, however
    long it was allowed to run, is a chain of at most 20 vertices: the
    first shares a cell with [src], each one shares a cell with the one
    before it, and the last shares a cell with [e]. *)
Theorem bfs_found_is_walk (fuel : nat) (d : Dataset) (src e : Z) (path : list Z) :
  bfs_found (bfs_loop fuel d e (mkBfs [(src, [])] {[src]} None)) = Some path ->
  walk d src path /\ (length path <= 20)%nat /\
  exists cur, last (src :: path) = Some cur /\ adjacent d cur e.
Proof.
  apply bfs_found_sound.
Qed.

Lemma demo_strip_search :
  bfs_found (bfs_loop 5 demo_strip 6 (mkBfs [(0, [])] {[0]} None)) = Some [2; 4].
Proof. vm_compute. reflexivity. Qed.

Lemma bfs_found_is_walk_witness :
  walk demo_strip 0 [2; 4] /\ (length [2; 4] <= 20)%nat /\
  exists cur, last (0 :: [2; 4]) = Some cur /\ adjacent demo_strip cur 6.
Proof. exact (bfs_found_is_walk 5 demo_strip 0 6 [2; 4] demo_strip_search). Defined.

Lemma size_list_to_set_le (l : list Z) : (size (list_to_set l : gset Z) <= length l)%nat.
Proof.
  induction l as [|x l IH].
  { rewrite list_to_set_nil, size_empty. done. }
  rewrite list_to_set_cons, size_union_alt, size_singleton. cbn [length].
  pose proof (subseteq_size (list_to_set l ∖ {[x]}) (list_to_set l : gset Z)) as H.
  assert (Hs : (list_to_set l ∖ {[x]} : gset Z) ⊆ list_to_set l)
    by apply subseteq_difference_l, reflexivity.
  specialize (H Hs). lia.
Qed.

Lemma size_bfs_universe d src :
  (size (bfs_universe d src) <= S (length (concat (cells d))))%nat.
Proof.
  unfold bfs_universe. rewrite size_union_alt, size_singleton.
  pose proof (size_list_to_set_le (concat (cells d))) as H1.
  pose proof (subseteq_size (list_to_set (concat (cells d)) ∖ {[src]})
                (list_to_set (concat (cells d)) : gset Z)) as H2.
  assert (Hs : (list_to_set (concat (cells d)) ∖ {[src]} : gset Z)
                 ⊆ list_to_set (concat (cells d)))
    by apply subseteq_difference_l, reflexivity.
  specialize (H2 Hs). lia.
Qed.

Lemma scan_cell_count (U : gset Z) e path cell : forall s,
  (forall x, x ∈ cell -> x ∈ U) -> bfs_vis s ⊆ U ->
  bfs_vis (scan_cell e path cell s) ⊆ U /\
  (length (bfs_q (scan_cell e path cell s)) + size (bfs_vis s) =
   length (bfs_q s) + size (bfs_vis (scan_cell e path cell s)))%nat.
Proof.
  induction cell as [|neigh rest IH]; intros s Hc Hv; simpl; [done|].
  assert (Hrest : forall x, x ∈ rest -> x ∈ U)
    by (intros x Hx; apply Hc, elem_of_cons; by right).
  destruct (neigh =? e); [done|].
  destruct (bool_decide (neigh ∈ bfs_vis s)) eqn:Ev; [by apply IH|].
  apply bool_decide_eq_false in Ev.
  assert (Hn : neigh ∈ U) by (apply Hc, elem_of_cons; by left).
  destruct (IH (mkBfs (bfs_q s ++ [(neigh, path ++ [neigh])]) ({[neigh]} ∪ bfs_vis s)
                      (bfs_found s)) Hrest) as [H1 H2].
  { simpl. apply union_subseteq. split; [by apply singleton_subseteq_l|exact Hv]. }
  split; [exact H1|]. simpl in H2.
  rewrite length_app, size_union, size_singleton in H2 by (by apply disjoint_singleton_l).
  simpl in H2. lia.
Qed.

Lemma scan_cells_count (U : gset Z) e path cs : forall s,
  (forall ic x, ic ∈ cs -> x ∈ snd ic -> x ∈ U) -> bfs_vis s ⊆ U ->
  bfs_vis (scan_cells e path cs s) ⊆ U /\
  (length (bfs_q (scan_cells e path cs s)) + size (bfs_vis s) =
   length (bfs_q s) + size (bfs_vis (scan_cells e path cs s)))%nat.
Proof.
  induction cs as [|ic cs IH]; intros s Hc Hv; simpl; [done|].
  destruct (scan_cell_count U e path (snd ic) s) as [H1 H2];
    [intros x Hx; eapply Hc; [apply elem_of_cons; by left|done]|exact Hv|].
  destruct (truthy (bfs_found (scan_cell e path (snd ic) s))); [done|].
  destruct (IH (scan_cell e path (snd ic) s)) as [H3 H4];
    [intros ic' x Hin Hx; eapply Hc; [apply elem_of_cons; by right|done]|exact H1|].
  split; [exact H3|]. lia.
Qed.

Lemma cells_of_point_universe d src cur ic x :
  ic ∈ cells_of_point d cur -> x ∈ snd ic -> x ∈ bfs_universe d src.
Proof.
  destruct ic as [i c]. intros Hin Hx. apply cells_of_point_spec in Hin as [Hc _].
  unfold bfs_universe. apply elem_of_union. right.
  apply elem_of_list_to_set, elem_of_concat. eauto.
Qed.

Lemma bfs_loop_more_fuel d src e fuel : forall s extra,
  bfs_vis s ⊆ bfs_universe d src ->
  (length (bfs_q s) + size (bfs_universe d src) < fuel + size (bfs_vis s))%nat ->
  bfs_loop (fuel + extra) d e s = bfs_loop fuel d e s.
Proof.
  induction fuel as [|fuel IH]; intros s extra Hv Hm.
  - pose proof (subseteq_size _ _ Hv). destruct (bfs_q s) eqn:Eq; simpl in Hm; [|lia].
    destruct extra; simpl; [done|]. by rewrite Eq.
  - simpl. destruct (bfs_q s) as [|[cur path] q'] eqn:Eq; [done|]. simpl in Hm.
    destruct (20 <? length path)%nat.
    + apply IH; simpl; [exact Hv|lia].
    + destruct (scan_cells_count (bfs_universe d src) e path (cells_of_point d cur)
                  (mkBfs q' (bfs_vis s) (bfs_found s))) as [H1 H2];
        [intros ic x; apply cells_of_point_universe|exact Hv|].
      simpl in H2. destruct (truthy _); [done|]. apply IH; [exact H1|lia].
Qed.

(** X8. The search loop leaves on its own within its bound of two more
    iterations than the cells have vertex slots: letting it run longer
    changes nothing of what it returns. *)
Theorem bfs_loop_exits_within_bound (d : Dataset) (src e : Z) (extra : nat) :
  bfs_loop (bfs_fuel d + extra) d e (mkBfs [(src, [])] {[src]} None) =
  bfs_loop (bfs_fuel d) d e (mkBfs [(src, [])] {[src]} None).
Proof.
  apply (bfs_loop_more_fuel d src); cbn [bfs_vis bfs_q length].
  - unfold bfs_universe. apply union_subseteq_l.
  - pose proof (size_bfs_universe d src). rewrite size_singleton. unfold bfs_fuel. lia.
Qed.

Lemma dedup_adjacent_elem prev ids x :
  x ∈ prev :: dedup_adjacent prev ids <-> x ∈ prev :: ids.
Proof.
  revert prev. induction ids as [|pid ids IH]; intros prev; simpl; [done|].
  destruct (pid =? prev) eqn:E.
  - apply Z.eqb_eq in E. subst pid. rewrite IH. rewrite !elem_of_cons. tauto.
  - rewrite (elem_of_cons (pid :: _)), IH. rewrite !elem_of_cons. tauto.
Qed.

Lemma barrier_loop_bounds d ordered_ids : forall final x,
  (x ∈ final -> x ∈ barrier_loop d ordered_ids final) /\
  (x ∈ barrier_loop d ordered_ids final -> x ∈ final \/ x ∈ concat (cells d)).
Proof.
  induction ordered_ids as [|s rest IH]; intros final x; [simpl; tauto|].
  destruct rest as [|e rest']; [simpl; tauto|].
  change (barrier_loop d (s :: e :: rest') final) with
    (if bool_decide (Exists (fun c => c ∈ point_cell_ids d e) (point_cell_ids d s))
     then barrier_loop d (e :: rest') final
     else
       let r := bfs_loop (bfs_fuel d) d e (mkBfs [(s, [])] {[s]} None) in
       barrier_loop d (e :: rest')
         (if truthy (bfs_found r) then list_to_set (default [] (bfs_found r)) ∪ final
          else final)).
  destruct (bool_decide _); [apply IH|]. cbv zeta.
  set (r := bfs_loop (bfs_fuel d) d e (mkBfs [(s, [])] {[s]} None)).
  destruct (truthy (bfs_found r)) eqn:Et; [|apply IH].
  destruct (bfs_found r) as [p|] eqn:Ef; [|done]. cbn [default].
  destruct (bfs_found_sound (bfs_fuel d) d s e p Ef) as (Hw & _).
  destruct (IH (list_to_set p ∪ final) x) as [H1 H2]. split.
  - intros Hx. apply H1, elem_of_union. by right.
  - intros Hx. destruct (H2 Hx) as [Hin|Hin]; [|by right].
    apply elem_of_union in Hin as [Hin|Hin]; [|by left].
    right. apply elem_of_list_to_set in Hin. by eapply walk_in_cell.
Qed.

(** X9. The watertight barrier holds every vertex id it was given, and
    whatever else it holds is a vertex of a cell of the mesh. *)
Theorem make_barrier_watertight_bounds (d : Dataset) (initial_ids : list Z) (x : Z) :
  (x ∈ initial_ids -> x ∈ _make_barrier_watertight d initial_ids) /\
  (x ∈ _make_barrier_watertight d initial_ids ->
   x ∈ initial_ids \/ x ∈ concat (cells d)).
Proof.
  unfold _make_barrier_watertight. destruct initial_ids as [|first rest].
  - split; [intros H; by apply not_elem_of_nil in H|].
    intros H. by apply not_elem_of_empty in H.
  - destruct (barrier_loop_bounds d (first :: dedup_adjacent first rest)
                (list_to_set (first :: dedup_adjacent first rest)) x) as [H1 H2].
    split.
    + intros Hx. apply H1. rewrite elem_of_list_to_set.
      exact (proj2 (dedup_adjacent_elem first rest x) Hx).
    + intros Hx. destruct (H2 Hx) as [Hin|Hin]; [|by right].
      left. rewrite elem_of_list_to_set in Hin.
      exact (proj1 (dedup_adjacent_elem first rest x) Hin).
Qed.

(** ** What a successful extraction returns *)

Section ExtractionResult.

Variable norm : point -> Q.
Variable ray_trace : Dataset -> point -> point -> option (list point).
Variable kd_query : list point -> list point -> nat -> option (list (list Z)).
Variable compute_normals : Dataset -> Dataset.
Variable extract_surface : Dataset -> Dataset.
Variable threshold_value : Q -> string -> bool -> Dataset -> Dataset.
Variable threshold_range : Q -> Q -> string -> Dataset -> Dataset.
Variable connectivity : Dataset -> Dataset.
Variable clean : Dataset -> Dataset.



End ExtractionResult.



(** ** Clicks and keys *)

Lemma all_dists_index hit_pos segs x :
  x ∈ all_dists hit_pos segs -> fst x ∈ map fst segs.
Proof.
  unfold all_dists. induction segs as [|s segs IH]; simpl.
  - intros H. by apply not_elem_of_nil in H.
  - intros H. apply elem_of_app in H as [H|H].
    + apply list_elem_of_fmap in H as (d & -> & _). simpl. apply elem_of_cons. by left.
    + apply elem_of_cons. right. by apply IH.
Qed.

(** The index resolved for a hit is -1 or the index of a segment of the
    curve, and resolving changes nothing but the cache. *)
Lemma resolve_insertion_index_range st hit_pos :
  wf st ->
  exists r st',
    _resolve_insertion_index hit_pos st = (Ok r, st') /\ cache_grown st st' /\
    (r = -1 \/ exists i, r = Z.of_nat i /\ i ∈ segment_range st).
Proof.
  intros Hwf. unfold _resolve_insertion_index.
  destruct (length (nodes st) <? 2)%nat eqn:E2.
  { exists (-1), st. split; [done|]. split; [apply cache_grown_refl|by left]. }
  destruct (polylines_loop_ok (segment_range st) st Hwf (segment_range_lt st))
    as (segs & st' & E & Hmap & Hget).
  pose proof (polylines_loop_frame _ _ _ _ _ E) as G.
  pose proof (first_min_fold (all_dists hit_pos segs) [] (-1, None)
                (conj eq_refl eq_refl)) as Hmin.
  cbn [app] in Hmin.
  unfold bind. rewrite (resolve_loop_polylines hit_pos _ _ _ _ _ _ E).
  eexists _, st'. split; [reflexivity|]. split; [exact G|].
  unfold first_min in Hmin.
  destruct (snd (fold_left scan_step (all_dists hit_pos segs) (-1, None))) as [d|];
    [|by left].
  destruct (Qltb d (threshold_sq st)); [|by left].
  destruct Hmin as (i & pre & post & Hl & Hi & _). right. exists i. split; [exact Hi|].
  rewrite <- Hmap.
  apply (all_dists_index hit_pos segs (i, d)). rewrite Hl.
  apply elem_of_app. right. apply elem_of_cons. by left.
Qed.

Lemma is_noop_append_last st pid idx :
  is_noop_append st pid idx = (idx =? -1) && bool_decide (last (node_ids st) = Some pid).
Proof.
  unfold is_noop_append. destruct (node_ids st) as [|x l] eqn:E; simpl; [|done].
  rewrite andb_false_r. done.
Qed.

Lemma execute_add_shape st m pos idx :
  session_inv st -> cur_mesh st = Some m ->
  exists c' st1,
    BezierCmd.execute (new_BezierCmdAdd pos idx) st = (Ok c', st1) /\
    if is_noop_append st (find_closest_point m pos) idx then st1 = st
    else exists p, cache_grown (inserted st p (find_closest_point m pos) idx) st1.
Proof.
  intros (Hwf & Hinv & Hfresh & m0 & Hm0 & Hne) Hm.
  rewrite Hm in Hm0. injection Hm0 as <-.
  pose proof Hwf as (Hlen & _).
  destruct (is_noop_append st (find_closest_point m pos) idx) eqn:Hno.
  - rewrite is_noop_append_last in Hno. apply andb_true_iff in Hno as [Hi Hl].
    apply Z.eqb_eq in Hi. subst idx. apply bool_decide_eq_true in Hl.
    destruct (last (nodes st)) as [a|] eqn:Ha.
    2:{ apply last_None in Ha. rewrite Ha in Hlen. destruct (node_ids st); done. }
    assert (Hin : a ∈ nodes st).
    { apply last_Some in Ha as (l' & ->). apply elem_of_app. right.
      apply elem_of_cons. by left. }
    destruct (py_index a (nodes st)) as [i|] eqn:Hidx.
    2:{ exfalso. by eapply py_index_None. }
    eexists _, st. split; [|done].
    unfold BezierCmd.execute, new_BezierCmdAdd, bind.
    rewrite (add_node_noop st m pos a Hm Hl Ha). simpl. by rewrite Hidx.
  - destruct (closest_in_mesh m pos Hne) as [p Hp].
    destruct (add_node_new_ok st m pos idx p Hwf Hm Hp Hno) as (st1 & E & G).
    destruct (inserted_position st p (find_closest_point m pos) idx Hlen)
      as (j & Hj & Hn & _).
    destruct (cache_grown_fields _ _ G) as (Gn & _).
    rewrite Hn in Gn.
    assert (Hidx : py_index (next_actor st) (nodes st1) = Some j).
    { rewrite Gn. apply py_index_insert_fresh; [|exact Hj]. by apply fresh_not_in. }
    eexists _, st1. split; [|by exists p].
    unfold BezierCmd.execute, new_BezierCmdAdd, bind. rewrite E. simpl. by rewrite Hidx.
Qed.

Lemma session_inv_cache_grown st st' : cache_grown st st' -> session_inv st -> session_inv st'.
Proof.
  intros G (Hwf & Hinv & Hfresh & m & Hm & Hne).
  destruct (cache_grown_fields _ _ G) as (Gn & Gi & Gc & Gcm & _ & _ & _ & Gnext & _).
  split; [by eapply wf_cache_grown|]. split; [|split].
  - unfold loop_inv. by rewrite Gc, Gn.
  - by rewrite Gn, Gnext.
  - exists m. by rewrite Gcm.
Qed.

(** X11. A click on the mesh where no handle of the store is under
    the pointer adds an anchor on the vertex nearest to the hit: after
    anchor [r] when the hit resolves to segment [r] of the curve, at the
    end otherwise, where a vertex equal to that of the last anchor adds
    nothing.  The other vertex ids keep their order, the closed flag is
    kept, and one command is recorded. *)
Theorem click_adds_anchor (app : App) (picked_node : option actor) (hit_pos : point)
    (m : Dataset) :
  session_inv (tool app) -> cur_mesh (tool app) = Some m ->
  OnLeftDown_node picked_node (tool app) = Ok None ->
  exists r app' c,
    fst (_resolve_insertion_index hit_pos (tool app)) = Ok r /\
    (r = -1 \/ exists i, r = Z.of_nat i /\ i ∈ segment_range (tool app)) /\
    OnLeftDown picked_node (Some hit_pos) app = (Ok None, app') /\
    node_ids (tool app') =
      ids_after_click (node_ids (tool app)) r (find_closest_point m hit_pos) /\
    length (nodes (tool app')) = length (node_ids (tool app')) /\
    is_closed (tool app') = is_closed (tool app) /\
    undo_stack app' = c :: undo_stack app.
Proof.
  intros Hinv Hm Hpick.
  pose proof Hinv as (Hwf & _). pose proof Hwf as (Hlen & _).
  destruct (resolve_insertion_index_range (tool app) hit_pos Hwf)
    as (r & st' & E & G & Hr).
  destruct (cache_grown_fields _ _ G) as (Gn & Gi & Gc & Gcm & _).
  pose proof (session_inv_cache_grown _ _ G Hinv) as Hinv'.
  assert (Hm' : cur_mesh st' = Some m) by (by rewrite Gcm).
  destruct (execute_add_shape st' m hit_pos r Hinv' Hm') as (c' & st1 & Ex & Hshape).
  exists r, (mkApp st1 (c' :: undo_stack app) []), c'.
  split; [by rewrite E|]. split; [exact Hr|]. split.
  { unfold OnLeftDown. rewrite Hpick, E.
    unfold add_node_at, CommandManager.execute. cbn [tool undo_stack redo_stack].
    by rewrite Ex. }
  cbn [tool undo_stack]. rewrite is_noop_append_last, Gi in Hshape.
  unfold ids_after_click.
  destruct (r =? -1) eqn:Er.
  - apply Z.eqb_eq in Er. subst r.
    destruct (bool_decide (last (node_ids (tool app)) = Some (find_closest_point m hit_pos)));
      simpl in Hshape.
    + subst st1. rewrite Gn, Gi, Gc. done.
    + destruct Hshape as (p & G1).
      destruct (cache_grown_fields _ _ G1) as (Hn1 & Hi1 & Hc1 & _).
      rewrite Hn1, Hi1, Hc1. unfold inserted. simpl. rewrite Gn, Gi, Gc.
      rewrite !length_app. simpl. split; [done|]. split; [lia|done].
  - simpl in Hshape. destruct Hshape as (p & G1).
    destruct (cache_grown_fields _ _ G1) as (Hn1 & Hi1 & Hc1 & _).
    rewrite Hn1, Hi1, Hc1. unfold inserted. rewrite Er. simpl. rewrite Gn, Gi, Gc.
    rewrite !py_insert_length.
    destruct Hr as [->|(i & -> & Hi)]; [done|].
    apply elem_of_seq in Hi.
    assert (Hlt : (i < length (node_ids (tool app)))%nat)
      by (rewrite <- Hlen; destruct (is_closed (tool app)); lia).
    rewrite py_insert_clamp. unfold clamp_index.
    replace (Z.of_nat i + 1 <? 0) with false by (symmetry; apply Z.ltb_ge; lia).
    replace (Z.to_nat (Z.min (Z.of_nat i + 1) (Z.of_nat (length (node_ids (tool app))))))
      with (Z.to_nat (Z.of_nat i + 1)) by lia.
    split; [done|]. split; [lia|done].
Qed.

Lemma demo_open_app_mesh : cur_mesh (tool demo_open_app) = Some demo_mesh.
Proof. vm_compute. reflexivity. Qed.

Lemma demo_open_app_no_pick : OnLeftDown_node None (tool demo_open_app) = Ok None.
Proof. vm_compute. reflexivity. Qed.

Lemma click_adds_anchor_witness :
  exists r app' c,
    fst (_resolve_insertion_index (demo_point 2 0 0) (tool demo_open_app)) = Ok r /\
    (r = -1 \/ exists i, r = Z.of_nat i /\ i ∈ segment_range (tool demo_open_app)) /\
    OnLeftDown None (Some (demo_point 2 0 0)) demo_open_app = (Ok None, app') /\
    node_ids (tool app') =
      ids_after_click (node_ids (tool demo_open_app)) r
                      (find_closest_point demo_mesh (demo_point 2 0 0)) /\
    length (nodes (tool app')) = length (node_ids (tool app')) /\
    is_closed (tool app') = is_closed (tool demo_open_app) /\
    undo_stack app' = c :: undo_stack demo_open_app.
Proof.
  exact (click_adds_anchor demo_open_app None (demo_point 2 0 0) demo_mesh
           session_inv_demo_open_app demo_open_app_mesh demo_open_app_no_pick).
Defined.

Lemma last_getitem {A} (l : list A) : py_getitem l (-1) = last l.
Proof.
  unfold py_getitem, py_norm_index. destruct l as [|x l] using rev_ind; [done|].
  rewrite length_app. simpl.
  replace ((0 <=? -1) && (-1 <? Z.of_nat (length l + 1))) with false by done.
  replace ((- Z.of_nat (length l + 1) <=? -1) && (-1 <? 0)) with true
    by (symmetry; apply andb_true_iff; split; [apply Z.leb_le; lia|done]).
  simpl. replace (Z.to_nat (-1 + Z.of_nat (length l + 1))) with (length l) by lia.
  rewrite last_snoc. by apply list_lookup_middle.
Qed.

Lemma delete_last_snoc {A} (l : list A) x : delete (length l) (l ++ [x]) = l.
Proof. induction l as [|y l IH]; simpl; [done|]. by rewrite IH. Qed.

Lemma delete_last_lookup {A} (l : list A) n x :
  l !! n = Some x -> length l = S n -> l = delete n l ++ [x].
Proof.
  revert n. induction l as [|y l IH]; intros n Hl Hlen; [done|].
  destruct n as [|n]; simpl in *.
  - injection Hl as ->. destruct l; [done|simpl in Hlen; lia].
  - f_equal. apply IH; [done|lia].
Qed.

(** X12. With no handle active, the Delete or BackSpace key on a store
    of distinct handles takes the last anchor out: the handles and the
    vertex ids lose their last element, a loop left with fewer than
    three anchors is opened, the key is reported as handled and one
    command is recorded. *)
Theorem delete_key_removes_last_anchor (key : string) (app : App) (a : actor) :
  session_inv (tool app) -> NoDup (nodes (tool app)) ->
  last (nodes (tool app)) = Some a -> key = "Delete" \/ key = "BackSpace" ->
  exists app' pid c,
    handle_key key None app = (Ok true, app') /\
    nodes (tool app) = nodes (tool app') ++ [a] /\
    node_ids (tool app) = node_ids (tool app') ++ [pid] /\
    is_closed (tool app') =
      (if (length (nodes (tool app')) <? 3)%nat then false else is_closed (tool app)) /\
    undo_stack app' = c :: undo_stack app.
Proof.
  intros Hinv Hnd Hlast Hkey.
  pose proof Hinv as (Hwf & _). pose proof Hwf as (Hlen & _).
  apply last_Some in Hlast as (ns & Hns).
  assert (Hfresh : a ∉ ns).
  { rewrite Hns in Hnd. apply NoDup_app in Hnd as (_ & Hd & _).
    intros Hin. apply (Hd a Hin). apply elem_of_cons. by left. }
  assert (Hidx : py_index a (nodes (tool app)) = Some (length ns))
    by (rewrite Hns; by apply py_index_app_fresh).
  assert (Hl1 : length (nodes (tool app)) = S (length ns))
    by (rewrite Hns, length_app; simpl; lia).
  destruct (node_ids (tool app) !! length ns) as [pid|] eqn:Hpid;
    [|apply lookup_ge_None in Hpid; lia].
  destruct (remove_node_ok (tool app) a (length ns) Hwf Hidx) as (st' & E & G).
  destruct (cache_grown_fields _ _ G) as (Gn & Gi & Gc & _).
  exists (mkApp st' (BezierCmdDelete a (Z.of_nat (length ns)) pid
                       (get_position (tool app) a) (is_closed (tool app))
                     :: undo_stack app) []), pid,
         (BezierCmdDelete a (Z.of_nat (length ns)) pid
            (get_position (tool app) a) (is_closed (tool app))).
  assert (Hdn : delete (length ns) (nodes (tool app)) = ns)
    by (rewrite Hns; apply delete_last_snoc).
  assert (Hdi : node_ids (tool app) = delete (length ns) (node_ids (tool app)) ++ [pid])
    by (apply delete_last_lookup; [exact Hpid|lia]).
  split; [|split; [|split; [|split]]].
  - unfold handle_key.
    assert (Hk1 : bool_decide (key ∈ ["Return"; "Enter"]) = false).
    { apply bool_decide_eq_false. intros Hin.
      apply elem_of_cons in Hin as [Hin|Hin]; [subst key; by destruct Hkey|].
      apply list_elem_of_singleton in Hin. subst key. by destruct Hkey. }
    assert (Hk2 : bool_decide (key ∈ ["Delete"; "BackSpace"]) = true).
    { apply bool_decide_eq_true. destruct Hkey as [Hk|Hk]; subst key.
      - apply elem_of_cons. by left.
      - apply elem_of_cons. right. apply elem_of_cons. by left. }
    assert (Hnil : is_nil (nodes (tool app)) = false) by (rewrite Hns; by destruct ns).
    assert (Hlast : last (nodes (tool app)) = Some a) by (rewrite Hns; apply last_snoc).
    rewrite Hk1, Hk2, Hnil, last_getitem, Hlast. simpl andb. cbv iota.
    unfold delete_node_cmd, new_BezierCmdDelete. rewrite Hidx.
    replace (Z.of_nat (length ns) =? -1) with false by (symmetry; apply Z.eqb_neq; lia).
    rewrite py_getitem_nat by lia. rewrite Hpid.
    unfold CommandManager.execute, BezierCmd.execute, bind. rewrite E. done.
  - cbn [tool]. rewrite Gn. unfold removed. simpl. rewrite Hdn.
    destruct (length ns <? 3)%nat; simpl; exact Hns.
  - cbn [tool]. rewrite Gi. unfold removed. simpl. rewrite Hdn.
    destruct (length ns <? 3)%nat; simpl; exact Hdi.
  - cbn [tool]. rewrite Gc, Gn. unfold removed. simpl. rewrite Hdn.
    destruct (length ns <? 3)%nat eqn:E3; simpl; by rewrite ?Hdn, ?E3.
  - done.
Qed.

Lemma session_inv_demo_closed_app : session_inv (tool demo_closed_app).
Proof.
  change demo_closed_app with (run (perform GCloseLoop) demo_open_app).
  exact (proj1 (proj2 (perform_chain GCloseLoop demo_open_app
                         session_inv_demo_open_app demo_close_not_repeated_append))).
Qed.

Lemma demo_closed_app_nodes : nodes (tool demo_closed_app) = [0; 1; 2]%nat.
Proof. vm_compute. reflexivity. Qed.

Lemma demo_closed_app_nodup : NoDup (nodes (tool demo_closed_app)).
Proof.
  rewrite demo_closed_app_nodes.
  apply (bool_decide_unpack (NoDup [0; 1; 2]%nat)). vm_compute. exact I.
Qed.

Lemma demo_closed_app_last : last (nodes (tool demo_closed_app)) = Some 2%nat.
Proof. rewrite demo_closed_app_nodes. reflexivity. Qed.

Lemma delete_key_removes_last_anchor_witness :
  exists app' pid c,
    handle_key "BackSpace" None demo_closed_app = (Ok true, app') /\
    nodes (tool demo_closed_app) = nodes (tool app') ++ [2%nat] /\
    node_ids (tool demo_closed_app) = node_ids (tool app') ++ [pid] /\
    is_closed (tool app') =
      (if (length (nodes (tool app')) <? 3)%nat then false
       else is_closed (tool demo_closed_app)) /\
    undo_stack app' = c :: undo_stack demo_closed_app.
Proof.
  exact (delete_key_removes_last_anchor "BackSpace" demo_closed_app 2%nat
           session_inv_demo_closed_app demo_closed_app_nodup demo_closed_app_last
           (or_intror eq_refl)).
Defined.

(** ** Redoing what was undone *)

Lemma observable_agree st st' : agree st st' -> observable st' = observable st.
Proof.
  intros Ha. destruct (agree_fields _ _ Ha) as (_ & Ai & Ac & _).
  unfold observable. by rewrite Ai, Ac.
Qed.

Lemma observable_cache_grown st st' : cache_grown st st' -> observable st' = observable st.
Proof. intros G. apply observable_agree. by apply agree_cache_grown. Qed.

(** The command object after [execute] executes as the one before:
    what [BezierCmdAdd.execute] records is not read by it. *)
Lemma execute_returned c st c' st1 :
  BezierCmd.execute c st = (Ok c', st1) ->
  forall s, BezierCmd.execute c' s = BezierCmd.execute c s.
Proof.
  destruct c as [pos idx aa ap fi|a idx pid pos wc|a op np opid npid|ps|sn si sc];
    simpl; unfold bind.
  - destruct (_internal_add_node pos idx st) as [[r|e] s1]; [|done].
    destruct (py_index (fst r) (nodes s1)); [|done]. intros [= <- _]. done.
  - destruct (_internal_remove_node_by_actor a st) as [[u|e] s1]; [|done].
    intros [= <- _]. done.
  - destruct (_internal_update_node_pos a np npid st) as [[u|e] s1]; [|done].
    intros [= <- _]. done.
  - destruct (update_curve (with_is_closed st true)) as [[u|e] s1]; [|done].
    intros [= <- _]. done.
  - intros [= <- _]. done.
Qed.

(** Executing a command in two stores the commands cannot tell apart
    gives the same vertex ids and closed flag. *)
Lemma execute_observable c st st2 c1 st1 :
  session_inv st -> agree st st2 -> BezierCmd.execute c st = (Ok c1, st1) ->
  exists c2 st3, BezierCmd.execute c st2 = (Ok c2, st3) /\ observable st3 = observable st1.
Proof.
  intros (Hwf & Hinv & Hfresh & m & Hm & Hne) Ha E.
  pose proof (wf_agree _ _ Ha Hwf) as Hwf2.
  destruct (agree_fields _ _ Ha) as (An & Ai & Ac & Acm).
  pose proof Hwf as (Hlen & _). pose proof Hwf2 as (Hlen2 & _).
  assert (Hm2 : cur_mesh st2 = Some m) by (by rewrite Acm).
  destruct c as [pos idx aa ap fi|a idx pid pos wc|a op np opid npid|ps|sn si sc].
  - (* Add *)
    unfold BezierCmd.execute, bind in *.
    destruct (is_noop_append st (find_closest_point m pos) idx) eqn:Hno.
    + assert (Hno2 := Hno). rewrite is_noop_append_last in Hno.
      apply andb_true_iff in Hno as [Hi Hl].
      apply Z.eqb_eq in Hi. subst idx. apply bool_decide_eq_true in Hl.
      destruct (last (nodes st)) as [a|] eqn:Hla.
      2:{ apply last_None in Hla. rewrite Hla in Hlen. destruct (node_ids st); done. }
      rewrite (add_node_noop st m pos a Hm Hl Hla) in E.
      rewrite (add_node_noop st2 m pos a Hm2) by (by rewrite ?Ai, ?An).
      cbn [fst] in *. rewrite An.
      destruct (py_index a (nodes st)); [|done]. injection E as <- <-.
      eexists _, st2. split; [done|]. by apply observable_agree.
    + destruct (closest_in_mesh m pos Hne) as [p Hp].
      destruct (add_node_new_ok st m pos idx p Hwf Hm Hp Hno) as (s1 & E1 & G1).
      rewrite E1 in E. cbn [fst] in E.
      destruct (py_index (next_actor st) (nodes s1)); [|done]. injection E as <- <-.
      assert (Hno2 : is_noop_append st2 (find_closest_point m pos) idx = false).
      { rewrite is_noop_append_last in *. by rewrite Ai. }
      destruct (add_node_new_ok st2 m pos idx p Hwf2 Hm2 Hp Hno2) as (s3 & E3 & G3).
      rewrite E3. cbn [fst].
      destruct (inserted_position st2 p (find_closest_point m pos) idx Hlen2)
        as (j & Hj & Hn & _).
      destruct (cache_grown_fields _ _ G3) as (Gn & _). rewrite Hn in Gn.
      destruct (py_index_Some_elem (next_actor st2) (nodes s3)) as [k Hk].
      { rewrite Gn. apply elem_of_app. right. apply elem_of_cons. by left. }
      rewrite Hk. eexists _, s3. split; [done|].
      rewrite (observable_cache_grown _ _ G3), (observable_cache_grown _ _ G1).
      unfold observable, inserted. destruct (negb (idx =? -1)); simpl; by rewrite Ai, Ac.
  - (* Delete *)
    unfold BezierCmd.execute, bind in *.
    destruct (py_index a (nodes st)) as [j|] eqn:Hidx.
    + destruct (remove_node_ok st a j Hwf Hidx) as (s1 & E1 & G1).
      rewrite E1 in E. injection E as <- <-.
      destruct (remove_node_ok st2 a j Hwf2) as (s3 & E3 & G3); [by rewrite An|].
      rewrite E3. eexists _, s3. split; [done|].
      rewrite (observable_cache_grown _ _ G3), (observable_cache_grown _ _ G1).
      unfold observable, removed. simpl. rewrite An, Ai.
      destruct (length (delete j (nodes st)) <? 3)%nat; simpl; by rewrite ?Ac.
    + rewrite (remove_node_absent st a Hidx) in E. injection E as <- <-.
      rewrite (remove_node_absent st2 a) by (by rewrite An).
      eexists _, st2. split; [done|]. by apply observable_agree.
  - (* Move *)
    unfold BezierCmd.execute, bind in *.
    destruct (py_index a (nodes st)) as [j|] eqn:Hidx.
    + pose proof (py_index_lt _ _ _ Hidx) as Hlt.
      assert (Hj : (j < length (node_ids st))%nat) by lia.
      assert (Hj2 : (j < length (node_ids st2))%nat) by (rewrite Ai; lia).
      assert (Hidx2 : py_index a (nodes st2) = Some j) by (by rewrite An).
      pose proof (update_node_pos_frame st a np npid j Hidx Hj) as G1.
      pose proof (update_node_pos_frame st2 a np npid j Hidx2 Hj2) as G3.
      rewrite (update_node_pos_present st a np npid j Hidx Hj) in E, G1.
      rewrite (update_node_pos_present st2 a np npid j Hidx2 Hj2) in G3 |- *.
      cbn [snd] in *. injection E as <- <-.
      eexists _, _. split; [done|].
      rewrite (observable_cache_grown _ _ G3), (observable_cache_grown _ _ G1).
      unfold observable, moved. simpl. by rewrite Ai, Ac.
    + rewrite (update_node_pos_absent st a np npid Hidx) in E. injection E as <- <-.
      rewrite (update_node_pos_absent st2 a np npid) by (by rewrite An).
      eexists _, _. split; [done|].
      unfold observable, set_position. simpl. by rewrite Ai, Ac.
  - (* CloseLoop *)
    unfold BezierCmd.execute, bind in *.
    destruct (update_curve_ok (with_is_closed st true)) as (s1 & E1 & G1); [exact Hwf|].
    destruct (update_curve_ok (with_is_closed st2 true)) as (s3 & E3 & G3); [exact Hwf2|].
    rewrite E1 in E. injection E as <- <-. rewrite E3.
    eexists _, s3. split; [done|].
    rewrite (observable_cache_grown _ _ G3), (observable_cache_grown _ _ G1).
    unfold observable. simpl. by rewrite Ai.
  - (* Clear *)
    unfold BezierCmd.execute, bind, _internal_hard_reset in *.
    injection E as <- <-. eexists _, _. split; [done|]. done.
Qed.

(** What a gesture has done: nothing that the commands can tell when
    it recorded no command; otherwise the command was executed in a
    session state [st0] like the one before, and its undo leads back
    there. *)
Lemma perform_exec g app :
  session_inv (tool app) -> resolves_to_last g (tool app) = false ->
  (undo_stack (run (perform g) app) = undo_stack app /\
   agree (tool app) (tool (run (perform g) app))) \/
  exists c c' st0 st1,
    session_inv st0 /\ agree (tool app) st0 /\
    BezierCmd.execute c st0 = (Ok c', st1) /\ undoes st0 c' st1 /\
    agree st1 (tool (run (perform g) app)) /\
    undo_stack (run (perform g) app) = c' :: undo_stack app /\
    redo_stack (run (perform g) app) = [].
Proof.
  intros Hinv Hres. unfold run.
  assert (Hsame : undo_stack app = undo_stack app /\ agree (tool app) (tool app))
    by (split; [done|apply agree_refl]).
  destruct g as [pos idx|a|picked hits| |]; cbn [perform].
  - destruct (execute_add_undoes _ pos idx Hinv Hres) as (c' & st1 & E & I1 & U).
    right. exists (new_BezierCmdAdd pos idx), c', (tool app), st1.
    unfold add_node_at, CommandManager.execute. rewrite E. simpl.
    split; [exact Hinv|]. split; [apply agree_refl|]. split; [done|]. split; [exact U|].
    split; [apply agree_refl|done].
  - unfold delete_node_cmd.
    destruct (new_BezierCmdDelete (tool app) a) as [cmd|e] eqn:En; [|by left].
    destruct (execute_delete_undoes _ a cmd Hinv En) as (c' & st1 & E & I1 & U).
    right. exists cmd, c', (tool app), st1.
    unfold CommandManager.execute. rewrite E. simpl.
    split; [exact Hinv|]. split; [apply agree_refl|]. split; [done|]. split; [exact U|].
    split; [apply agree_refl|done].
  - unfold drag, OnLeftDown_node.
    destruct picked as [a|]; [|by left].
    destruct (py_index a (nodes (tool app))) as [j|] eqn:Ej; [|by left].
    pose proof (py_index_lt _ _ _ Ej) as Hlt.
    pose proof Hinv as ((Hlen & _) & _ & _ & m & Hm & Hne).
    rewrite py_getitem_nat by lia.
    destruct (node_ids (tool app) !! j) as [start_pid|] eqn:Epid; [|by left].
    set (d := mkDrag a j (get_position (tool app) a) start_pid).
    destruct (mouse_moves d hits (tool app)) as [r0 st0] eqn:Emm.
    destruct (mouse_moves_frame _ _ _ _ _ Emm) as [A0 N0].
    destruct r0 as [u|e]; [|left; split; [done|exact A0]].
    pose proof (session_inv_agree _ _ Hinv A0 N0) as I0.
    destruct (agree_fields _ _ A0) as (An & Ai & Ac & Acm).
    unfold OnLeftUp. cbn [tool undo_stack redo_stack active_node _drag_start_pid _drag_start_pos d].
    rewrite Acm, Hm.
    set (final_pos := get_position st0 a).
    destruct (negb (start_pid =? find_closest_point m final_pos)) eqn:Eneq.
    + destruct (execute_move_undoes st0 a (get_position (tool app) a) final_pos start_pid m j)
        as (c' & st1 & E & I1 & U); [exact I0|by rewrite Acm|by rewrite An|by rewrite Ai|].
      unfold CommandManager.execute. cbn [tool undo_stack redo_stack].
      rewrite E. cbn [tool undo_stack redo_stack].
      destruct I1 as (Hwf1 & I1').
      destruct (update_curve_ok st1 Hwf1) as (st2 & E2 & G2). rewrite E2.
      cbn [fst snd tool undo_stack redo_stack].
      right. eexists _, c', st0, st1. split; [exact I0|]. split; [exact A0|].
      split; [exact E|]. split; [exact U|]. split; [by apply agree_cache_grown|done].
    + left. destruct (closest_in_mesh m final_pos Hne) as [q ->].
      cbn [tool undo_stack redo_stack].
      destruct (update_curve (set_position st0 a q)) as [r2 st2] eqn:E2.
      pose proof (update_curve_frame _ _ _ E2) as G2.
      assert (A2 : agree (tool app) st2).
      { eapply agree_trans; [exact A0|].
        eapply agree_trans; [apply agree_set_position|by apply agree_cache_grown]. }
      by destruct r2.
  - unfold close_loop.
    destruct ((2 <? length (nodes (tool app)))%nat && negb (is_closed (tool app))) eqn:Eg;
      [|by left].
    apply andb_true_iff in Eg as [E2 Eo].
    apply Nat.ltb_lt in E2. apply negb_true_iff in Eo.
    destruct (execute_close_undoes _ Hinv E2 Eo) as (c' & st1 & E & I1 & U).
    right. exists (new_BezierCmdCloseLoop (tool app)), c', (tool app), st1.
    unfold CommandManager.execute. rewrite E. simpl.
    split; [exact Hinv|]. split; [apply agree_refl|]. split; [done|]. split; [exact U|].
    split; [apply agree_refl|done].
  - destruct (execute_clear_undoes _ Hinv) as (c' & st1 & E & I1 & U).
    right. exists (clear_markup_cmd (tool app)), c', (tool app), st1.
    unfold CommandManager.execute. rewrite E. simpl.
    split; [exact Hinv|]. split; [apply agree_refl|]. split; [done|]. split; [exact U|].
    split; [apply agree_refl|done].
Qed.

(** X13. Redo after undo. When a gesture that is not an append onto
    the vertex of the last anchor has recorded a command, undoing and
    then redoing that command gives the vertex ids and the closed flag
    the gesture had produced, with as many commands to undo as before
    and none left to redo. *)
Theorem redo_after_undo (g : gesture) (app : App) :
  session_inv (tool app) -> resolves_to_last g (tool app) = false ->
  undo_stack (run (perform g) app) <> undo_stack app ->
  observable (tool (run CommandManager.redo (run CommandManager.undo (run (perform g) app))))
    = observable (tool (run (perform g) app)) /\
  length (undo_stack (run CommandManager.redo (run CommandManager.undo (run (perform g) app))))
    = length (undo_stack (run (perform g) app)) /\
  redo_stack (run CommandManager.redo (run CommandManager.undo (run (perform g) app))) = [].
Proof.
  intros Hinv Hres Hpush.
  destruct (perform_exec g app Hinv Hres)
    as [[Hsame _]|(c & c' & st0 & st1 & I0 & _ & E & U & A1 & Hs & Hr)]; [done|].
  set (app1 := run (perform g) app) in *.
  destruct (U (tool app1) A1) as (st2 & Eu & A2).
  assert (Hundo : run CommandManager.undo app1 = mkApp st2 (undo_stack app) [c']).
  { unfold run, CommandManager.undo. by rewrite Hs, Eu, Hr. }
  rewrite Hundo.
  destruct (execute_observable c st0 st2 c' st1 I0 A2 E) as (c2 & st3 & E3 & Hobs).
  assert (Hredo : run CommandManager.redo (mkApp st2 (undo_stack app) [c'])
                  = mkApp st3 (c2 :: undo_stack app) []).
  { unfold run, CommandManager.redo. cbn [redo_stack tool undo_stack].
    rewrite (execute_returned c st0 c' st1 E), E3. done. }
  rewrite Hredo. cbn [tool undo_stack redo_stack].
  split; [|split; [by rewrite Hs|done]].
  rewrite Hobs. symmetry. by apply observable_agree.
Qed.

Lemma demo_close_pushes :
  undo_stack (run (perform GCloseLoop) demo_open_app) <> undo_stack demo_open_app.
Proof.
  intros H. apply (f_equal length) in H. vm_compute in H. discriminate.
Qed.

Lemma redo_after_undo_witness :
  observable (tool (run CommandManager.redo
                      (run CommandManager.undo (run (perform GCloseLoop) demo_open_app))))
    = observable (tool (run (perform GCloseLoop) demo_open_app)) /\
  length (undo_stack (run CommandManager.redo
                        (run CommandManager.undo (run (perform GCloseLoop) demo_open_app))))
    = length (undo_stack (run (perform GCloseLoop) demo_open_app)) /\
  redo_stack (run CommandManager.redo
                (run CommandManager.undo (run (perform GCloseLoop) demo_open_app))) = [].
Proof.
  exact (redo_after_undo GCloseLoop demo_open_app session_inv_demo_open_app
           demo_close_not_repeated_append demo_close_pushes).
Defined.

(** ** Redo and the identity of handles *)

(** Executing an Add that is not an append onto the vertex of the last
    anchor, in full: the handle is the next one of the plotter. *)
Lemma execute_add_fresh st m pos idx :
  session_inv st -> cur_mesh st = Some m ->
  is_noop_append st (find_closest_point m pos) idx = false ->
  exists j fi st1,
    BezierCmd.execute (new_BezierCmdAdd pos idx) st =
      (Ok (BezierCmdAdd pos idx (Some (next_actor st)) (Some (find_closest_point m pos)) fi),
       st1) /\
    (j <= length (nodes st))%nat /\
    nodes st1 = take j (nodes st) ++ next_actor st :: drop j (nodes st) /\
    node_ids st1 = take j (node_ids st) ++ find_closest_point m pos :: drop j (node_ids st) /\
    is_closed st1 = is_closed st /\ cur_mesh st1 = cur_mesh st /\
    next_actor st1 = S (next_actor st).
Proof.
  intros (Hwf & Hinv & Hfresh & m0 & Hm0 & Hne) Hm Hno.
  rewrite Hm in Hm0. injection Hm0 as <-. pose proof Hwf as (Hlen & _).
  destruct (closest_in_mesh m pos Hne) as [p Hp].
  destruct (add_node_new_ok st m pos idx p Hwf Hm Hp Hno) as (st1 & E & G).
  destruct (inserted_position st p (find_closest_point m pos) idx Hlen)
    as (j & Hj & Hn & Hi & Hc & Hcm & Hnext).
  destruct (cache_grown_fields _ _ G) as (Gn & Gi & Gc & Gcm & _ & _ & _ & Gnext & _).
  rewrite Hn in Gn. rewrite Hi in Gi. rewrite Hc in Gc. rewrite Hcm in Gcm.
  rewrite Hnext in Gnext.
  assert (Hidx : py_index (next_actor st) (nodes st1) = Some j).
  { rewrite Gn. apply py_index_insert_fresh; [|exact Hj]. by apply fresh_not_in. }
  exists j, (Z.of_nat j), st1. split; [|done].
  unfold BezierCmd.execute, new_BezierCmdAdd, bind. rewrite E. simpl. by rewrite Hidx.
Qed.

Lemma wf_intro st m :
  length (nodes st) = length (node_ids st) -> cur_mesh st = Some m ->
  Forall (fun pid => is_Some (py_getitem (points m) pid)) (node_ids st) -> wf st.
Proof. intros H1 H2 H3. split; [exact H1|]. by exists m. Qed.

(** Taking out the anchor that sits at position [j]. *)
Lemma remove_inserted_state st1 m j a pid ns ids :
  cur_mesh st1 = Some m ->
  Forall (fun q => is_Some (py_getitem (points m) q)) ids ->
  is_Some (py_getitem (points m) pid) ->
  length ns = length ids -> (j <= length ns)%nat -> a ∉ ns ->
  nodes st1 = take j ns ++ a :: drop j ns ->
  node_ids st1 = take j ids ++ pid :: drop j ids ->
  (is_closed st1 = true -> (3 <= length ns)%nat) ->
  exists st2,
    _internal_remove_node_by_actor a st1 = (Ok tt, st2) /\
    nodes st2 = ns /\ node_ids st2 = ids /\ is_closed st2 = is_closed st1 /\
    cur_mesh st2 = Some m /\ next_actor st2 = next_actor st1.
Proof.
  intros Hm Hall Hpid Hlen Hj Hfresh Hn Hi Hinv.
  assert (Hwf : wf st1).
  { apply (wf_intro st1 m); [|exact Hm|].
    - rewrite Hn, Hi, !length_app. simpl. rewrite !length_take, !length_drop. lia.
    - rewrite Hi. apply Forall_app. split; [by apply Forall_take|].
      constructor; [exact Hpid|by apply Forall_drop]. }
  assert (Hidx : py_index a (nodes st1) = Some j)
    by (rewrite Hn; by apply py_index_insert_fresh).
  destruct (remove_node_ok st1 a j Hwf Hidx) as (st2 & E & G).
  destruct (cache_grown_fields _ _ G) as (Gn & Gi & Gc & Gcm & _ & _ & _ & Gnext & _).
  destruct (removed_inserted st1 j a pid ns ids (is_closed st1) Hlen Hj Hn Hi eq_refl Hinv)
    as (R1 & R2 & R3 & R4).
  exists st2. split; [exact E|]. rewrite Gn, Gi, Gc, Gcm, Gnext, R1, R2, R3, R4.
  repeat (split; [done|]). unfold removed. simpl. by destruct (_ <? _)%nat.
Qed.

(** Putting an anchor back at position [j]. *)
Lemma restore_state st2 m a pid (j : nat) was_closed :
  cur_mesh st2 = Some m ->
  Forall (fun q => is_Some (py_getitem (points m) q)) (node_ids st2) ->
  is_Some (py_getitem (points m) pid) ->
  length (nodes st2) = length (node_ids st2) -> (j <= length (nodes st2))%nat ->
  exists st3,
    _internal_restore_node a pid (Z.of_nat j) was_closed st2 = (Ok tt, st3) /\
    nodes st3 = take j (nodes st2) ++ a :: drop j (nodes st2) /\
    node_ids st3 = take j (node_ids st2) ++ pid :: drop j (node_ids st2) /\
    is_closed st3 = was_closed /\ cur_mesh st3 = Some m /\
    next_actor st3 = next_actor st2.
Proof.
  intros Hm Hall Hpid Hlen Hj. rewrite restore_node_eq.
  assert (Hc : forall {A} (l : list A), length l = length (nodes st2) ->
                 clamp_index (length l) (Z.of_nat j) = j).
  { intros A l Hl. unfold clamp_index.
    replace (Z.of_nat j <? 0) with false by (symmetry; apply Z.ltb_ge; lia). lia. }
  assert (Hwf : wf (restored st2 a pid (Z.of_nat j) was_closed)).
  { apply (wf_intro _ m); unfold restored; simpl.
    - rewrite !py_insert_length. lia.
    - exact Hm.
    - by apply Forall_py_insert. }
  destruct (update_curve_ok _ Hwf) as (st3 & E & G).
  destruct (cache_grown_fields _ _ G) as (Gn & Gi & Gc & Gcm & _ & _ & _ & Gnext & _).
  exists st3. split; [exact E|]. rewrite Gn, Gi, Gc, Gcm, Gnext.
  unfold restored. simpl. rewrite !py_insert_clamp, !Hc by (done || lia). done.
Qed.

(** X14. Redo places a new handle. After an anchor has been added and
    then deleted, two undos bring the store back to where it started,
    but the two redos that follow leave the anchor in the store: the
    redone Add creates a handle of its own, so the redone Delete, which
    names the first handle, removes nothing. *)
Theorem redo_keeps_deleted_anchor (app : App) (pos : point) (idx : Z) :
  session_inv (tool app) -> resolves_to_last (GAdd pos idx) (tool app) = false ->
  let a := next_actor (tool app) in
  let app1 := run (add_node_at pos idx) app in
  let app2 := run (delete_node_cmd a) app1 in
  let app4 := run CommandManager.undo (run CommandManager.undo app2) in
  let app6 := run CommandManager.redo (run CommandManager.redo app4) in
  a ∈ nodes (tool app1) /\
  length (node_ids (tool app1)) = S (length (node_ids (tool app))) /\
  observable (tool app2) = observable (tool app) /\
  observable (tool app4) = observable (tool app) /\
  redo_stack app6 = [] /\
  observable (tool app6) = observable (tool app1).
Proof.
  intros Hinv Hres. cbv zeta.
  pose proof Hinv as (Hwf & Hloop & Hfresh & m & Hm & Hne).
  pose proof Hwf as (Hlen & m0 & Hm0 & Hall).
  rewrite Hm in Hm0. injection Hm0 as <-.
  unfold resolves_to_last in Hres. rewrite Hm in Hres.
  set (st := tool app) in *. set (a := next_actor st).
  set (pid := find_closest_point m pos) in *.
  assert (Hpid : is_Some (py_getitem (points m) pid)) by (by apply closest_in_mesh).
  assert (Hnotin : a ∉ nodes st) by (by apply fresh_not_in).
  (* the Add *)
  destruct (execute_add_fresh st m pos idx Hinv Hm Hres)
    as (j & fi & st1 & E1 & Hj & N1 & I1 & C1 & M1 & X1).
  fold a pid in E1, N1, I1, X1.
  set (c1 := BezierCmdAdd pos idx (Some a) (Some pid) fi) in *.
  assert (Happ1 : run (add_node_at pos idx) app = mkApp st1 (c1 :: undo_stack app) []).
  { unfold run, add_node_at, CommandManager.execute. fold st. by rewrite E1. }
  rewrite Happ1.
  (* the Delete of the new anchor *)
  assert (Hloop1 : is_closed st1 = true -> (3 <= length (nodes st))%nat)
    by (rewrite C1; exact Hloop).
  destruct (remove_inserted_state st1 m j a pid (nodes st) (node_ids st))
    as (st2 & E2 & N2 & I2 & C2 & M2 & X2); try done; [by rewrite M1|].
  assert (Hidx1 : py_index a (nodes st1) = Some j)
    by (rewrite N1; by apply py_index_insert_fresh).
  assert (Hlook1 : node_ids st1 !! j = Some pid).
  { rewrite I1. apply list_lookup_middle. rewrite length_take. lia. }
  assert (Hj1 : (j < length (node_ids st1))%nat) by (by eapply lookup_lt_Some).
  set (cD := BezierCmdDelete a (Z.of_nat j) pid (get_position st1 a) (is_closed st1)).
  assert (Happ2 : run (delete_node_cmd a) (mkApp st1 (c1 :: undo_stack app) [])
                  = mkApp st2 (cD :: c1 :: undo_stack app) []).
  { unfold run, delete_node_cmd, new_BezierCmdDelete. cbn [tool]. rewrite Hidx1.
    replace (Z.of_nat j =? -1) with false by (symmetry; apply Z.eqb_neq; lia).
    rewrite py_getitem_nat by done. rewrite Hlook1.
    unfold CommandManager.execute, BezierCmd.execute, bind. cbn [tool]. by rewrite E2. }
  rewrite Happ2.
  (* undo of the Delete *)
  destruct (restore_state st2 m a pid j (is_closed st1))
    as (st3 & E3 & N3 & I3 & C3 & M3 & X3); try done;
    [by rewrite I2|by rewrite N2, I2|by rewrite N2|].
  rewrite N2 in N3. rewrite I2 in I3.
  assert (Happ3 : run CommandManager.undo (mkApp st2 (cD :: c1 :: undo_stack app) [])
                  = mkApp st3 (c1 :: undo_stack app) [cD]).
  { unfold run, CommandManager.undo, BezierCmd.undo. cbn [undo_stack tool redo_stack cD].
    replace (Z.of_nat j =? -1) with false by (symmetry; apply Z.eqb_neq; lia).
    change (negb false) with true. cbv iota. by rewrite E3. }
  rewrite Happ3.
  (* undo of the Add *)
  assert (Hloop3 : is_closed st3 = true -> (3 <= length (nodes st))%nat)
    by (rewrite C3; exact Hloop1).
  destruct (remove_inserted_state st3 m j a pid (nodes st) (node_ids st))
    as (st4 & E4 & N4 & I4 & C4 & M4 & X4); try done.
  assert (Happ4 : run CommandManager.undo (mkApp st3 (c1 :: undo_stack app) [cD])
                  = mkApp st4 (undo_stack app) [c1; cD]).
  { unfold run, CommandManager.undo, BezierCmd.undo. cbn [undo_stack tool redo_stack c1].
    by rewrite E4. }
  rewrite Happ4.
  (* redo of the Add *)
  assert (Hag4 : agree st st4).
  { apply agree_intro; [done|done| |by rewrite M4].
    rewrite C4, C3. exact C1. }
  assert (Hinv4 : session_inv st4).
  { split; [by eapply wf_agree|]. split; [|split].
    - unfold loop_inv. rewrite N4, C4, C3, C1. exact Hloop.
    - rewrite N4, X4, X3, X2, X1. eapply Forall_impl; [exact Hfresh|]. simpl. fold a. lia.
    - exists m. by rewrite M4. }
  assert (Hno4 : is_noop_append st4 pid idx = false).
  { rewrite is_noop_append_last in *. by rewrite I4. }
  destruct (execute_add_fresh st4 m pos idx Hinv4 M4 Hno4)
    as (j5 & fi5 & st5 & E5 & Hj5 & N5 & I5 & C5 & M5 & X5).
  rewrite N4 in N5. rewrite X4, X3, X2, X1 in E5, N5.
  set (c5 := BezierCmdAdd pos idx (Some (S a)) (Some (find_closest_point m pos)) fi5) in *.
  assert (Happ5 : run CommandManager.redo (mkApp st4 (undo_stack app) [c1; cD])
                  = mkApp st5 (c5 :: undo_stack app) [cD]).
  { unfold run, CommandManager.redo. cbn [undo_stack tool redo_stack].
    change (BezierCmd.execute c1 st4) with (BezierCmd.execute (new_BezierCmdAdd pos idx) st4).
    by rewrite E5. }
  rewrite Happ5.
  (* redo of the Delete *)
  assert (Hgone : py_index a (nodes st5) = None).
  { apply py_index_None. rewrite N5. intros Hin.
    apply elem_of_app in Hin as [Hin|Hin].
    - apply Hnotin. by eapply subseteq_take.
    - apply elem_of_cons in Hin as [Hin|Hin]; [lia|].
      apply Hnotin. by eapply subseteq_drop. }
  assert (Happ6 : run CommandManager.redo (mkApp st5 (c5 :: undo_stack app) [cD])
                  = mkApp st5 (cD :: c5 :: undo_stack app) []).
  { unfold run, CommandManager.redo, BezierCmd.execute, bind.
    cbn [undo_stack tool redo_stack cD]. by rewrite (remove_node_absent st5 a Hgone). }
  rewrite Happ6. cbn [tool redo_stack].
  destruct (execute_observable (new_BezierCmdAdd pos idx) st st4 c1 st1 Hinv Hag4 E1)
    as (c2 & st5' & E5' & Hobs).
  rewrite E5 in E5'. injection E5' as _ <-.
  split; [rewrite N1; apply elem_of_app; right; apply elem_of_cons; by left|].
  split; [rewrite I1, length_app; simpl; rewrite length_take, length_drop; lia|].
  split; [unfold observable; by rewrite I2, C2, C1|].
  split; [unfold observable; by rewrite I4, C4, C3, C1|].
  split; [done|exact Hobs].
Qed.

Lemma demo_add_not_repeated_append :
  resolves_to_last (GAdd (demo_point 0 4 0) (-1)) (tool demo_open_app) = false.
Proof. vm_compute. reflexivity. Qed.

Lemma redo_keeps_deleted_anchor_witness :
  let a := next_actor (tool demo_open_app) in
  let app1 := run (add_node_at (demo_point 0 4 0) (-1)) demo_open_app in
  let app2 := run (delete_node_cmd a) app1 in
  let app4 := run CommandManager.undo (run CommandManager.undo app2) in
  let app6 := run CommandManager.redo (run CommandManager.redo app4) in
  a ∈ nodes (tool app1) /\
  length (node_ids (tool app1)) = S (length (node_ids (tool demo_open_app))) /\
  observable (tool app2) = observable (tool demo_open_app) /\
  observable (tool app4) = observable (tool demo_open_app) /\
  redo_stack app6 = [] /\
  observable (tool app6) = observable (tool app1).
Proof.
  exact (redo_keeps_deleted_anchor demo_open_app (demo_point 0 4 0) (-1)
           session_inv_demo_open_app demo_add_not_repeated_append).
Defined.

(** ** MultiCommand *)

Section MultiCommandProperties.

Context {State Cmd : Type}.
Variable cmd_execute : Cmd -> State -> res Cmd * State.
Variable cmd_undo : Cmd -> State -> res unit * State.
Variable same : State -> State -> Prop.

Lemma undo_each_app cs1 cs2 s s1 :
  MultiCommand.undo_each cmd_undo cs1 s = (Ok tt, s1) ->
  MultiCommand.undo_each cmd_undo (cs1 ++ cs2) s = MultiCommand.undo_each cmd_undo cs2 s1.
Proof.
  revert s. induction cs1 as [|c cs1 IH]; intros s; simpl.
  - intros [= <-]. done.
  - destruct (cmd_undo c s) as [[u|e] s']; [|done]. apply IH.
Qed.

(** X15. A [MultiCommand] whose commands, run in order, each execute
    and are each undone by their own [undo] executes them all, and is
    itself undone by its [undo]: in whatever state like the one it left,
    undoing it succeeds and leads to a state like the one it started
    from. *)
Theorem multi_command_undone (commands : list Cmd) (s : State) :
  MultiCommand.each_undone cmd_execute cmd_undo same commands s ->
  exists commands' s',
    MultiCommand.execute cmd_execute commands s = (Ok commands', s') /\
    forall s'', same s' s'' ->
      exists s2, MultiCommand.undo cmd_undo commands' s'' = (Ok tt, s2) /\ same s s2.
Proof.
  revert s. induction commands as [|c cs IH]; intros s H; simpl in *.
  - exists [], s. split; [done|]. intros s'' Hs. exists s''. done.
  - destruct H as (c' & s1 & E & U & H). rewrite E.
    destruct (IH s1 H) as (cs' & s' & E' & U'). rewrite E'.
    exists (c' :: cs'), s'. split; [done|]. intros s'' Hs.
    destruct (U' s'' Hs) as (s2 & E2 & H2).
    destruct (U s2 H2) as (s3 & E3 & H3).
    exists s3. split; [|exact H3].
    unfold MultiCommand.undo in *. rewrite reverse_cons.
    rewrite (undo_each_app _ _ _ _ E2). simpl. by rewrite E3.
Qed.

End MultiCommandProperties.

Lemma demo_open_app_facts :
  py_index 1%nat (nodes (tool demo_open_app)) = Some 1%nat /\
  node_ids (tool demo_open_app) !! 1%nat = Some 1.
Proof. split; vm_compute; reflexivity. Qed.

Lemma demo_moved_facts :
  (2 <? length (nodes demo_moved))%nat = true /\ is_closed demo_moved = false.
Proof. split; vm_compute; reflexivity. Qed.

Lemma demo_composite_each_undone :
  MultiCommand.each_undone BezierCmd.execute BezierCmd.undo agree
    [demo_move; BezierCmdCloseLoop false] (tool demo_open_app).
Proof.
  destruct demo_open_app_facts as [Hidx Hpid]. destruct demo_moved_facts as [H2 Ho].
  destruct (execute_move_undoes (tool demo_open_app) 1%nat (demo_point 4 0 0)
              (demo_point 1 2 4) 1 demo_mesh 1%nat session_inv_demo_open_app
              demo_open_app_mesh Hidx Hpid) as (c' & st1 & E & I1 & U).
  fold demo_move in E.
  assert (Hst1 : st1 = demo_moved) by (unfold demo_moved; by rewrite E).
  subst st1. apply Nat.ltb_lt in H2.
  destruct (execute_close_undoes demo_moved I1 H2 Ho) as (c'' & st2 & E2 & I2 & U2).
  unfold new_BezierCmdCloseLoop in E2. rewrite Ho in E2.
  exists c', demo_moved. split; [exact E|]. split; [exact U|].
  exists c'', st2. split; [exact E2|]. split; [exact U2|exact I].
Qed.

Lemma multi_command_undone_witness :
  exists commands' s',
    MultiCommand.execute BezierCmd.execute [demo_move; BezierCmdCloseLoop false]
      (tool demo_open_app) = (Ok commands', s') /\
    forall s'', agree s' s'' ->
      exists s2, MultiCommand.undo BezierCmd.undo commands' s'' = (Ok tt, s2) /\
                 agree (tool demo_open_app) s2.
Proof.
  exact (multi_command_undone BezierCmd.execute BezierCmd.undo agree
           [demo_move; BezierCmdCloseLoop false] (tool demo_open_app)
           demo_composite_each_undone).
Defined.

(** ** Deleting meshes *)

Lemma undo_subs_app subs1 subs2 sc :
  MultiDeleteCommand.undo (subs1 ++ subs2) sc =
  MultiDeleteCommand.undo subs1 (MultiDeleteCommand.undo subs2 sc).
Proof. unfold MultiDeleteCommand.undo. by rewrite reverse_app, foldl_app. Qed.

Lemma multi_delete_loop names : forall subs sc subs' sc',
  MultiDeleteCommand.execute_loop names subs sc = (subs', sc') ->
  exists news,
    subs' = subs ++ news /\
    (forall n, n ∈ names -> actors sc' !! n = None) /\
    (forall n, n ∉ names -> actors sc' !! n = actors sc !! n) /\
    actors (MultiDeleteCommand.undo news sc') = actors sc.
Proof.
  induction names as [|name names IH]; intros subs sc subs' sc'; simpl.
  - intros [= <- <-]. exists []. split; [by rewrite app_nil_r|].
    split; [intros n Hn; by apply not_elem_of_nil in Hn|]. done.
  - destruct (actors sc !! name) as [a|] eqn:Ha.
    + intros E. destruct (IH _ _ _ _ E) as (news & -> & Hin & Hout & Hundo).
      exists (DeleteMeshCommand.mk name a :: news).
      split; [by rewrite <- app_assoc|]. split; [|split].
      * intros n Hn. destruct (decide (n ∈ names)) as [Hn'|Hn']; [by apply Hin|].
        apply elem_of_cons in Hn as [Hn|Hn]; [|done]. subst n.
        rewrite (Hout name Hn'). simpl. apply lookup_delete_eq.
      * intros n Hn. apply not_elem_of_cons in Hn as [Hne Hn].
        rewrite (Hout n Hn). simpl. by apply lookup_delete_ne.
      * change (DeleteMeshCommand.mk name a :: news)
          with ([DeleteMeshCommand.mk name a] ++ news).
        rewrite undo_subs_app. unfold MultiDeleteCommand.undo at 1. simpl.
        rewrite Hundo. simpl. by apply insert_delete_id.
    + intros E. destruct (IH _ _ _ _ E) as (news & -> & Hin & Hout & Hundo).
      exists news. split; [done|]. split; [|split; [|done]].
      * intros n Hn. destruct (decide (n ∈ names)) as [Hn'|Hn']; [by apply Hin|].
        apply elem_of_cons in Hn as [Hn|Hn]; [|done]. subst n.
        by rewrite (Hout name Hn').
      * intros n Hn. apply not_elem_of_cons in Hn as [_ Hn]. by apply Hout.
Qed.

(** X16. [MultiDeleteCommand]: after [execute] none of the listed
    names is registered and every other name is registered as before,
    whether or not the list repeats names or names meshes that are not
    there; [undo] then gives back the registry as it was. *)
Theorem multi_delete_round_trip (names : list string) (sc : Scene) :
  (forall n, n ∈ names ->
             actors (snd (MultiDeleteCommand.execute names sc)) !! n = None) /\
  (forall n, n ∉ names ->
             actors (snd (MultiDeleteCommand.execute names sc)) !! n = actors sc !! n) /\
  actors (MultiDeleteCommand.undo (fst (MultiDeleteCommand.execute names sc))
                                  (snd (MultiDeleteCommand.execute names sc)))
    = actors sc.
Proof.
  unfold MultiDeleteCommand.execute.
  destruct (MultiDeleteCommand.execute_loop names [] sc) as [subs' sc'] eqn:E.
  destruct (multi_delete_loop names [] sc subs' sc' E) as (news & -> & Hin & Hout & Hundo).
  simpl. done.
Qed.

Lemma undo_keeps_tool subs : forall sc,
  bezier_tool (MultiDeleteCommand.undo subs sc) = bezier_tool sc.
Proof.
  unfold MultiDeleteCommand.undo. induction (reverse subs) as [|c l IH]; intros sc; simpl.
  - done.
  - by rewrite IH.
Qed.

Lemma multi_delete_loop_tool names : forall subs sc bt,
  bezier_tool sc = Some bt ->
  exists bt',
    bezier_tool (snd (MultiDeleteCommand.execute_loop names subs sc)) = Some bt' /\
    (cleared bt -> cleared bt') /\
    (forall n a, n ∈ names -> actors sc !! n = Some a -> target_actor sc = Some a ->
                 cleared bt').
Proof.
  induction names as [|name names IH]; intros subs sc bt Hbt; simpl.
  - exists bt. split; [done|]. split; [done|].
    intros n a Hn. by apply not_elem_of_nil in Hn.
  - destruct (actors sc !! name) as [a0|] eqn:Ha0.
    + set (cmd := DeleteMeshCommand.mk name a0).
      destruct (bool_decide (target_actor sc = Some a0)) eqn:Et.
      * destruct (IH (subs ++ [cmd]) (DeleteMeshCommand.execute cmd sc)
                    (snd (_internal_hard_reset false bt))) as (bt' & E & Hc & Hn).
        { unfold DeleteMeshCommand.execute. simpl. by rewrite Hbt, Et. }
        assert (Hcl : cleared bt') by (by apply Hc).
        exists bt'. split; [exact E|]. done.
      * destruct (IH (subs ++ [cmd]) (DeleteMeshCommand.execute cmd sc) bt)
          as (bt' & E & Hc & Hn).
        { unfold DeleteMeshCommand.execute. simpl. by rewrite Hbt, Et. }
        exists bt'. split; [exact E|]. split; [exact Hc|].
        intros n a Hin Hna Hta. apply elem_of_cons in Hin as [Hin|Hin].
        -- subst n. rewrite Ha0 in Hna. injection Hna as ->.
           apply bool_decide_eq_false in Et. done.
        -- destruct (decide (n = name)) as [->|Hne].
           ++ rewrite Ha0 in Hna. injection Hna as ->.
              apply bool_decide_eq_false in Et. done.
           ++ apply (Hn n a Hin); [|exact Hta]. simpl. by rewrite lookup_delete_ne.
    + destruct (IH subs sc bt Hbt) as (bt' & E & Hc & Hn).
      exists bt'. split; [exact E|]. split; [exact Hc|].
      intros n a Hin Hna Hta. apply elem_of_cons in Hin as [Hin|Hin].
      * subst n. congruence.
      * by apply (Hn n a).
Qed.

(** X17. Deleting meshes, among them the one the marker tool works
    on, clears the markup of the tool, and undoing the deletion, which
    gives back the registry, leaves the markup cleared. *)
Theorem multi_delete_clears_markup (names : list string) (sc : Scene) (bt : Tool)
    (n : string) (a : actor) :
  bezier_tool sc = Some bt -> target_actor sc = Some a ->
  actors sc !! n = Some a -> n ∈ names ->
  exists bt',
    bezier_tool (MultiDeleteCommand.undo (fst (MultiDeleteCommand.execute names sc))
                                         (snd (MultiDeleteCommand.execute names sc)))
      = Some bt' /\
    cleared bt'.
Proof.
  intros Hbt Ht Ha Hn. rewrite undo_keeps_tool. unfold MultiDeleteCommand.execute.
  destruct (multi_delete_loop_tool names [] sc bt Hbt) as (bt' & E & _ & Hc).
  exists bt'. split; [exact E|]. by apply (Hc n a).
Qed.

Lemma demo_scene_registered : actors demo_scene !! "jaw" = Some 7%nat.
Proof. vm_compute. reflexivity. Qed.

Lemma multi_delete_clears_markup_witness :
  exists bt',
    bezier_tool (MultiDeleteCommand.undo
                   (fst (MultiDeleteCommand.execute ["jaw"; "jaw"] demo_scene))
                   (snd (MultiDeleteCommand.execute ["jaw"; "jaw"] demo_scene)))
      = Some bt' /\
    cleared bt'.
Proof.
  apply (multi_delete_clears_markup ["jaw"; "jaw"] demo_scene (tool demo_closed_app)
           "jaw" 7%nat eq_refl eq_refl demo_scene_registered).
  apply elem_of_cons. by left.
Defined.

(** ** Redrawing an unchanged curve *)

Lemma full_path_loop_stable count rng : forall full st r st',
  full_path_loop count rng full st = (Ok r, st') ->
  forall st'', cache_grown st' st'' -> full_path_loop count rng full st'' = (Ok r, st'').
Proof.
  induction rng as [|i rng IH]; intros full st r st'; simpl.
  - intros [= <- <-] st'' G. done.
  - unfold bind.
    destruct (_get_segment_points _ _ st) as [[pts|e] st1] eqn:E1; [|done].
    intros E st'' G.
    pose proof (full_path_loop_frame _ _ _ _ _ _ E) as G1.
    rewrite (get_segment_stable st st1 st'' _ _ pts E1)
      by (by eapply cache_grown_trans).
    by eapply IH.
Qed.

(** X18. Once the path of the curve has been computed, computing it
    again gives the same points and changes nothing, the cache
    included: every segment is answered from the cache, and redrawing
    the curve is a no-op on the tool. *)
Theorem redraw_is_stable (st st' : Tool) (pts : list point) :
  _get_full_path_points st = (Ok pts, st') ->
  _get_full_path_points st' = (Ok pts, st') /\ update_curve st' = (Ok tt, st').
Proof.
  intros E. pose proof (get_full_path_frame _ _ _ E) as G.
  destruct (cache_grown_fields _ _ G) as (Gn & _ & Gc & _).
  assert (E' : _get_full_path_points st' = (Ok pts, st')).
  { unfold _get_full_path_points, segment_range in *. rewrite Gn, Gc.
    destruct (length (nodes st) <? 2)%nat; [by injection E as <- <-|].
    unfold bind in *.
    destruct (full_path_loop _ _ _ st) as [[full|e] st1] eqn:El; [|done].
    injection E as <- <-.
    by rewrite (full_path_loop_stable _ _ _ _ _ _ El st1 (cache_grown_refl st1)). }
  split; [exact E'|]. unfold update_curve, bind. by rewrite E'.
Qed.

Lemma redraw_is_stable_witness :
  exists pts st',
    _get_full_path_points (tool demo_open_app) = (Ok pts, st') /\
    _get_full_path_points st' = (Ok pts, st') /\ update_curve st' = (Ok tt, st').
Proof.
  destruct (get_full_path_ok (tool demo_open_app) wf_demo_open_app) as (pts & st' & E & _).
  exists pts, st'. split; [exact E|]. exact (redraw_is_stable _ _ _ E).
Defined.

(** ** The handles of the store are distinct *)

Lemma NoDup_inserted_fresh (ns : list nat) j a :
  NoDup ns -> a ∉ ns -> NoDup (take j ns ++ a :: drop j ns).
Proof.
  intros Hnd Hfresh. rewrite <- (take_drop j ns) in Hnd, Hfresh.
  apply NoDup_app in Hnd as (H1 & H2 & H3).
  apply NoDup_app. split; [exact H1|]. split.
  - intros x Hx Hin. apply elem_of_cons in Hin as [->|Hin].
    + apply Hfresh. apply elem_of_app. by left.
    + by apply (H2 x).
  - apply NoDup_cons. split; [|exact H3].
    intros Hin. apply Hfresh. apply elem_of_app. by right.
Qed.

Lemma NoDup_delete (ns : list nat) j : NoDup ns -> NoDup (delete j ns).
Proof. intros H. eapply sublist_NoDup; [exact H|apply sublist_delete]. Qed.

Lemma execute_nodup c st c' st1 :
  session_inv st -> BezierCmd.execute c st = (Ok c', st1) ->
  NoDup (nodes st) -> NoDup (nodes st1).
Proof.
  intros Hinv E Hnd.
  pose proof Hinv as (Hwf & Hloop & Hfresh & m & Hm & Hne).
  pose proof Hwf as (Hlen & _).
  destruct c as [pos idx aa ap fi|a idx pid pos wc|a op np opid npid|ps|sn si sc].
  - change (BezierCmd.execute (BezierCmdAdd pos idx aa ap fi) st)
      with (BezierCmd.execute (new_BezierCmdAdd pos idx) st) in E.
    destruct (execute_add_shape st m pos idx Hinv Hm) as (c2 & st2 & E2 & Hshape).
    rewrite E in E2. injection E2 as _ <-.
    destruct (is_noop_append st (find_closest_point m pos) idx); [by subst st1|].
    destruct Hshape as (p & G).
    destruct (cache_grown_fields _ _ G) as (Gn & _). rewrite Gn.
    destruct (inserted_position st p (find_closest_point m pos) idx Hlen)
      as (j & _ & Hn & _).
    rewrite Hn. apply NoDup_inserted_fresh; [exact Hnd|by apply fresh_not_in].
  - unfold BezierCmd.execute, bind in E.
    destruct (py_index a (nodes st)) as [j|] eqn:Hidx.
    + destruct (remove_node_ok st a j Hwf Hidx) as (s1 & E1 & G1).
      rewrite E1 in E. injection E as _ <-.
      destruct (cache_grown_fields _ _ G1) as (Gn & _). rewrite Gn.
      unfold removed. simpl.
      destruct (length (delete j (nodes st)) <? 3)%nat; simpl; by apply NoDup_delete.
    + rewrite (remove_node_absent st a Hidx) in E. by injection E as _ <-.
  - unfold BezierCmd.execute, bind in E.
    destruct (_internal_update_node_pos a np npid st) as [[u|e] s1] eqn:E1; [|done].
    injection E as _ <-.
    destruct (py_index a (nodes st)) as [j|] eqn:Hidx.
    + pose proof (py_index_lt _ _ _ Hidx) as Hlt.
      assert (Hj : (j < length (node_ids st))%nat) by lia.
      pose proof (update_node_pos_frame st a np npid j Hidx Hj) as G1.
      rewrite E1 in G1. cbn [snd] in G1.
      destruct (cache_grown_fields _ _ G1) as (Gn & _). rewrite Gn. exact Hnd.
    + rewrite (update_node_pos_absent st a np npid Hidx) in E1. injection E1 as E1.
      subst s1. exact Hnd.
  - unfold BezierCmd.execute, bind in E.
    destruct (update_curve (with_is_closed st true)) as [[u|e] s1] eqn:E1; [|done].
    injection E as _ <-.
    apply update_curve_frame in E1. destruct (cache_grown_fields _ _ E1) as (Gn & _).
    rewrite Gn. exact Hnd.
  - unfold BezierCmd.execute, bind, _internal_hard_reset in E. injection E as _ <-.
    simpl. apply NoDup_nil_2.
Qed.

(** X19. Gestures keep the handles of the store distinct: no handle
    ever sits at two positions of the anchor list, whatever the gesture
    and whether or not it records a command. *)
Theorem gesture_keeps_handles_distinct (g : gesture) (app : App) :
  session_inv (tool app) -> NoDup (nodes (tool app)) ->
  NoDup (nodes (tool (run (perform g) app))).
Proof.
  intros Hinv Hnd.
  destruct (resolves_to_last g (tool app)) eqn:Hres.
  - (* an append onto the vertex of the last anchor *)
    destruct g as [pos idx| | | |]; try done.
    pose proof Hinv as (_ & _ & _ & m & Hm & _).
    unfold resolves_to_last in Hres. rewrite Hm in Hres.
    destruct (execute_add_shape (tool app) m pos idx Hinv Hm) as (c' & st1 & E & Hshape).
    rewrite Hres in Hshape. subst st1.
    unfold run, perform, add_node_at, CommandManager.execute. by rewrite E.
  - destruct (perform_exec g app Hinv Hres)
      as [[_ A]|(c & c' & st0 & st1 & I0 & A0 & E & _ & A1 & _)].
    + destruct (agree_fields _ _ A) as (An & _). by rewrite An.
    + destruct (agree_fields _ _ A0) as (An0 & _).
      destruct (agree_fields _ _ A1) as (An1 & _). rewrite An1.
      eapply execute_nodup; [exact I0|exact E|]. by rewrite An0.
Qed.

Lemma demo_open_app_nodup : NoDup (nodes (tool demo_open_app)).
Proof.
  assert (Hn : nodes (tool demo_open_app) = [0; 1; 2]%nat) by (vm_compute; reflexivity).
  rewrite Hn. apply (bool_decide_unpack (NoDup [0; 1; 2]%nat)). vm_compute. exact I.
Qed.

Lemma gesture_keeps_handles_distinct_witness :
  NoDup (nodes (tool (run (perform (GAdd (demo_point 0 4 0) (-1))) demo_open_app))).
Proof.
  exact (gesture_keeps_handles_distinct (GAdd (demo_point 0 4 0) (-1)) demo_open_app
           session_inv_demo_open_app demo_open_app_nodup).
Defined.

(** ** The curve runs through vertices of the mesh *)

Lemma py_getitem_elem {A} (l : list A) i x : py_getitem l i = Some x -> x ∈ l.
Proof.
  intros H. apply py_getitem_Some in H as (n & _ & H). by eapply list_elem_of_lookup_2.
Qed.

Lemma np_take_on_mesh m ids : forall snapped,
  np_take (points m) ids = Some snapped -> on_mesh m snapped.
Proof.
  unfold np_take, on_mesh. induction ids as [|i ids IH]; intros snapped; simpl.
  - intros [= <-]. constructor.
  - destruct (py_getitem (points m) i) as [v|] eqn:Hv; simpl; [|done].
    destruct (mapM (py_getitem (points m)) ids) as [sn|]; simpl; [|done].
    intros [= <-]. constructor; [by eapply py_getitem_elem|by apply IH].
Qed.

Lemma get_segment_on_mesh st i j pts st' m :
  cache_on_mesh st -> cur_mesh st = Some m ->
  _get_segment_points i j st = (Ok pts, st') ->
  on_mesh m pts /\ cache_on_mesh st'.
Proof.
  intros Hc Hm. unfold _get_segment_points. rewrite Hm.
  destruct (py_getitem (node_ids st) i) as [pid_a|]; [|done].
  destruct (py_getitem (node_ids st) j) as [pid_b|]; [|done].
  destruct (path_cache st !! sorted_key pid_a pid_b) as [v|] eqn:Hk.
  - intros [= <- <-]. split; [by eapply Hc|exact Hc].
  - destruct (py_getitem (points m) pid_a) as [p_a|]; [|done].
    destruct (py_getitem (points m) pid_b) as [p_b|]; [|done].
    destruct (np_take _ _) as [sn|] eqn:Hsn; [|done].
    intros [= <- <-]. pose proof (np_take_on_mesh _ _ _ Hsn) as Hon.
    split; [exact Hon|]. intros m' key pts' Hm'.
    change (cur_mesh st = Some m') in Hm'. rewrite Hm in Hm'. injection Hm' as <-.
    simpl. destruct (decide (key = sorted_key pid_a pid_b)) as [->|Hne].
    + rewrite lookup_insert_eq. by intros [= <-].
    + rewrite lookup_insert_ne by done. by apply Hc.
Qed.

Lemma on_mesh_drop m n pts : on_mesh m pts -> on_mesh m (drop n pts).
Proof. apply Forall_drop. Qed.

Lemma full_path_loop_on_mesh count rng m : forall full st r st',
  cache_on_mesh st -> cur_mesh st = Some m -> Forall (on_mesh m) full ->
  full_path_loop count rng full st = (Ok r, st') ->
  Forall (on_mesh m) r /\ cache_on_mesh st'.
Proof.
  induction rng as [|i rng IH]; intros full st r st' Hc Hm Hfull; simpl.
  - intros [= <- <-]. done.
  - unfold bind.
    destruct (_get_segment_points _ _ st) as [[pts|e] st1] eqn:E1; [|done].
    destruct (get_segment_on_mesh _ _ _ _ _ m Hc Hm E1) as [Hon Hc1].
    apply get_segment_frame in E1. destruct (cache_grown_fields _ _ E1) as (_ & _ & _ & Gm & _).
    apply IH; [exact Hc1|by rewrite Gm|].
    apply Forall_app. split; [exact Hfull|]. constructor; [|constructor].
    destruct full; [exact Hon|by apply on_mesh_drop].
Qed.

(** X20. The curve runs through vertices of the mesh: when every
    polyline of the cache does (an empty cache, as after every clearing
    change, does), every point of the path that [_get_full_path_points]
    returns is a vertex of the tool's mesh, and every polyline of the
    cache still is one afterwards. *)
Theorem curve_on_mesh_vertices (st st' : Tool) (m : Dataset) (pts : list point) :
  cache_on_mesh st -> cur_mesh st = Some m ->
  _get_full_path_points st = (Ok pts, st') ->
  on_mesh m pts /\ cache_on_mesh st'.
Proof.
  intros Hc Hm. unfold _get_full_path_points.
  destruct (length (nodes st) <? 2)%nat.
  - intros [= <- <-]. split; [constructor|exact Hc].
  - unfold bind.
    destruct (full_path_loop _ _ _ st) as [[full|e] st1] eqn:El; [|done].
    intros [= <- <-].
    destruct (full_path_loop_on_mesh _ _ m _ _ _ _ Hc Hm (Forall_nil_2 _) El) as [Hf Hc1].
    split; [|exact Hc1]. unfold on_mesh. apply Forall_concat. exact Hf.
Qed.

Lemma demo_pair_cache_on_mesh : cache_on_mesh demo_pair.
Proof.
  assert (Hc : path_cache demo_pair = ∅) by (vm_compute; reflexivity).
  intros m key pts _. rewrite Hc, lookup_empty. discriminate.
Qed.

Lemma demo_pair_mesh : cur_mesh demo_pair = Some demo_mesh.
Proof. vm_compute. reflexivity. Qed.

Lemma curve_on_mesh_vertices_witness :
  exists pts st',
    _get_full_path_points demo_pair = (Ok pts, st') /\
    on_mesh demo_mesh pts /\ cache_on_mesh st'.
Proof.
  destruct (get_full_path_ok demo_pair wf_demo_pair) as (pts & st' & E & _).
  exists pts, st'. split; [exact E|].
  exact (curve_on_mesh_vertices demo_pair st' demo_mesh pts
           demo_pair_cache_on_mesh demo_pair_mesh E).
Defined.
